(** * LinkedU scraper: RAG optimisation pipeline

    A shallow embedding of the text-processing core of the repository
    (rag_optimizer.py, linkedu_scraper.py, optimize_existing_schools.py,
    linkedu_school_scraper.py and linkedu_subjects_scraper.py) together with
    the properties of it that the specification states and others that the
    code has.

    Python [str] values are lists of Unicode code points, so that [len],
    slicing and indexing count code points as Python does. *)

From Stdlib Require Import String Ascii DecimalString ZArith List Bool Lia Arith.
From Stdlib Require Import Permutation Sorting.Sorted.
From Stdlib Require Import DecimalNat FinFun.
Import ListNotations.

(* ================================================================== *)
(** * Python strings *)
(* ================================================================== *)

Module PyStr.

Local Open Scope Z_scope.

Definition cp := Z.
Definition pystr := list cp.

(** An ASCII literal of the source, as code points. *)
Definition lit (s : string) : pystr :=
  map (fun a => Z.of_N (N_of_ascii a)) (list_ascii_of_string s).

Definition in_range (lo hi c : cp) : bool := ((lo <=? c) && (c <=? hi))%Z.

Fixpoint eqb (a b : pystr) : bool :=
  match a, b with
  | [], [] => true
  | x :: a', y :: b' => (x =? y)%Z && eqb a' b'
  | _, _ => false
  end.

(** [Py_UNICODE_ISSPACE]: the predicate behind [str.strip], [str.isspace]
    and the [\s] class of [re] on [str] patterns. *)
Definition isspace (c : cp) : bool :=
  in_range 9 13 c || in_range 28 32 c || (c =? 133)%Z || (c =? 160)%Z
  || (c =? 5760)%Z || in_range 8192 8202 c || (c =? 8232)%Z || (c =? 8233)%Z
  || (c =? 8239)%Z || (c =? 8287)%Z || (c =? 12288)%Z.

Definition SP : cp := 32%Z.
Definition NL : cp := 10%Z.

Fixpoint dropWhile (p : cp -> bool) (s : pystr) : pystr :=
  match s with
  | [] => []
  | x :: s' => if p x then dropWhile p s' else s
  end.

(** [s.lstrip()], [s.rstrip()], [s.strip()] *)
Definition lstrip (s : pystr) : pystr := dropWhile isspace s.
Definition rstrip (s : pystr) : pystr := rev (dropWhile isspace (rev s)).
Definition strip (s : pystr) : pystr := rstrip (lstrip s).

(** [s.startswith(p)] *)
Fixpoint startswith (p s : pystr) : bool :=
  match p, s with
  | [], _ => true
  | a :: p', b :: s' => (a =? b)%Z && startswith p' s'
  | _ :: _, [] => false
  end.

(** [p in s] *)
Fixpoint contains (p s : pystr) : bool :=
  startswith p s ||
  match s with
  | [] => false
  | _ :: s' => contains p s'
  end.

(** [s.split(sep)] for a non-empty separator: the pieces between the
    non-overlapping occurrences of [sep], found left to right.  [n] bounds
    the number of characters still to scan. *)
Definition cons_head (x : cp) (ps : list pystr) : list pystr :=
  match ps with
  | [] => [[x]]
  | p :: ps' => (x :: p) :: ps'
  end.

Fixpoint split_loop (sep : pystr) (n : nat) (s : pystr) : list pystr :=
  match n with
  | O => [s]
  | S n' =>
      match s with
      | [] => [[]]
      | x :: s' =>
          if startswith sep s
          then [] :: split_loop sep n' (skipn (length sep) s)
          else cons_head x (split_loop sep n' s')
      end
  end.

Definition split (sep s : pystr) : list pystr := split_loop sep (length s) s.

(** [sep.join(parts)] *)
Fixpoint join (sep : pystr) (parts : list pystr) : pystr :=
  match parts with
  | [] => []
  | [p] => p
  | p :: ps => p ++ sep ++ join sep ps
  end.

(** [str.upper] on the ASCII range. *)
Definition ascii_upper (c : cp) : cp :=
  if in_range 97 122 c then (c - 32)%Z else c.
Definition ascii_lower (c : cp) : cp :=
  if in_range 65 90 c then (c + 32)%Z else c.
Definition is_ascii (c : cp) : bool := in_range 0 127 c.

(** Lexicographic comparison of strings by code point, the order of
    [sorted] on [str]. *)
Fixpoint leb (a b : pystr) : bool :=
  match a, b with
  | [], _ => true
  | _ :: _, [] => false
  | x :: a', y :: b' => (x <? y)%Z || ((x =? y)%Z && leb a' b')
  end.

End PyStr.
Import PyStr.

(* ================================================================== *)
(** * The fragment of Python's [re] that the program uses *)
(* ================================================================== *)

Module Re.

(** Items of a bracketed character class. *)
Inductive citem :=
| One (c : cp)               (* a literal character *)
| Rng (lo hi : cp)           (* lo-hi *)
| Esc (p : cp -> bool).      (* an escape class: \w, \s, \d *)

Definition citem_mem (c : cp) (i : citem) : bool :=
  match i with
  | One d => (c =? d)%Z
  | Rng lo hi => in_range lo hi c
  | Esc p => p c
  end.

Definition in_class (items : list citem) (c : cp) : bool :=
  existsb (citem_mem c) items.

(** Patterns.  All repetition is greedy, as in the source. *)
Inductive re :=
| Eps
| Cls (neg : bool) (items : list citem)   (* [...] and [^...] *)
| Seq (a b : re)
| Alt (a b : re)
| Star (a : re)
| Behind (items : list citem)             (* (?<=[...]) *)
| WordB (w : cp -> bool).                 (* \b, for the given \w *)

Definition Chr (c : cp) : re := Cls false [One c].
Definition Plus (a : re) : re := Seq a (Star a).

(** [a{n,}] *)
Fixpoint AtLeast (n : nat) (a : re) : re :=
  match n with
  | O => Star a
  | S n' => Seq a (AtLeast n' a)
  end.

(** A literal string. *)
Fixpoint Lit (s : pystr) : re :=
  match s with
  | [] => Eps
  | [c] => Chr c
  | c :: s' => Seq (Chr c) (Lit s')
  end.

(** A matching position: the character before it, if any, and the text
    that is left. *)
Definition pos := (option cp * pystr)%type.

(** One more round of a starred pattern [m], for at most [n] rounds; a
    round has to consume a character. *)
Fixpoint star_loop (m : option cp -> pystr -> list pos) (n : nat)
  (prev : option cp) (s : pystr) : list pos :=
  match n with
  | O => [(prev, s)]
  | S n' =>
      flat_map (fun st : pos =>
                  if length (snd st) <? length s
                  then star_loop m n' (fst st) (snd st)
                  else [])
               (m prev s)
      ++ [(prev, s)]
  end.

(** The backtracking matcher: every way [r] matches at the position
    [(prev, s)], as the positions where the match ends, in the order in
    which the engine tries them.  The engine takes the first. *)
Fixpoint rmatch (r : re) (prev : option cp) (s : pystr) : list pos :=
  match r with
  | Eps => [(prev, s)]
  | Cls neg items =>
      match s with
      | x :: s' => if xorb neg (in_class items x) then [(Some x, s')] else []
      | [] => []
      end
  | Seq a b => flat_map (fun st : pos => rmatch b (fst st) (snd st)) (rmatch a prev s)
  | Alt a b => rmatch a prev s ++ rmatch b prev s
  | Star a => star_loop (rmatch a) (S (length s)) prev s
  | Behind items =>
      match prev with
      | Some x => if in_class items x then [(prev, s)] else []
      | None => []
      end
  | WordB w =>
      let before := match prev with Some x => w x | None => false end in
      let after := match s with x :: _ => w x | [] => false end in
      if xorb before after then [(prev, s)] else []
  end.

(** The match of [r] that starts at this position, if there is one.  No
    pattern of the program matches the empty string; a match that consumes
    nothing counts as none. *)
Definition first_match (r : re) (prev : option cp) (s : pystr) : option pos :=
  match rmatch r prev s with
  | st :: _ => if length (snd st) <? length s then Some st else None
  | [] => None
  end.

(** [re.sub(r, repl, s)] for a literal replacement. *)
Fixpoint sub_loop (r : re) (repl : pystr) (n : nat) (prev : option cp)
  (s : pystr) : pystr :=
  match n with
  | O => s
  | S n' =>
      match first_match r prev s with
      | Some st => repl ++ sub_loop r repl n' (fst st) (snd st)
      | None =>
          match s with
          | [] => []
          | x :: s' => x :: sub_loop r repl n' (Some x) s'
          end
      end
  end.

Definition sub (r : re) (repl s : pystr) : pystr :=
  sub_loop r repl (S (length s)) None s.

(** [re.findall(r, s)] for a pattern without groups: the matched texts. *)
Fixpoint findall_loop (r : re) (n : nat) (prev : option cp) (s : pystr)
  : list pystr :=
  match n with
  | O => []
  | S n' =>
      match first_match r prev s with
      | Some st =>
          firstn (length s - length (snd st)) s
          :: findall_loop r n' (fst st) (snd st)
      | None =>
          match s with
          | [] => []
          | x :: s' => findall_loop r n' (Some x) s'
          end
      end
  end.

Definition findall (r : re) (s : pystr) : list pystr :=
  findall_loop r (S (length s)) None s.

(** [re.split(r, s)] for a pattern without groups: the texts between the
    matches. *)
Fixpoint split_loop (r : re) (n : nat) (prev : option cp) (s : pystr)
  : list pystr :=
  match n with
  | O => [s]
  | S n' =>
      match first_match r prev s with
      | Some st => [] :: split_loop r n' (fst st) (snd st)
      | None =>
          match s with
          | [] => [[]]
          | x :: s' => cons_head x (split_loop r n' (Some x) s')
          end
      end
  end.

Definition split (r : re) (s : pystr) : list pystr :=
  split_loop r (S (length s)) None s.

(** [\s] *)
Definition ws : re := Cls false [Esc isspace].

End Re.

(* ================================================================== *)
(** * Sets and dictionaries *)
(* ================================================================== *)

Module PySet.

(** A Python [set] of strings is kept as the list of its elements without
    repetition.  The order in which a set is iterated is not fixed by the
    language: for strings it follows their hashes, which change from one
    interpreter run to the next.  An [order] stands for that choice: it
    rearranges the elements of a set into the sequence that iterating the
    set yields. *)
Definition mem (x : pystr) (l : list pystr) : bool := existsb (PyStr.eqb x) l.

Definition add (x : pystr) (l : list pystr) : list pystr :=
  if mem x l then l else l ++ [x].

(** [s.update(xs)] *)
Definition update (s xs : list pystr) : list pystr :=
  fold_left (fun acc x => add x acc) xs s.

(** [set(xs)] *)
Definition of_list (xs : list pystr) : list pystr := update [] xs.

Definition order := list pystr -> list pystr.

Definition valid_order (o : order) : Prop := forall l, Permutation (o l) l.

(** Two orders: the elements as they were inserted, and the other way
    round. *)
Definition as_listed : order := fun l => l.
Definition reversed : order := fun l => rev l.

End PySet.

(* ================================================================== *)
(** * Formatting and sorting *)
(* ================================================================== *)

Module Py.

(** [str(n)] for an integer, as in an f-string. *)
Definition str_of_nat (n : nat) : pystr :=
  lit (NilEmpty.string_of_uint (Nat.to_uint n)).

(** [enumerate(l, start)] and [enumerate(l)] *)
Definition enumerate_from {A : Type} (start : nat) (l : list A)
  : list (nat * A) :=
  combine (seq start (length l)) l.

Definition enumerate {A : Type} (l : list A) : list (nat * A) :=
  enumerate_from 0 l.

(** The truth value of a string or a list: it is not empty. *)
Definition truthy {A : Type} (l : list A) : bool :=
  match l with [] => false | _ => true end.

(** A stable sort: [insert] puts [x], which came first, in front of the
    first element that it may precede. *)
Fixpoint insert {A : Type} (le : A -> A -> bool) (x : A) (l : list A) : list A :=
  match l with
  | [] => [x]
  | y :: l' => if le x y then x :: l else y :: insert le x l'
  end.

Definition sort_stable {A : Type} (le : A -> A -> bool) (l : list A) : list A :=
  fold_right (insert le) [] l.

(** [sorted(l)] on strings. *)
Definition sorted (l : list pystr) : list pystr := sort_stable PyStr.leb l.

End Py.

(* ================================================================== *)
(** * The Unicode tables on ASCII text *)
(* ================================================================== *)

Module AsciiText.

(** On code points below 128 these are the tables of the interpreter. *)
Definition upper_char (c : cp) : pystr := [ascii_upper c].
Definition lower (s : pystr) : pystr := map ascii_lower s.
Definition isdigit (c : cp) : bool := in_range 48%Z 57%Z c.
Definition isalnum (c : cp) : bool :=
  in_range 48%Z 57%Z c || in_range 65%Z 90%Z c || in_range 97%Z 122%Z c.
Definition isword (c : cp) : bool := isalnum c || (c =? 95)%Z.

End AsciiText.

(* ================================================================== *)
(** * optimize_existing_schools.py (class SchoolRAGOptimizer);
      [_extract_country_from_address] and [_generate_search_variations] are
      repeated word for word in linkedu_school_scraper.py (class
      LinkedUSchoolScraper), [_extract_keywords] but for the cleaning of
      the text *)
(* ================================================================== *)

Module School.

(** [self.education_keywords] *)
Definition education_keywords : list (pystr * list pystr) :=
  [ (lit "UK", [lit "united kingdom"; lit "england"; lit "london";
                lit "british"; lit "scotland"; lit "wales"]);
    (lit "US", [lit "united states"; lit "america"; lit "california";
                lit "new york"; lit "boston"]);
    (lit "AU", [lit "australia"; lit "sydney"; lit "melbourne"; lit "brisbane"]);
    (lit "CA", [lit "canada"; lit "toronto"; lit "vancouver"; lit "montreal"]);
    (lit "CN", [lit "china"; lit "hong kong"; lit "macau"; lit "beijing";
                lit "shanghai"]) ].

(** The [countries] table of [_extract_country_from_address]; a [dict]
    literal is iterated in the order in which it is written. *)
Definition countries : list (pystr * list pystr) :=
  [ (lit "UK", [lit "UK"; lit "United Kingdom"; lit "England"; lit "Scotland";
                lit "Wales"; lit "Northern Ireland"]);
    (lit "US", [lit "US"; lit "USA"; lit "United States"; lit "America"]);
    (lit "CA", [lit "Canada"; lit "CA"]);
    (lit "AU", [lit "Australia"; lit "AU"]);
    (lit "CN", [lit "China"; lit "CN"; lit "Hong Kong"; lit "Macau"]) ].

(** [d[key]] / [key in d] *)
Fixpoint lookup (key : pystr) (d : list (pystr * list pystr))
  : option (list pystr) :=
  match d with
  | [] => None
  | (k, v) :: d' => if PyStr.eqb key k then Some v else lookup key d'
  end.

Section Upper.

(** The full upper-case mapping of a code point ([str.upper] maps each
    character on its own; a character can map to several). *)
Variable upper_char : cp -> pystr.

Definition py_upper (s : pystr) : pystr := flat_map upper_char s.

(** The inner loop: does an indicator of the list occur in the address? *)
Definition indicator_found (address_upper : pystr) (indicators : list pystr)
  : bool :=
  existsb (fun indicator => contains (py_upper indicator) address_upper)
          indicators.

(** The outer loop, which returns at the first table entry with an
    indicator that occurs. *)
Fixpoint scan_countries (address_upper : pystr)
  (table : list (pystr * list pystr)) : pystr :=
  match table with
  | [] => []
  | (country_code, indicators) :: table' =>
      if indicator_found address_upper indicators
      then country_code
      else scan_countries address_upper table'
  end.

Definition _extract_country_from_address (address : pystr) : pystr :=
  match address with
  | [] => []
  | _ => scan_countries (py_upper address) countries
  end.

(** An indicator appears in an address, letter case aside: this is the
    test of the source, [indicator.upper() in address.upper()]. *)
Definition appears (indicator address : pystr) : Prop :=
  exists l r, py_upper address = l ++ py_upper indicator ++ r.

End Upper.

(** The indicators of the UK entry of the table. *)
Definition uk_indicators : list pystr :=
  match lookup (lit "UK") countries with Some l => l | None => [] end.

(** The [school] dictionary that [_generate_search_variations] reads. *)
Record school := {
  name : pystr;
  country : pystr;
  popular_subjects : list pystr
}.

Definition _generate_search_variations (sc : school) : list pystr :=
  let variations : list pystr := [] in
  (* school name, and name with country *)
  let variations :=
    if Py.truthy (name sc)
    then (variations ++ [name sc])
         ++ (if Py.truthy (country sc)
             then [name sc ++ lit " " ++ country sc] else [])
    else variations in
  (* the first three popular subjects *)
  let variations :=
    fold_left (fun acc subject =>
                 if Py.truthy (name sc)
                 then acc ++ [name sc ++ lit " " ++ subject] else acc)
              (firstn 3 (popular_subjects sc)) variations in
  (* the first three keywords of the country *)
  let variations :=
    match (if Py.truthy (country sc) then lookup (country sc) education_keywords
           else None) with
    | Some keywords =>
        fold_left (fun acc keyword =>
                     if Py.truthy (name sc)
                     then acc ++ [name sc ++ lit " " ++ keyword] else acc)
                  (firstn 3 keywords) variations
    | None => variations
    end in
  firstn 10 variations.

(** The variations in the order in which [_generate_search_variations]
    appends them, before the final slice. *)
Definition candidates (sc : school) : list pystr :=
  if Py.truthy (name sc)
  then [name sc]
       ++ (if Py.truthy (country sc)
           then [name sc ++ lit " " ++ country sc] else [])
       ++ map (fun subject => name sc ++ lit " " ++ subject)
              (firstn 3 (popular_subjects sc))
       ++ match (if Py.truthy (country sc)
                 then lookup (country sc) education_keywords else None) with
          | Some keywords =>
              map (fun keyword => name sc ++ lit " " ++ keyword)
                  (firstn 3 keywords)
          | None => []
          end
  else [].

(** A text of 21 distinct words. *)
Definition many_words : pystr :=
  lit "word alfa bravo charlie delta echo foxtrot golf hotel india juliet kilo lima mike november oscar papa quebec romeo sierra tango".

(** A school with the same facet term twice. *)
Definition school_twice : school :=
  {| name := lit "X"; country := []; popular_subjects := [lit "a"; lit "a"] |}.

(** [_clean_text] of this class. *)
Definition _clean_text (text : pystr) : pystr :=
  match text with
  | [] => []
  | _ =>
      let text := Re.sub (Re.Plus (Re.Chr NL)) (lit " ") text in
      let text := Re.sub (Re.Plus Re.ws) (lit " ") text in
      strip text
  end.

Definition stopwords : list pystr :=
  [lit "school"; lit "university"; lit "college"; lit "campus";
   lit "student"; lit "students"; lit "education"].

Section Keywords.

(** [str.lower], the [\w] class and the iteration order of sets. *)
Variable py_lower : pystr -> pystr.
Variable isword : cp -> bool.
Variable set_order : PySet.order.

(** [\b\w{4,}\b] *)
Definition word4 : Re.re :=
  Re.Seq (Re.WordB isword)
         (Re.Seq (Re.AtLeast 4 (Re.Cls false [Re.Esc isword]))
                 (Re.WordB isword)).

Definition _extract_keywords (text : pystr) : list pystr :=
  match text with
  | [] => []
  | _ =>
      let cleaned_text := _clean_text text in
      let words := Re.findall word4 (py_lower cleaned_text) in
      let keywords := filter (fun word => negb (PySet.mem word stopwords)) words in
      let unique_keywords := firstn 20 (set_order (PySet.of_list keywords)) in
      unique_keywords
  end.

(** [_extract_keywords] of linkedu_school_scraper.py, which does not
    clean the text first. *)
Definition _extract_keywords_scraper (text : pystr) : list pystr :=
  match text with
  | [] => []
  | _ =>
      let words := Re.findall word4 (py_lower text) in
      let keywords := filter (fun word => negb (PySet.mem word stopwords)) words in
      let unique_keywords := firstn 20 (set_order (PySet.of_list keywords)) in
      unique_keywords
  end.

(** The set of which [_extract_keywords] takes the first 20. *)
Definition keyword_set (text : pystr) : list pystr :=
  PySet.of_list
    (filter (fun word => negb (PySet.mem word stopwords))
            (Re.findall word4 (py_lower (_clean_text text)))).

End Keywords.

End School.

(* ================================================================== *)
(** * linkedu_subjects_scraper.py (class LinkeduSubjectScraper): the main
      content of a subject, packed sentence by sentence *)
(* ================================================================== *)

Module Subjects.

Definition clean_text (text : pystr) : pystr :=
  match text with
  | [] => []
  | _ =>
      let text := Re.sub (Re.Plus Re.ws) (lit " ") text in
      let text := strip text in
      let text := Re.sub (Re.Plus (Re.Chr NL)) (lit " ") text in
      text
  end.

(** [(?<=[.!?])\s+] *)
Definition sentence_end : Re.re :=
  Re.Seq (Re.Behind [Re.One 46%Z; Re.One 33%Z; Re.One 63%Z]) (Re.Plus Re.ws).

Record chunk := {
  chunk_id : pystr;
  title : pystr;
  type : pystr;
  content : pystr
}.

(** The variables of the packing loop. *)
Record packing := {
  chunks : list chunk;
  current_chunk : pystr;
  chunk_count : nat
}.

Section Subject.

(** [subject['english_name']] and its lower-cased form *)
Variable english_name : pystr.
Variable english_name_lower : pystr.

(** [english_name.lower().replace(' ', '_')] *)
Definition slug : pystr :=
  map (fun c => if (c =? 32)%Z then 95%Z else c) english_name_lower.

Definition content_chunk (count : nat) (text : pystr) : chunk :=
  {| chunk_id := slug ++ lit "_content_" ++ Py.str_of_nat count;
     title := english_name ++ lit " - Content Part " ++ Py.str_of_nat count;
     type := lit "content";
     content := strip text |}.

(** One round of [for sentence in sentences]. *)
Definition pack (st : packing) (sentence : pystr) : packing :=
  if (1000 <? length (current_chunk st) + length sentence)
     && Py.truthy (current_chunk st)
  then
    let count := S (chunk_count st) in
    {| chunks := chunks st ++ [content_chunk count (current_chunk st)];
       current_chunk := sentence;
       chunk_count := count |}
  else
    {| chunks := chunks st;
       current_chunk :=
         if Py.truthy (current_chunk st)
         then current_chunk st ++ lit " " ++ sentence
         else sentence;
       chunk_count := chunk_count st |}.

(** The last chunk, if anything is left. *)
Definition flush (st : packing) : list chunk :=
  if Py.truthy (current_chunk st)
  then chunks st ++ [content_chunk (S (chunk_count st)) (current_chunk st)]
  else chunks st.

Definition pack_sentences (sentences : list pystr) : list chunk :=
  flush (fold_left pack sentences
           {| chunks := []; current_chunk := []; chunk_count := 0 |}).

(** The "Main content" block of [optimize_for_rag], for
    [subject['content']]. *)
Definition optimize_for_rag_content (subject_content : pystr) : list chunk :=
  if Py.truthy subject_content
  then
    let clean_content := clean_text subject_content in
    let sentences := Re.split sentence_end clean_content in
    pack_sentences sentences
  else [].

End Subject.

(** What the loop keeps true: an emitted text is within 1001 characters
    or is one sentence, stripped; so is the buffer. *)
Definition bounded (sentences : list pystr) (text : pystr) : Prop :=
  length text <= 1001 \/ exists s, In s sentences /\ text = strip s.

Definition buffer_ok (sentences : list pystr) (buf : pystr) : Prop :=
  length buf <= 1001 \/ In buf sentences.

Definition packing_ok (sentences : list pystr) (st : packing) : Prop :=
  Forall (fun c => bounded sentences (content c)) (chunks st)
  /\ buffer_ok sentences (current_chunk st).

(** Two sentences of 500 characters each, a space between them. *)
Definition sentence_a : pystr := repeat 97%Z 499 ++ lit ".".
Definition sentence_b : pystr := repeat 98%Z 499 ++ lit ".".
Definition two_sentences : pystr := sentence_a ++ lit " " ++ sentence_b.

End Subjects.

(* ================================================================== *)
(** * rag_optimizer.py (class RAGOptimizer) *)
(* ================================================================== *)

Module Rag.
Import Re.
Local Open Scope Z_scope.

(** [self.stopwords] *)
Definition stopwords : list pystr :=
  [
   [0x7684]; [0x4e86]; [0x5728]; [0x662f];
   [0x6211]; [0x6709]; [0x548c]; [0x5c31];
   [0x4e0d]; [0x4eba]; [0x90fd]; [0x4e00];
   [0x4e00; 0x500b]; [0x4e0a]; [0x4e5f]; [0x5f88];
   [0x5230]; [0x8aaa]; [0x8981]; [0x53bb];
   [0x4f60]; [0x6703]; [0x8457]; [0x6c92; 0x6709];
   [0x770b]; [0x597d]; [0x81ea; 0x5df1]; [0x9019];
   [0x90a3]; [0x53ef; 0x4ee5]; [0x9019; 0x500b]; [0x90a3; 0x500b];
   [0x4f46; 0x662f]; [0x56e0; 0x70ba]; [0x6240; 0x4ee5]; [0x5982; 0x679c];
   [0x96d6; 0x7136]; [0x7136; 0x5f8c]; [0x9084; 0x662f]; [0x5df2; 0x7d93];
   [0x61c9; 0x8a72]; [0x53ef; 0x80fd]; [0x6642; 0x5019]; [0x5730; 0x65b9];
   [0x554f; 0x984c]; [0x65b9; 0x6cd5]; [0x60c5; 0x6cc1]; [0x6642; 0x9593];
   [0x5de5; 0x4f5c]; [0x751f; 0x6d3b]; [0x5b78; 0x7fd2]; [0x77e5; 0x9053];
   [0x8a8d; 0x70ba]; [0x89ba; 0x5f97]; [0x5e0c; 0x671b]; [0x9700; 0x8981];
   [0x60f3; 0x8981]; [0x958b; 0x59cb]; [0x9032; 0x884c]; [0x767c; 0x73fe];
   [0x51fa; 0x73fe]; [0x7522; 0x751f]; [0x5f62; 0x6210]; [0x5efa; 0x7acb];
   [0x5275; 0x9020]; [0x767c; 0x5c55]; [0x63d0; 0x9ad8]; [0x589e; 0x52a0];
   [0x6e1b; 0x5c11]; [0x6539; 0x8b8a]; [0x5f71; 0x97ff]; [0x4f5c; 0x7528];
   [0x95dc; 0x4fc2]; [0x806f; 0x7e6b]; [0x6bd4; 0x8f03]; [0x4e0d; 0x540c];
   [0x76f8; 0x540c]; [0x91cd; 0x8981]; [0x4e3b; 0x8981]; [0x57fa; 0x672c];
   [0x4e00; 0x822c]; [0x7279; 0x5225]; [0x5c24; 0x5176]; [0x7279; 0x6b8a];
   [0x5177; 0x9ad4]; [0x8a73; 0x7d30]; [0x7c21; 0x55ae]; [0x8907; 0x96dc];
   [0x5bb9; 0x6613]; [0x56f0; 0x96e3]; [0x53ef; 0x80fd]; [0x4e0d; 0x53ef; 0x80fd];
   [0x5fc5; 0x9808]; [0x61c9; 0x7576]; [0x80fd; 0x5920]; [0x7121; 0x6cd5];
   [0x5141; 0x8a31]; [0x7981; 0x6b62]; [0x5305; 0x62ec]; [0x9664; 0x4e86];
   [0x95dc; 0x65bc]; [0x5c0d; 0x65bc]; [0x6839; 0x64da]; [0x6309; 0x7167];
   [0x901a; 0x904e]; [0x5229; 0x7528]; [0x4f7f; 0x7528]; [0x63a1; 0x7528];
   [0x9078; 0x64c7]; [0x6c7a; 0x5b9a]; [0x78ba; 0x5b9a]; [0x5b89; 0x6392];
   [0x8a08; 0x5283]; [0x6e96; 0x5099]; [0x5b8c; 0x6210]; [0x5be6; 0x73fe];
   [0x9054; 0x5230]; [0x7372; 0x5f97]; [0x53d6; 0x5f97]; [0x6210; 0x529f];
   [0x5931; 0x6557]; [0x6b63; 0x78ba]; [0x932f; 0x8aa4]; [0x597d; 0x7684];
   [0x58de; 0x7684]; [0x5927; 0x7684]; [0x5c0f; 0x7684]; [0x591a; 0x7684];
   [0x5c11; 0x7684]; [0x9ad8; 0x7684]; [0x4f4e; 0x7684]; [0x9577; 0x7684];
   [0x77ed; 0x7684]; [0x65b0; 0x7684]; [0x820a; 0x7684]
  ].

(** The six marks of the class [\uff0c\u3002\uff01\uff1f\uff1b\uff1a]:
    the full-width comma, full stop, exclamation mark, question mark,
    semicolon and colon. *)
Definition cjk_marks : list citem :=
  [One 0xff0c; One 0x3002; One 0xff01; One 0xff1f; One 0xff1b; One 0xff1a].

Definition COMMA : cp := 0xff0c.

(** A value read from the article dictionary. *)
Inductive pyval :=
| PStr (s : pystr)
| PNone
| PInt (z : Z).

(** [str(v)], as an f-string formats it. *)
Definition py_str (v : pyval) : pystr :=
  match v with
  | PStr s => s
  | PNone => lit "None"
  | PInt z => lit (NilEmpty.string_of_int (Z.to_int z))
  end.

(** An article, as [article.get(key, default)] sees it: an absent key
    reads as its default.  The title, the body and the excerpt are what
    the collector stored: a string, [None], or a value without [strip]
    (a number here); the other entries are strings and lists as the
    collector writes them. *)
Record article := {
  a_title : pyval;
  a_content : pyval;
  a_excerpt : pyval;
  a_source_url : pystr;
  a_categories : pystr;
  a_headings : list (option pystr)   (* [heading['text']] where there is one *)
}.

Record chunk := {
  chunk_id : pystr;
  chunk_heading : pystr;
  chunk_content : pystr;
  chunk_context : pystr;
  chunk_length : nat
}.

Record qa := {
  question : pystr;
  answer : pystr;
  qa_context : pystr
}.

Record qa_pattern := {
  question_pattern : pystr;
  pattern_answer : pystr
}.

Record section_info := {
  sec_title : pystr;
  sec_content : pystr
}.

(** The dictionary that [_optimize_single_article] returns; its
    [metadata] is constant but for [indexed_at]. *)
Record document := {
  doc_id : pystr;
  doc_title : pystr;
  summary : pystr;
  full_content : pystr;
  source_url : pystr;
  topics : list pystr;
  keywords : list pystr;
  semantic_chunks : list chunk;
  searchable_content : pystr;
  qa_pairs : list qa;
  structure_headings : list pystr;
  structure_sections : list section_info;
  indexed_at : pystr
}.

(** What a call does: it returns or it raises. *)
Inductive result (A : Type) :=
| Return (a : A)
| Raise (e : pystr).
Arguments Return {A} a.
Arguments Raise {A} e.

Definition bind {A B : Type} (m : result A) (k : A -> result B) : result B :=
  match m with
  | Return a => k a
  | Raise e => Raise e
  end.

Notation "x <- m ;; k" := (bind m (fun x => k))
  (at level 61, m at next level, right associativity).

(** [s[:n] + "..." if len(s) > n else s] *)
Definition ellipsis (n : nat) (s : pystr) : pystr :=
  if (n <? length s)%nat then firstn n s ++ lit "..." else s.

(** [f"{index:04d}"] *)
Definition pad4 (n : nat) : pystr :=
  let d := Py.str_of_nat n in repeat 48 (4 - length d) ++ d.

(** [\n##\s+] *)
Definition heading_marker : re :=
  Seq (Chr NL) (Seq (Chr 35) (Seq (Chr 35) (Plus ws))).

(** The first line of a section, and the rest of it. *)
Definition section_heading (section : pystr) : pystr :=
  match PyStr.split [NL] section with
  | line :: _ => strip line
  | [] => []
  end.

Definition section_body (section : pystr) : pystr :=
  let lines := PyStr.split [NL] section in
  if (1 <? length lines)%nat
  then strip (join [NL] (tl lines))
  else strip section.

(** [[p.strip() for p in text.split('\n\n') if p.strip()]] *)
Definition paragraphs_of (text : pystr) : list pystr :=
  filter Py.truthy (map strip (PyStr.split [NL; NL] text)).

(** The chunk of paragraph [j] of section [i]. *)
Definition new_chunk (title heading : pystr) (i j : nat) (paragraph : pystr)
  : chunk :=
  let chunk_id : pystr :=
    if (0 <? j)%nat
    then lit "chunk_" ++ Py.str_of_nat i ++ lit "_" ++ Py.str_of_nat j
    else lit "chunk_" ++ Py.str_of_nat i in
  {| chunk_id := chunk_id;
     chunk_heading := heading;
     chunk_content := paragraph;
     chunk_context := if Py.truthy heading
                      then title ++ lit " - " ++ heading else title;
     chunk_length := length paragraph |}.

(** The body of the loop over the paragraphs of section [i]. *)
Definition paragraph_chunk (title heading : pystr) (i : nat)
  (jp : nat * pystr) : list chunk :=
  let (j, paragraph) := jp in
  if (length paragraph <? 30)%nat then []
  else [new_chunk title heading i j paragraph].

(** The body of the loop over the sections. *)
Definition section_chunks (title : pystr) (isec : nat * pystr) : list chunk :=
  let (i, section) := isec in
  if negb (Py.truthy (strip section)) then []
  else
    let heading := section_heading section in
    let section_content := section_body section in
    if (length section_content <? 50)%nat then []
    else
      flat_map (paragraph_chunk title heading i)
               (Py.enumerate (paragraphs_of section_content)).

Definition _create_semantic_chunks (content title : pystr) : list chunk :=
  let sections := Re.split heading_marker content in
  flat_map (section_chunks title) (Py.enumerate sections).

(** The list [qa_patterns] that [_generate_qa_pairs] builds from the
    title: the two title-level questions with their answers. *)
Definition qa_patterns (title content : pystr) (chunks : list chunk)
  : list qa_pattern :=
  [ {| question_pattern := [0x4ec0; 0x9ebc; 0x662f] ++ title ++ [0xff1f];
       pattern_answer :=
         match chunks with
         | c :: _ => chunk_content c
         | [] => firstn 200 content ++ lit "..."
         end |};
    {| question_pattern :=
         [0x95dc; 0x65bc] ++ title ++ [0x7684; 0x8a73; 0x7d30; 0x8cc7; 0x8a0a];
       pattern_answer := ellipsis 300 content |} ].

(** The pair made from a chunk that has a heading. *)
Definition heading_pair (c : chunk) : qa :=
  {| question := chunk_heading c ++ [0x662f; 0x4ec0; 0x9ebc; 0xff1f];
     answer := chunk_content c;
     qa_context := chunk_context c |}.

Definition _generate_qa_pairs (title content : pystr) (chunks : list chunk)
  : list qa :=
  let qa_pairs : list qa := [] in
  (* the basic patterns are built here; nothing reads them *)
  let qa_patterns := qa_patterns title content chunks in
  (* from the structure of the content *)
  fold_left
    (fun qa_pairs chunk =>
       if Py.truthy (chunk_heading chunk)
       then qa_pairs ++ [heading_pair chunk]
       else qa_pairs)
    (firstn 5 chunks) qa_pairs.

Definition _create_summary (content : pystr) : pystr :=
  let paragraphs := paragraphs_of content in
  match find (fun paragraph =>
                (50 <? length paragraph)%nat
                && negb (startswith (lit "##") paragraph)) paragraphs with
  | Some paragraph => ellipsis 200 paragraph
  | None => ellipsis 200 content
  end.

Definition _identify_sections (content : pystr) : list section_info :=
  let section_parts := Re.split heading_marker content in
  flat_map
    (fun ipart : nat * pystr =>
       let (i, part) := ipart in
       if negb (Py.truthy (strip part)) then []
       else
         let section_title := section_heading part in
         let section_content := section_body part in
         if Py.truthy section_content && (50 <? length section_content)%nat
         then [ {| sec_title := section_title;
                   sec_content := ellipsis 200 section_content |} ]
         else [])
    (Py.enumerate section_parts).

(** The [variations] table of [_create_searchable_content]. *)
Definition variations : list (pystr * pystr) :=
  [ ([0x5927; 0x5b78],
     [0x5927; 0x5b78; 32; 0x5b78; 0x9662; 32; 0x9ad8; 0x7b49; 0x6559; 0x80b2]
       ++ lit " university college");
    ([0x7533; 0x8acb],
     [0x7533; 0x8acb; 32; 0x5831; 0x540d; 32; 0x5165; 0x5b78]
       ++ lit " application apply");
    ([0x5b78; 0x8cbb],
     [0x5b78; 0x8cbb; 32; 0x8cbb; 0x7528] ++ lit " tuition fee cost");
    ([0x734e; 0x5b78; 0x91d1],
     [0x734e; 0x5b78; 0x91d1; 32; 0x8cc7; 0x52a9; 32; 0x52a9; 0x5b78; 0x91d1]
       ++ lit " scholarship grant");
    ([0x7559; 0x5b78],
     [0x7559; 0x5b78; 32; 0x6d77; 0x5916; 0x5347; 0x5b78]
       ++ lit " overseas study abroad");
    ([0x7c3d; 0x8b49],
     [0x7c3d; 0x8b49] ++ lit " visa " ++ [0x5165; 0x5883; 0x8a31; 0x53ef]);
    ([0x82f1; 0x570b],
     [0x82f1; 0x570b] ++ lit " UK " ++ [0x82f1; 0x502b]
       ++ lit " Britain United Kingdom");
    ([0x7f8e; 0x570b],
     [0x7f8e; 0x570b] ++ lit " USA " ++ [0x7f8e; 0x5229; 0x5805]
       ++ lit " America United States") ].

Section Unicode.

(** The tables of the interpreter's Unicode database, and its choice of an
    iteration order for sets. *)
Variable isalnum : cp -> bool.            (* [str.isalnum] *)
Variable isdigit : cp -> bool.            (* decimal digits, [\d] *)
Variable py_lower : pystr -> pystr.       (* [str.lower] *)
Variable set_order : PySet.order.

(** [\w] *)
Definition isword (c : cp) : bool := isalnum c || (c =? 95).

(** The characters that [_clean_text] keeps.  In the source the class is
    written with five-digit escapes; [re] reads [\u20000-\u2a6df] as the
    character U+2000, the range from "0" to U+2A6D and the letter "f". *)
Definition kept : list citem :=
  [ Esc isword; Esc isspace;
    Rng 0x4e00 0x9fff; Rng 0x3400 0x4dbf;
    One 0x2000; Rng 0x30 0x2a6d; One 0x66;
    One 0x2a70; Rng 0x30 0x2b73; One 0x66;
    One 0x2b74; Rng 0x30 0x2b81; One 0x66;
    One 0x2b82; Rng 0x30 0x2cea; One 0x66;
    Rng 0xf900 0xfaff; Rng 0x3300 0x33ff; Rng 0xfe30 0xfe4f;
    Rng 0xf900 0xfaff;
    One 0x2f80; Rng 0x30 0x2fa1; One 0x66;
    One 0xff0c; One 0x3002; One 0xff01; One 0xff1f; One 0xff1b; One 0xff1a;
    One 0x22; One 0x22;
    One 0xff08; One 0xff09; One 0x3010; One 0x3011; One 0x300a; One 0x300b;
    One 0x3001 ].

(** [\s*[marks]\s*] *)
Definition mark_spaced : re :=
  Seq (Star ws) (Seq (Cls false cjk_marks) (Star ws)).

Definition _clean_text (text : pystr) : pystr :=
  match text with
  | [] => []
  | _ =>
      (* extra whitespace *)
      let text := Re.sub (Plus ws) (lit " ") (strip text) in
      (* formatting artifacts *)
      let text := Re.sub (Cls true kept) (lit " ") text in
      (* punctuation *)
      let text := Re.sub mark_spaced [COMMA] text in
      let text := Re.sub (Plus ws) (lit " ") text in
      strip text
  end.

(** [_clean_text] on what the dictionary holds: a false value cleans to
    the empty string, another value that is no string has no [strip]. *)
Definition clean_value (v : pyval) : result pystr :=
  match v with
  | PStr s => Return (_clean_text s)
  | PNone => Return []
  | PInt z =>
      if z =? 0 then Return []
      else Raise (lit "'int' object has no attribute 'strip'")
  end.

(** [[\uff0e\xb7,\uff0c\s]+] *)
Definition category_sep : re :=
  Plus (Cls false [One 0xff0e; One 0xb7; One 0x2c; One 0xff0c; Esc isspace]).

Definition alternatives (ws : list pystr) : re :=
  match ws with
  | [] => Eps
  | w :: ws' => fold_left (fun r w' => Alt r (Lit w')) ws' (Lit w)
  end.

Definition education_patterns : list re :=
  map alternatives
    [ [[0x5927; 0x5b78]; [0x5b78; 0x9662]; [0x5b78; 0x6821]];
      [[0x5b78; 0x79d1]; [0x5c08; 0x696d]; [0x8ab2; 0x7a0b]];
      [[0x5165; 0x5b78]; [0x7533; 0x8acb]; [0x9304; 0x53d6]];
      [[0x5b78; 0x8cbb]; [0x734e; 0x5b78; 0x91d1]; [0x8cc7; 0x52a9]];
      [[0x6d77; 0x5916]; [0x7559; 0x5b78]; [0x904a; 0x5b78]];
      [[0x82f1; 0x570b]; [0x7f8e; 0x570b]; [0x52a0; 0x62ff; 0x5927];
       [0x6fb3; 0x6d32]; [0x65b0; 0x897f; 0x862d]];
      [lit "IELTS"; lit "TOEFL"; lit "SAT"; lit "A-Level"; lit "IB"];
      [[0x78a9; 0x58eb]; [0x5b78; 0x58eb]; [0x535a; 0x58eb]];
      [[0x5347; 0x5b78]; [0x8f49; 0x6821]; [0x929c; 0x63a5]];
      [[0x7c3d; 0x8b49]; [0x79fb; 0x6c11]] ].

Definition _extract_comprehensive_topics (a : article) : list pystr :=
  let topics : list pystr := [] in
  (* from categories *)
  let categories := a_categories a in
  let topics :=
    if Py.truthy categories
    then
      let category_topics := Re.split category_sep categories in
      PySet.update topics (filter Py.truthy (map strip category_topics))
    else topics in
  (* from title and content *)
  let text_to_analyze :=
    py_lower (py_str (a_title a) ++ lit " " ++ py_str (a_content a)) in
  let topics :=
    fold_left (fun topics pattern =>
                 PySet.update topics (Re.findall pattern text_to_analyze))
              education_patterns topics in
  (* clean and filter, in the order in which the set is iterated *)
  let cleaned_topics :=
    flat_map (fun topic =>
                let topic := strip topic in
                if Py.truthy topic && (1 <? length topic)%nat
                   && negb (PySet.mem topic stopwords)
                then [topic] else [])
             (set_order topics) in
  Py.sorted (set_order (PySet.of_list cleaned_topics)).

Definition important_patterns : list re :=
  let digit := Cls false [Esc isdigit] in
  let colon := Cls false [One 0x3a; One 0xff1a] in
  let rest_of_line := Plus (Cls true [One NL]) in
  [ AtLeast 2 (Cls false [Rng 0x41 0x5a]);
    Seq (Plus digit) (Chr 0x5e74);
    Seq (Chr 0x7b2c) (Plus digit);
    Seq (Alt (Lit [0x5b78; 0x8cbb]) (Lit [0x8cbb; 0x7528]))
        (Seq (Star ws) (Seq colon (Seq (Star ws) rest_of_line)));
    Seq (Alt (Lit [0x5165; 0x5b78; 0x8981; 0x6c42])
             (Lit [0x7533; 0x8acb; 0x689d; 0x4ef6]))
        (Seq colon rest_of_line);
    Seq (Alt (Lit [0x622a; 0x6b62; 0x65e5; 0x671f])
             (Lit [0x7533; 0x8acb; 0x671f; 0x9650]))
        (Seq colon rest_of_line) ].

(** [[\u4e00-\u9fff]{2,}|[A-Za-z]{3,}] *)
Definition term : re :=
  Alt (AtLeast 2 (Cls false [Rng 0x4e00 0x9fff]))
      (AtLeast 3 (Cls false [Rng 0x41 0x5a; Rng 0x61 0x7a])).

(** [word_freq[word] = word_freq.get(word, 0) + 1]; a [dict] keeps its
    keys in the order of their first insertion. *)
Fixpoint count_word (word : pystr) (word_freq : list (pystr * nat))
  : list (pystr * nat) :=
  match word_freq with
  | [] => [(word, 1%nat)]
  | (w, n) :: rest =>
      if PyStr.eqb word w then (w, S n) :: rest
      else (w, n) :: count_word word rest
  end.

(** The matches of the patterns, stripped, in the order found. *)
Definition pattern_matches (text : pystr) : list pystr :=
  flat_map (fun pattern => map strip (Re.findall pattern text))
           important_patterns.

(** The frequent terms: the top 20 by frequency, of which those seen more
    than twice. *)
Definition frequent_terms (text : pystr) : list pystr :=
  let words := Re.findall term text in
  let word_freq :=
    fold_left (fun word_freq word =>
                 if negb (PySet.mem word stopwords) && (1 <? length word)%nat
                 then count_word word word_freq else word_freq)
              words [] in
  let top_words :=
    firstn 20
      (Py.sort_stable (fun x y : pystr * nat => (snd y <=? snd x)%nat)
                      word_freq) in
  map fst (filter (fun wf : pystr * nat => (2 <? snd wf)%nat) top_words).

Definition _extract_keywords (text : pystr) : list pystr :=
  let keywords : list pystr := [] in
  let keywords := PySet.update keywords (pattern_matches text) in
  let keywords := PySet.update keywords (frequent_terms text) in
  Py.sorted (set_order keywords).

Definition _create_searchable_content (title content excerpt : pystr) : pystr :=
  let searchable_parts := [title; excerpt; content] in
  let enhanced_content := join (lit " ") searchable_parts in
  let enhanced_content :=
    fold_left (fun enhanced (te : pystr * pystr) =>
                 if contains (fst te) enhanced
                 then enhanced ++ lit " " ++ snd te else enhanced)
              variations enhanced_content in
  _clean_text enhanced_content.

Definition _extract_clean_headings (headings : list (option pystr))
  : list pystr :=
  flat_map (fun h : option pystr =>
              match h with
              | Some raw =>
                  let text := _clean_text raw in
                  if Py.truthy text && (2 <? length text)%nat then [text] else []
              | None => []
              end)
           headings.

(** [now] is what [datetime.now().isoformat()] gives during the call. *)
Definition _optimize_single_article (now : pystr) (a : article) (index : nat)
  : result (option document) :=
  title <- clean_value (a_title a) ;;
  content <- clean_value (a_content a) ;;
  excerpt <- clean_value (a_excerpt a) ;;
  if negb (Py.truthy title) || negb (Py.truthy content)
  then Return None
  else
    let chunks := _create_semantic_chunks content title in
    let topics := _extract_comprehensive_topics a in
    let keywords :=
      _extract_keywords (title ++ lit " " ++ excerpt ++ lit " " ++ content) in
    let searchable_content := _create_searchable_content title content excerpt in
    let qa_pairs := _generate_qa_pairs title content chunks in
    Return (Some
      {| doc_id := lit "linkedu_" ++ pad4 index;
         doc_title := title;
         summary := if Py.truthy excerpt then excerpt else _create_summary content;
         full_content := content;
         source_url := a_source_url a;
         topics := topics;
         keywords := keywords;
         semantic_chunks := chunks;
         searchable_content := searchable_content;
         qa_pairs := qa_pairs;
         structure_headings := _extract_clean_headings (a_headings a);
         structure_sections := _identify_sections content;
         indexed_at := now |}).

(** The state of the loop of [optimize_articles_for_rag]: the documents
    collected so far and what [logger.error] has written. *)
Record batch := {
  optimized_articles : list document;
  log : list pystr
}.

(** One round: [i] is the position in the list, from 0. *)
Definition optimize_step (clock : nat -> pystr) (st : batch)
  (ia : nat * article) : batch :=
  let (i, a) := ia in
  match _optimize_single_article (clock (i + 1)%nat) a (i + 1)%nat with
  | Return (Some optimized) =>
      {| optimized_articles := optimized_articles st ++ [optimized];
         log := log st |}
  | Return None => st
  | Raise e =>
      {| optimized_articles := optimized_articles st;
         log := log st ++ [lit "Error optimizing article "
                           ++ Py.str_of_nat (i + 1) ++ lit ": " ++ e] |}
  end.

(** The loop, from a given state and with the positions that [enumerate]
    gives. *)
Definition optimize_loop (clock : nat -> pystr) (st : batch)
  (numbered : list (nat * article)) : batch :=
  fold_left (optimize_step clock) numbered st.

(** The result of [optimize_articles_for_rag] (its [metadata] reduced to
    the two entries that are not constant), with the log. *)
Record optimized := {
  total_documents : nat;
  optimization_date : pystr;
  documents : list document;
  logged : list pystr
}.

Definition optimize_articles_for_rag (clock : nat -> pystr)
  (articles : list article) : optimized :=
  let st := optimize_loop clock {| optimized_articles := []; log := [] |}
                          (Py.enumerate articles) in
  {| total_documents := length (optimized_articles st);
     optimization_date := clock 0%nat;
     documents := optimized_articles st;
     logged := log st |}.

End Unicode.

(** A title with a body and no chunk. *)
Definition sample_title : pystr := lit "IELTS".
Definition sample_body : pystr := lit "An English test.".

(** A record without a title, and a batch made of it alone. *)
Definition untitled : article :=
  {| a_title := PStr [];
     a_content := PStr (lit "Some body text.");
     a_excerpt := PStr [];
     a_source_url := [];
     a_categories := [];
     a_headings := [] |}.

Definition no_clock : nat -> pystr := fun _ => [].

(** A document without its time stamp. *)
Definition untimed (d : document) : document :=
  {| doc_id := doc_id d;
     doc_title := doc_title d;
     summary := summary d;
     full_content := full_content d;
     source_url := source_url d;
     topics := topics d;
     keywords := keywords d;
     semantic_chunks := semantic_chunks d;
     searchable_content := searchable_content d;
     qa_pairs := qa_pairs d;
     structure_headings := structure_headings d;
     structure_sections := structure_sections d;
     indexed_at := [] |}.

Definition untimed_result (r : result (option document))
  : result (option document) :=
  match r with
  | Return (Some d) => Return (Some (untimed d))
  | Return None => Return None
  | Raise e => Raise e
  end.

(** Twenty-one acronyms. *)
Definition acronyms : pystr :=
  lit "AA AB AC AD AE AF AG AH AI AJ AK AL AM AN AO AP AQ AR AS AT AU".

(** An article with a title and a body. *)
Definition sample_article : article :=
  {| a_title := PStr (lit "Study in the UK");
     a_content := PStr (lit "UK universities ask for IELTS. Apply in 2024.");
     a_excerpt := PStr [];
     a_source_url := lit "https://linkedu.hk/a";
     a_categories := lit "study,uk";
     a_headings := [Some (lit "Intro")] |}.

End Rag.

(* ================================================================== *)
(** * Substitution, position by position *)
(* ================================================================== *)

Module Scan.

(** The loop of [Re.sub] for a pattern whose match at a position depends
    on the text from there on only: [step s] is what is left of [s] after
    the match that starts at its head, if there is one. *)
Fixpoint gsub (step : pystr -> option pystr) (repl : pystr) (n : nat)
  (s : pystr) : pystr :=
  match n with
  | O => s
  | S n' =>
      match step s with
      | Some rest => repl ++ gsub step repl n' rest
      | None =>
          match s with
          | [] => []
          | x :: s' => x :: gsub step repl n' s'
          end
      end
  end.

(** A character of a class; a run of whitespace; a mark with the
    whitespace around it. *)
Definition one_of (p : cp -> bool) (s : pystr) : option pystr :=
  match s with
  | x :: s' => if p x then Some s' else None
  | [] => None
  end.

Definition ws_run (s : pystr) : option pystr :=
  match s with
  | x :: s' => if isspace x then Some (dropWhile isspace s') else None
  | [] => None
  end.

Definition ismark (c : cp) : bool := Re.in_class Rag.cjk_marks c.

Definition mark_run (s : pystr) : option pystr :=
  match dropWhile isspace s with
  | c :: t => if ismark c then Some (dropWhile isspace t) else None
  | [] => None
  end.

(** Properties of a text, character by character and pair by pair. *)
Definition plain (s : pystr) : Prop :=
  Forall (fun c => isspace c = true -> c = SP) s.

Definition marks_comma (s : pystr) : Prop :=
  Forall (fun c => ismark c = true -> c = Rag.COMMA) s.

(** [R] holds of [prev] and the head of [s], and of each character of [s]
    and the next. *)
Fixpoint chain (R : option cp -> cp -> bool) (prev : option cp) (s : pystr)
  : bool :=
  match s with
  | [] => true
  | b :: s' => R prev b && chain R (Some b) s'
  end.

Definition space_before (prev : option cp) : bool :=
  match prev with Some a => isspace a | None => false end.

Definition mark_before (prev : option cp) : bool :=
  match prev with Some a => ismark a | None => false end.

(** No whitespace next to a mark; no two whitespace characters in a
    row. *)
Definition tight (prev : option cp) (b : cp) : bool :=
  negb (space_before prev && ismark b) && negb (mark_before prev && isspace b).

Definition single (prev : option cp) (b : cp) : bool :=
  negb (isspace b && space_before prev).

Definition neat (prev : option cp) (b : cp) : bool :=
  tight prev b && single prev b.

Definition same_class (p p' : option cp) : Prop :=
  space_before p = space_before p' /\ mark_before p = mark_before p'.

Definition starts_unspaced (s : pystr) : Prop :=
  match s with
  | y :: _ => isspace y = false
  | [] => True
  end.

Section Normalizer.

Variable isalnum : cp -> bool.

Definition keeps (c : cp) : Prop := Re.in_class (Rag.kept isalnum) c = true.
Definition unkept (x : cp) : bool := xorb true (Re.in_class (Rag.kept isalnum) x).

(** The steps of [_clean_text] on a text that is not empty. *)
Definition cleaned (text : pystr) : pystr :=
  let t1 := strip text in
  let t2 := gsub ws_run [SP] (S (length t1)) t1 in
  let t3 := gsub (one_of unkept) [SP] (S (length t2)) t2 in
  let t4 := gsub mark_run [Rag.COMMA] (S (length t3)) t3 in
  let t5 := gsub ws_run [SP] (S (length t4)) t4 in
  strip t5.

(** The form of a cleaned text. *)
Definition clean_form (s : pystr) : Prop :=
  plain s /\ Forall keeps s /\ marks_comma s
  /\ chain neat None s = true /\ strip s = s.

End Normalizer.

End Scan.

(* ================================================================== *)
(** * Splitting and finding, position by position *)
(* ================================================================== *)

Module Loops.

(** A run of characters of a class, from the head of the text. *)
Definition class_run (q : cp -> bool) (s : pystr) : option pystr :=
  match s with
  | x :: s' => if q x then Some (dropWhile q s') else None
  | [] => None
  end.

Definition isnl (c : cp) : bool := (c =? NL)%Z.

(** [Scan.gsub] with the number of rounds that [Re.sub] gives it. *)
Definition psub (step : pystr -> option pystr) (repl s : pystr) : pystr :=
  Scan.gsub step repl (S (length s)) s.

(** The loops of [Re.split] and [Re.findall] for a pattern whose match at
    a position depends on the text from there on only. *)
Fixpoint gsplit (step : pystr -> option pystr) (n : nat) (s : pystr)
  : list pystr :=
  match n with
  | O => [s]
  | S n' =>
      match step s with
      | Some rest => [] :: gsplit step n' rest
      | None =>
          match s with
          | [] => [[]]
          | x :: s' => cons_head x (gsplit step n' s')
          end
      end
  end.

Definition psplit (step : pystr -> option pystr) (s : pystr) : list pystr :=
  gsplit step (S (length s)) s.

(** A step consumes something. *)
Definition shortens (step : pystr -> option pystr) : Prop :=
  forall s rest, step s = Some rest -> length rest < length s.

(** No two neighbours in [s] are related by [P]. *)
Definition no_neighbours (P : cp -> cp -> Prop) (s : pystr) : Prop :=
  forall l a b r, s = l ++ a :: b :: r -> ~ P a b.

(** Whitespace is the plain space only, never doubled, never at an end. *)
Definition single_spaced (s : pystr) : Prop :=
  Forall (fun c => isspace c = true -> c = SP) s
  /\ no_neighbours (fun a b => isspace a = true /\ isspace b = true) s
  /\ strip s = s.

End Loops.

(* ================================================================== *)
(** * The form of a normalized article text *)
(* ================================================================== *)

Module Normal.

(** Whitespace next to one of the six marks, on either side. *)
Definition space_by_mark (a b : cp) : Prop :=
  (isspace a = true /\ Scan.ismark b = true)
  \/ (Scan.ismark a = true /\ isspace b = true).

(** What [Rag._clean_text] leaves: single plain spaces, none at an end and
    none next to a mark; the full-width comma as the only mark; characters
    of the kept class only. *)
Definition normalized (isalnum : cp -> bool) (s : pystr) : Prop :=
  Loops.single_spaced s
  /\ Forall (fun c => Re.in_class (Rag.kept isalnum) c = true) s
  /\ Forall (fun c => Scan.ismark c = true -> c = Rag.COMMA) s
  /\ Loops.no_neighbours space_by_mark s.

(** A body of sixty characters. *)
Definition sixty : pystr :=
  lit "IELTS is an English test that many universities ask for now.".

(** A short paragraph, a blank line, and that body. *)
Definition two_paragraphs : pystr :=
  lit "A short note." ++ [NL; NL] ++ sixty.

(** An article with that body and no excerpt. *)
Definition article_sixty : Rag.article :=
  {| Rag.a_title := Rag.PStr (lit "IELTS");
     Rag.a_content := Rag.PStr sixty;
     Rag.a_excerpt := Rag.PNone;
     Rag.a_source_url := lit "https://linkedu.hk/ielts";
     Rag.a_categories := lit "exam";
     Rag.a_headings := [] |}.

(** The one chunk of a text without newline. *)
Definition whole_chunk (title content : pystr) : Rag.chunk :=
  Rag.new_chunk title content 0 0 content.

End Normal.

(* ================================================================== *)
(** * What a record leaves in a batch *)
(* ================================================================== *)

Module Outcome.
Import Rag.

(** The document that a call leaves in [optimized_articles]. *)
Definition document_of (r : result (option document)) : list document :=
  match r with
  | Return (Some d) => [d]
  | _ => []
  end.

(** The line that [logger.error] writes for the record at [position],
    counted from 1, when the call raises [e]. *)
Definition error_line (position : nat) (e : pystr) : pystr :=
  lit "Error optimizing article " ++ Py.str_of_nat position ++ lit ": " ++ e.

Definition entry_of (position : nat) (r : result (option document))
  : list pystr :=
  match r with
  | Raise e => [error_line position e]
  | _ => []
  end.

(** A record whose title is a number. *)
Definition numbered : article :=
  {| a_title := PInt 2024;
     a_content := PStr (lit "Some body text.");
     a_excerpt := PStr [];
     a_source_url := [];
     a_categories := [];
     a_headings := [] |}.

End Outcome.

(* ================================================================== *)
(** * The texts that a pattern matches *)
(* ================================================================== *)

Module Lang.
Import Re.

(** The texts that a pattern can consume, whatever stands around them:
    the assertions [(?<=...)] and [\b] consume nothing. *)
Fixpoint denotes (r : re) (m : pystr) : Prop :=
  match r with
  | Eps => m = []
  | Cls neg items => exists x, m = [x] /\ xorb neg (in_class items x) = true
  | Seq a b => exists m1 m2, m = m1 ++ m2 /\ denotes a m1 /\ denotes b m2
  | Alt a b => denotes a m \/ denotes b m
  | Star a => exists ms, m = concat ms /\ Forall (denotes a) ms
  | Behind _ => m = []
  | WordB _ => m = []
  end.

(** [w] is a piece of [s]. *)
Definition within (w s : pystr) : Prop := exists l r, s = l ++ w ++ r.

(** How often [w] is in a list. *)
Definition occurrences (w : pystr) (l : list pystr) : nat :=
  length (filter (PyStr.eqb w) l).

(** The count that a frequency table has for [w]: [word_freq.get(w, 0)]. *)
Fixpoint freq (w : pystr) (word_freq : list (pystr * nat)) : nat :=
  match word_freq with
  | [] => 0
  | (k, n) :: rest => if PyStr.eqb w k then n else freq w rest
  end.

(** The test of the loop that counts the terms. *)
Definition countable (word : pystr) : bool :=
  negb (PySet.mem word Rag.stopwords) && (1 <? length word).

(** The words of the ten topic patterns. *)
Definition topic_words : list (list pystr) :=
  [ [[0x5927; 0x5b78]; [0x5b78; 0x9662]; [0x5b78; 0x6821]];
    [[0x5b78; 0x79d1]; [0x5c08; 0x696d]; [0x8ab2; 0x7a0b]];
    [[0x5165; 0x5b78]; [0x7533; 0x8acb]; [0x9304; 0x53d6]];
    [[0x5b78; 0x8cbb]; [0x734e; 0x5b78; 0x91d1]; [0x8cc7; 0x52a9]];
    [[0x6d77; 0x5916]; [0x7559; 0x5b78]; [0x904a; 0x5b78]];
    [[0x82f1; 0x570b]; [0x7f8e; 0x570b]; [0x52a0; 0x62ff; 0x5927];
     [0x6fb3; 0x6d32]; [0x65b0; 0x897f; 0x862d]];
    [lit "IELTS"; lit "TOEFL"; lit "SAT"; lit "A-Level"; lit "IB"];
    [[0x78a9; 0x58eb]; [0x5b78; 0x58eb]; [0x535a; 0x58eb]];
    [[0x5347; 0x5b78]; [0x8f49; 0x6821]; [0x929c; 0x63a5]];
    [[0x7c3d; 0x8b49]; [0x79fb; 0x6c11]] ]%Z.

(** The names of the examinations, the seventh pattern. *)
Definition exam_names : list pystr :=
  [lit "IELTS"; lit "TOEFL"; lit "SAT"; lit "A-Level"; lit "IB"].

(** The words of the other nine patterns. *)
Definition chinese_topic_words : list pystr :=
  concat (firstn 6 topic_words ++ skipn 7 topic_words).

(** A capital letter A to Z. *)
Definition capital (c : cp) : bool := in_range 65%Z 90%Z c.

End Lang.

(* ================================================================== *)
(** * Sentences and what the packing loop holds *)
(* ================================================================== *)

Module Sentences.

(** A text that is not empty and has no whitespace at its ends. *)
Definition solid (s : pystr) : Prop := s <> [] /\ strip s = s.

(** The class of the look-behind of [Subjects.sentence_end]. *)
Definition end_mark (c : cp) : bool :=
  Re.in_class [Re.One 46%Z; Re.One 33%Z; Re.One 63%Z] c.

Definition after_end_mark (prev : option cp) : bool :=
  match prev with Some x => end_mark x | None => false end.

Definition ends_unspaced (s : pystr) : Prop := Scan.starts_unspaced (rev s).

(** The texts that the packing loop holds: those of the chunks that it
    has emitted, and its buffer when that is not empty. *)
Definition texts (st : Subjects.packing) : list pystr :=
  map Subjects.content (Subjects.chunks st)
  ++ (if Py.truthy (Subjects.current_chunk st)
      then [Subjects.current_chunk st] else []).

(** The loop with its counter started. *)
Definition packing_start : Subjects.packing :=
  {| Subjects.chunks := []; Subjects.current_chunk := [];
     Subjects.chunk_count := 0 |}.

End Sentences.

(* ================================================================== *)
(** * linkedu_scraper.py (class LinkedUScraper): the topics of a card *)
(* ================================================================== *)

Module Scraper.
Import Re.

(** The class of the separator as the file has it.  The two full-width
    characters of the class are stored as the characters that their UTF-8
    bytes give when read one by one: U+00EF U+00BC U+017D and U+00EF
    U+00BC U+0152; the middle dot is stored as U+00C2 U+00B7. *)
Definition topic_sep_items : list citem :=
  [ One 0xef%Z; One 0xbc%Z; One 0x17d%Z; One 0xc2%Z; One 0xb7%Z; One 0x2c%Z;
    One 0xef%Z; One 0xbc%Z; One 0x152%Z; Esc isspace ].

Definition topic_sep : re := Plus (Cls false topic_sep_items).

Definition _extract_topics (categories : pystr) : list pystr :=
  match categories with
  | [] => []
  | _ =>
      let topics := Re.split topic_sep categories in
      map strip (filter (fun topic => Py.truthy (strip topic)) topics)
  end.

(** A character of the separator class, and of the separator class of
    [Rag._extract_comprehensive_topics]. *)
Definition separates (c : cp) : bool := in_class topic_sep_items c.

Definition separates_category (c : cp) : bool :=
  in_class [One 0xff0e%Z; One 0xb7%Z; One 0x2c%Z; One 0xff0c%Z; Esc isspace] c.

(** [a] in front of the first piece. *)
Definition prepend (a : pystr) (pieces : list pystr) : list pystr :=
  fold_right cons_head pieces a.

End Scraper.

(* ================================================================== *)
(** * The expansions of the searchable text *)
(* ================================================================== *)

Module Expansion.

(** The expansions that a text asks for: those of the entries of
    [Rag.variations] whose term is in the text. *)
Definition expansions (base : pystr) : list pystr :=
  flat_map (fun te : pystr * pystr =>
              if contains (fst te) base then [snd te] else [])
           Rag.variations.

(** No expansion holds the term of a later entry. *)
Fixpoint independent (vs : list (pystr * pystr)) : bool :=
  match vs with
  | [] => true
  | te :: vs' =>
      forallb (fun te' : pystr * pystr => negb (contains (fst te') (snd te))) vs'
      && independent vs'
  end.

(** No term holds a space. *)
Definition unspaced_terms (vs : list (pystr * pystr)) : bool :=
  forallb (fun te : pystr * pystr => negb (existsb (Z.eqb SP) (fst te))) vs.

End Expansion.

(* ================================================================== *)
(** * linkedu_subjects_scraper.py: [optimize_for_rag], all of it *)
(* ================================================================== *)

Module SubjectRag.
Import Subjects.

Record requirement := {
  req_title : pystr;
  req_content : pystr
}.

Record recommended := {
  rec_name : pystr;
  rec_url : pystr;
  rec_description : pystr
}.

(** A row of the ranking table; [rank_url] is [None] when the row has no
    ['url'] key. *)
Record ranking := {
  rank : pystr;
  rank_school : pystr;
  rank_url : option pystr
}.

(** A subject, as [extract_article_content] compiles it. *)
Record subject := {
  s_url : pystr;
  s_chinese_name : pystr;
  s_english_name : pystr;
  s_last_updated : pystr;
  s_author_name : pystr;
  s_author_title : pystr;
  s_content : pystr;
  s_skills_info : pystr;
  s_requirements : list requirement;
  s_recommended_schools : list recommended;
  s_rankings : list ranking
}.

Record metadata := {
  md_subject : pystr;
  md_chinese_name : pystr;
  md_url : pystr;
  md_last_updated : pystr
}.

(** An entry of [rankings_list]. *)
Record ranked := {
  rk_rank : pystr;
  rk_school : pystr;
  rk_url : pystr
}.

(** A chunk of the result: the four entries that every chunk has, the
    ['rankings'] entry of the rankings chunk, and the metadata that the
    last loop adds. *)
Record rag_chunk := {
  body : chunk;
  rankings_of : option (list ranked);
  meta : metadata
}.

Section Lower.

(** [str.lower] *)
Variable py_lower : pystr -> pystr.

(** [name.lower().replace(' ', '_')] *)
Definition slug_of (name : pystr) : pystr := slug (py_lower name).

(** [title.lower().replace(' ', '_')], with the full-width brackets
    U+FF08 and U+FF09 then replaced by nothing *)
Definition req_slug (title : pystr) : pystr :=
  filter (fun c => negb ((c =? 0xff08)%Z || (c =? 0xff09)%Z))
         (slug (py_lower title)).

Definition basic_info (s : subject) : chunk :=
  {| chunk_id := slug_of (s_english_name s) ++ lit "_basic";
     title := s_english_name s ++ lit " (" ++ s_chinese_name s ++ lit ")";
     type := lit "basic_info";
     content :=
       clean_text
         (lit "Subject: " ++ s_english_name s ++ lit " (" ++ s_chinese_name s
          ++ lit "). Last updated: " ++ s_last_updated s
          ++ lit ". Author: " ++ s_author_name s ++ lit ", "
          ++ s_author_title s) |}.

Definition skills (s : subject) : chunk :=
  {| chunk_id := slug_of (s_english_name s) ++ lit "_skills";
     title := s_english_name s ++ lit " - Skills and Requirements";
     type := lit "skills_info";
     content := clean_text (s_skills_info s) |}.

Definition req_chunk (s : subject) (req : requirement) : chunk :=
  {| chunk_id := slug_of (s_english_name s) ++ lit "_" ++ req_slug (req_title req);
     title := req_title req;
     type := lit "requirement";
     content := clean_text (req_content req) |}.

Definition schools_text (s : subject) : pystr :=
  fold_left (fun text school =>
               text ++ rec_name school ++ lit ": "
               ++ clean_text (rec_description school) ++ lit ". ")
            (s_recommended_schools s) (lit "Recommended schools: ").

Definition schools_chunk (s : subject) : chunk :=
  {| chunk_id := slug_of (s_english_name s) ++ lit "_recommended_schools";
     title := s_english_name s ++ lit " - Recommended Schools";
     type := lit "recommended_schools";
     content := strip (schools_text s) |}.

Definition rankings_list (s : subject) : list ranked :=
  map (fun r => {| rk_rank := rank r;
                   rk_school := rank_school r;
                   rk_url := match rank_url r with Some u => u | None => [] end |})
      (s_rankings s).

Definition rankings_text (s : subject) : pystr :=
  fold_left (fun text r =>
               text ++ lit "#" ++ rank r ++ lit ": " ++ rank_school r ++ lit ". ")
            (s_rankings s) (lit "Subject rankings: ").

Definition rankings_chunk (s : subject) : chunk :=
  {| chunk_id := slug_of (s_english_name s) ++ lit "_rankings";
     title := s_english_name s ++ lit " - University Rankings";
     type := lit "rankings";
     content := strip (rankings_text s) |}.

Definition metadata_of (s : subject) : metadata :=
  {| md_subject := s_english_name s;
     md_chinese_name := s_chinese_name s;
     md_url := s_url s;
     md_last_updated := s_last_updated s |}.

(** The chunks of one subject, in the order in which they are appended. *)
Definition plain_chunks (s : subject) : list chunk :=
  [basic_info s]
  ++ (if Py.truthy (s_skills_info s) then [skills s] else [])
  ++ map (req_chunk s) (s_requirements s)
  ++ optimize_for_rag_content (s_english_name s) (py_lower (s_english_name s))
       (s_content s)
  ++ (if Py.truthy (s_recommended_schools s) then [schools_chunk s] else []).

Definition subject_chunks (s : subject) : list rag_chunk :=
  map (fun c => {| body := c; rankings_of := None; meta := metadata_of s |})
      (plain_chunks s)
  ++ (if Py.truthy (s_rankings s)
      then [ {| body := rankings_chunk s;
                rankings_of := Some (rankings_list s);
                meta := metadata_of s |} ]
      else []).

Definition optimize_for_rag (subjects_data : list subject) : list rag_chunk :=
  flat_map subject_chunks subjects_data.

End Lower.

(** The chunks of a kind. *)
Definition of_type (kind : pystr) (cs : list rag_chunk) : list rag_chunk :=
  filter (fun c => PyStr.eqb (type (body c)) kind) cs.

End SubjectRag.

(* ================================================================== *)
(** * Numbers, read back *)
(* ================================================================== *)

Module Numbers.

(** The text of a string of code points below 256. *)
Definition unlit (s : pystr) : string :=
  string_of_list_ascii (map (fun c => ascii_of_N (Z.to_N c)) s).

(** The number that a string of decimal digits writes, leading zeros
    allowed. *)
Definition value (s : pystr) : option nat :=
  option_map Nat.of_uint (NilEmpty.uint_of_string (unlit s)).

(** The identifier of the document made from the record at position [i],
    counted from 0. *)
Definition id_at (i : nat) : pystr := lit "linkedu_" ++ Rag.pad4 (i + 1).

End Numbers.

(* ================================================================== *)
(** * The heading and the content of a part of the body *)
(* ================================================================== *)

Module Heading.
Import Rag.













End Heading.

(* ================================================================== *)
(** * Properties *)
(* ================================================================== *)

Module PyStrFacts.

Lemma eqb_spec (a b : pystr) : reflect (a = b) (eqb a b).
Proof.
  revert b; induction a as [|x a IH]; intros [|y b]; simpl;
    try (constructor; congruence).
  destruct (Z.eqb_spec x y) as [->|N]; simpl.
  - destruct (IH b) as [->|N]; constructor; congruence.
  - constructor; congruence.
Qed.

Lemma eqb_refl (a : pystr) : eqb a a = true.
Proof. destruct (eqb_spec a a); congruence. Qed.

Lemma startswith_spec (p s : pystr) :
  startswith p s = true <-> exists r, s = p ++ r.
Proof.
  revert s; induction p as [|a p IH]; intros s; simpl.
  - split; [eauto | reflexivity].
  - destruct s as [|b s].
    + split; [discriminate | intros [r H]; discriminate].
    + rewrite andb_true_iff, Z.eqb_eq, IH. split.
      * intros [-> [r ->]]. eauto.
      * intros [r H]. inversion H; subst. eauto.
Qed.

Lemma contains_spec (p s : pystr) :
  contains p s = true <-> exists l r, s = l ++ p ++ r.
Proof.
  induction s as [|x s IH]; simpl.
  - rewrite orb_false_r, startswith_spec. split.
    + intros [r H]. exists [], r. exact H.
    + intros [l [r H]]. destruct l; simpl in H.
      * eauto.
      * discriminate.
  - rewrite orb_true_iff, startswith_spec, IH. split.
    + intros [[r H] | [l [r H]]].
      * exists [], r. exact H.
      * exists (x :: l), r. simpl. congruence.
    + intros [[|y l] [r H]]; simpl in H.
      * left. eauto.
      * right. inversion H. eauto.
Qed.

Lemma contains_trans (a b c : pystr) :
  contains a b = true -> contains b c = true -> contains a c = true.
Proof.
  rewrite !contains_spec. intros [l1 [r1 ->]] [l2 [r2 ->]].
  exists (l2 ++ l1), (r1 ++ r2). now rewrite <- !app_assoc.
Qed.

Lemma contains_app (p l r : pystr) :
  contains p (l ++ p ++ r) = true.
Proof. apply contains_spec. eauto. Qed.

Lemma dropWhile_length (p : cp -> bool) (s : pystr) :
  length (dropWhile p s) <= length s.
Proof.
  induction s as [|x s IH]; simpl; [lia|].
  destruct (p x); simpl; lia.
Qed.

Lemma strip_length (s : pystr) : length (strip s) <= length s.
Proof.
  unfold strip, rstrip, lstrip. rewrite length_rev.
  etransitivity; [apply dropWhile_length|]. rewrite length_rev.
  apply dropWhile_length.
Qed.

(** [str.split] never reaches the bound on its rounds. *)
Lemma str_split_enough (sep : pystr) (n m : nat) (s : pystr) :
  sep <> [] -> length s <= n -> length s <= m ->
  PyStr.split_loop sep n s = PyStr.split_loop sep m s.
Proof.
  intros Hsep. revert m s; induction n as [|n IH]; intros m s Hn Hm.
  - destruct s; [|simpl in Hn; lia]. destruct m; reflexivity.
  - destruct s as [|x s]; [destruct m; reflexivity|].
    destruct m as [|m]; [simpl in Hm; lia|]. cbn [PyStr.split_loop].
    simpl in Hn, Hm. destruct (startswith sep (x :: s)).
    + f_equal. destruct sep as [|c sep]; [congruence|]. cbn [length skipn].
      pose proof (length_skipn (length sep) s). apply IH; lia.
    + f_equal. apply IH; lia.
Qed.

End PyStrFacts.
Import PyStrFacts.

(* ------------------------------------------------------------------ *)
(** ** Sorting and sets *)
(* ------------------------------------------------------------------ *)

Module PyFacts.

Section Sort.

Variable A : Type.
Variable le : A -> A -> bool.
Hypothesis le_total : forall x y, le x y = true \/ le y x = true.
Hypothesis le_trans : forall x y z, le x y = true -> le y z = true -> le x z = true.
Hypothesis le_antisym : forall x y, le x y = true -> le y x = true -> x = y.

Local Abbreviation R := (fun x y => le x y = true).

Lemma insert_perm (x : A) (l : list A) : Permutation (Py.insert le x l) (x :: l).
Proof.
  induction l as [|y l IH]; simpl; [apply Permutation_refl|].
  destruct (le x y); [apply Permutation_refl|].
  eapply perm_trans; [apply perm_skip, IH | apply perm_swap].
Qed.

Lemma sort_perm (l : list A) : Permutation (Py.sort_stable le l) l.
Proof.
  induction l as [|x l IH]; simpl; [constructor|].
  eapply perm_trans; [apply insert_perm | now apply perm_skip].
Qed.

Lemma insert_sorted (x : A) (l : list A) :
  StronglySorted R l -> StronglySorted R (Py.insert le x l).
Proof.
  induction l as [|y l IH]; simpl; intros H.
  - repeat constructor.
  - inversion H as [|y' l' Hs Hf]; subst.
    destruct (le x y) eqn:E.
    + constructor; [exact H|]. constructor; [exact E|].
      eapply Forall_impl; [|exact Hf]. intros z Hz. simpl in *. eauto.
    + constructor; [now apply IH|].
      apply Forall_forall. intros z Hz.
      apply (Permutation_in _ (insert_perm x l)) in Hz.
      destruct Hz as [<- | Hz].
      * destruct (le_total x y) as [C|C]; [congruence | exact C].
      * rewrite Forall_forall in Hf. now apply Hf.
Qed.

Lemma sort_sorted (l : list A) : StronglySorted R (Py.sort_stable le l).
Proof.
  induction l as [|x l IH]; simpl; [constructor | now apply insert_sorted].
Qed.

Lemma sorted_unique (l1 l2 : list A) :
  StronglySorted R l1 -> StronglySorted R l2 -> Permutation l1 l2 -> l1 = l2.
Proof.
  revert l2; induction l1 as [|x l1 IH]; intros l2 H1 H2 P.
  - apply Permutation_nil in P. now subst.
  - destruct l2 as [|y l2];
      [apply Permutation_sym, Permutation_nil in P; discriminate|].
    inversion H1 as [|? ? S1 F1]; inversion H2 as [|? ? S2 F2]; subst.
    rewrite Forall_forall in F1, F2.
    assert (x = y).
    { assert (Hx : In x (y :: l2)) by (eapply Permutation_in; [exact P | now left]).
      assert (Hy : In y (x :: l1))
        by (eapply Permutation_in; [apply Permutation_sym, P | now left]).
      destruct Hx as [->|Hx]; [reflexivity|].
      destruct Hy as [->|Hy]; [reflexivity|].
      apply le_antisym; [now apply F1 | now apply F2]. }
    subst y. f_equal. apply IH; auto.
    eapply Permutation_cons_inv; exact P.
Qed.

(** Sorting forgets the order of what it is given. *)
Lemma sort_of_permutation (l1 l2 : list A) :
  Permutation l1 l2 -> Py.sort_stable le l1 = Py.sort_stable le l2.
Proof.
  intros P. apply sorted_unique; try apply sort_sorted.
  eapply perm_trans; [apply sort_perm|].
  eapply perm_trans; [exact P | apply Permutation_sym, sort_perm].
Qed.

End Sort.

Lemma leb_total (a b : pystr) : PyStr.leb a b = true \/ PyStr.leb b a = true.
Proof.
  revert b; induction a as [|x a IH]; intros [|y b]; simpl; auto.
  destruct (Z.ltb_spec x y), (Z.ltb_spec y x), (Z.eqb_spec x y), (Z.eqb_spec y x);
    simpl; auto; try lia.
Qed.

Lemma leb_trans (a b c : pystr) :
  PyStr.leb a b = true -> PyStr.leb b c = true -> PyStr.leb a c = true.
Proof.
  revert b c; induction a as [|x a IH]; intros [|y b] [|z c]; simpl; auto;
    try discriminate.
  destruct (Z.ltb_spec x y), (Z.ltb_spec y z), (Z.ltb_spec x z),
           (Z.eqb_spec x y), (Z.eqb_spec y z), (Z.eqb_spec x z);
    simpl; auto; try lia; try discriminate.
  intros. eapply IH; eauto.
Qed.

Lemma leb_antisym (a b : pystr) :
  PyStr.leb a b = true -> PyStr.leb b a = true -> a = b.
Proof.
  revert b; induction a as [|x a IH]; intros [|y b]; simpl; auto;
    try discriminate.
  destruct (Z.ltb_spec x y), (Z.ltb_spec y x), (Z.eqb_spec x y), (Z.eqb_spec y x);
    simpl; try lia; try discriminate.
  intros. subst. f_equal. auto.
Qed.

(** [sorted] gives the same list for every order of the same elements. *)
Lemma sorted_of_permutation (l1 l2 : list pystr) :
  Permutation l1 l2 -> Py.sorted l1 = Py.sorted l2.
Proof.
  apply sort_of_permutation;
    [apply leb_total | apply leb_trans | apply leb_antisym].
Qed.

Lemma sorted_length (l : list pystr) : length (Py.sorted l) = length l.
Proof. apply Permutation_length, sort_perm. Qed.

Lemma mem_spec (x : pystr) (l : list pystr) : PySet.mem x l = true <-> In x l.
Proof.
  unfold PySet.mem. rewrite existsb_exists. split.
  - intros [y [Hy E]]. destruct (PyStrFacts.eqb_spec x y); [now subst | discriminate].
  - intros H. exists x. split; [exact H | apply eqb_refl].
Qed.

Lemma add_in (x y : pystr) (l : list pystr) :
  In y (PySet.add x l) <-> y = x \/ In y l.
Proof.
  unfold PySet.add. destruct (PySet.mem x l) eqn:E.
  - apply mem_spec in E. split; [auto | intros [->|H]; auto].
  - rewrite in_app_iff. simpl. intuition.
Qed.

Lemma add_nodup (x : pystr) (l : list pystr) : NoDup l -> NoDup (PySet.add x l).
Proof.
  intros H. unfold PySet.add. destruct (PySet.mem x l) eqn:E; [exact H|].
  apply NoDup_app; [exact H | repeat constructor; auto |].
  intros y Hy [<-|[]]. apply mem_spec in Hy. congruence.
Qed.

Lemma add_length (x : pystr) (l : list pystr) :
  length (PySet.add x l) <= S (length l).
Proof.
  unfold PySet.add. destruct (PySet.mem x l); [lia|].
  rewrite length_app. simpl. lia.
Qed.

Lemma update_in (y : pystr) (xs s : list pystr) :
  In y (PySet.update s xs) <-> In y s \/ In y xs.
Proof.
  unfold PySet.update. revert s; induction xs as [|x xs IH]; intros s; simpl.
  - tauto.
  - rewrite IH, add_in. intuition.
Qed.

Lemma update_nodup (xs s : list pystr) : NoDup s -> NoDup (PySet.update s xs).
Proof.
  unfold PySet.update. revert s; induction xs as [|x xs IH]; intros s H; simpl;
    [exact H|]. apply IH. now apply add_nodup.
Qed.

Lemma update_length (xs s : list pystr) :
  length (PySet.update s xs) <= length s + length xs.
Proof.
  unfold PySet.update. revert s; induction xs as [|x xs IH]; intros s; simpl;
    [lia|]. specialize (IH (PySet.add x s)). pose proof (add_length x s). lia.
Qed.

(** A set does not depend on the order in which its elements arrive,
    but for the order of its own elements. *)
Lemma of_list_permutation (l1 l2 : list pystr) :
  Permutation l1 l2 -> Permutation (PySet.of_list l1) (PySet.of_list l2).
Proof.
  intros P. unfold PySet.of_list.
  apply NoDup_Permutation; try (apply update_nodup; constructor).
  intros x. rewrite !update_in. split; intros [[]|H]; right.
  - eapply Permutation_in; eauto.
  - eapply Permutation_in; [apply Permutation_sym|]; eauto.
Qed.

Lemma valid_as_listed : PySet.valid_order PySet.as_listed.
Proof. intros l. apply Permutation_refl. Qed.

Lemma valid_reversed : PySet.valid_order PySet.reversed.
Proof. intros l. apply Permutation_sym, Permutation_rev. Qed.

Lemma orders_agree (o1 o2 : PySet.order) (l1 l2 : list pystr) :
  PySet.valid_order o1 -> PySet.valid_order o2 ->
  Permutation l1 l2 -> Permutation (o1 l1) (o2 l2).
Proof.
  intros V1 V2 P. eapply perm_trans; [apply V1|].
  eapply perm_trans; [exact P | apply Permutation_sym, V2].
Qed.

End PyFacts.
Import PyFacts.


(* ------------------------------------------------------------------ *)
(** ** The matcher on the patterns of the normalizer *)
(* ------------------------------------------------------------------ *)

Module ReFacts.
Import Re Scan.

(** The test that a match has consumed something, when it has. *)
Ltac consumed :=
  match goal with
  | |- context [?a <? ?b] =>
      replace (a <? b) with true by (symmetry; apply Nat.ltb_lt; simpl; lia)
  end.

(** The loop of [sub] follows [gsub] when the matcher agrees with the
    step. *)
Lemma sub_loop_gsub (r : re) (repl : pystr) (step : pystr -> option pystr) :
  (forall prev s, option_map snd (first_match r prev s) = step s) ->
  forall n prev s, sub_loop r repl n prev s = gsub step repl n s.
Proof.
  intros H. induction n as [|n IH]; intros prev s; simpl; [reflexivity|].
  specialize (H prev s).
  destruct (first_match r prev s) as [[p' rest]|]; simpl in H; rewrite <- H.
  - simpl. now rewrite IH.
  - destruct s as [|x s']; [reflexivity|]. now rewrite IH.
Qed.

Lemma star_loop_S (m : option cp -> pystr -> list pos) (n : nat)
  (prev : option cp) (s : pystr) :
  star_loop m (S n) prev s
  = flat_map (fun st : pos =>
                if length (snd st) <? length s
                then star_loop m n (fst st) (snd st) else [])
             (m prev s)
    ++ [(prev, s)].
Proof. reflexivity. Qed.

Lemma rmatch_cls_cons (neg : bool) (items : list citem) (prev : option cp)
  (x : cp) (s : pystr) :
  rmatch (Cls neg items) prev (x :: s)
  = if xorb neg (in_class items x) then [(Some x, s)] else [].
Proof. reflexivity. Qed.

(** *** The bound on the number of rounds is never reached *)

Lemma first_match_shorter (r : re) (prev : option cp) (s : pystr) (st : pos) :
  first_match r prev s = Some st -> length (snd st) < length s.
Proof.
  unfold first_match. destruct (rmatch r prev s) as [|st' l]; [discriminate|].
  destruct (Nat.ltb_spec (length (snd st')) (length s)); [|discriminate].
  now intros [= <-].
Qed.

Lemma first_match_nil (r : re) (prev : option cp) : first_match r prev [] = None.
Proof.
  destruct (first_match r prev []) as [st|] eqn:E; [|reflexivity].
  apply first_match_shorter in E. simpl in E. lia.
Qed.

Lemma sub_loop_enough (r : re) (repl : pystr) (n m : nat) (prev : option cp)
  (s : pystr) :
  length s < n -> length s < m ->
  sub_loop r repl n prev s = sub_loop r repl m prev s.
Proof.
  revert m prev s; induction n as [|n IH]; intros m prev s Hn Hm; [lia|].
  destruct m as [|m]; [lia|]. cbn [sub_loop].
  destruct (first_match r prev s) as [st|] eqn:E.
  - apply first_match_shorter in E. f_equal. apply IH; lia.
  - destruct s as [|x s]; [reflexivity|]. simpl in Hn, Hm.
    f_equal. apply IH; lia.
Qed.

Lemma findall_loop_enough (r : re) (n m : nat) (prev : option cp) (s : pystr) :
  length s < n -> length s < m ->
  findall_loop r n prev s = findall_loop r m prev s.
Proof.
  revert m prev s; induction n as [|n IH]; intros m prev s Hn Hm; [lia|].
  destruct m as [|m]; [lia|]. cbn [findall_loop].
  destruct (first_match r prev s) as [st|] eqn:E.
  - apply first_match_shorter in E. f_equal. apply IH; lia.
  - destruct s as [|x s]; [reflexivity|]. simpl in Hn, Hm. apply IH; lia.
Qed.

Lemma split_loop_enough (r : re) (n m : nat) (prev : option cp) (s : pystr) :
  length s < n -> length s < m ->
  split_loop r n prev s = split_loop r m prev s.
Proof.
  revert m prev s; induction n as [|n IH]; intros m prev s Hn Hm; [lia|].
  destruct m as [|m]; [lia|]. cbn [split_loop].
  destruct (first_match r prev s) as [st|] eqn:E.
  - apply first_match_shorter in E. f_equal. apply IH; lia.
  - destruct s as [|x s]; [reflexivity|]. simpl in Hn, Hm.
    f_equal. apply IH; lia.
Qed.

Lemma star_loop_enough (mt : option cp -> pystr -> list pos) (n m : nat)
  (prev : option cp) (s : pystr) :
  length s < n -> length s < m ->
  star_loop mt n prev s = star_loop mt m prev s.
Proof.
  revert m prev s; induction n as [|n IH]; intros m prev s Hn Hm; [lia|].
  destruct m as [|m]; [lia|]. rewrite !star_loop_S. f_equal.
  apply flat_map_ext. intros [p t]. cbn [fst snd].
  destruct (Nat.ltb_spec (length t) (length s)); [|reflexivity].
  apply IH; lia.
Qed.

Section ClassStar.

Variable neg : bool.
Variable items : list citem.

Local Abbreviation q := (fun x => xorb neg (in_class items x)).

(** A starred class takes the longest run first; every other way to
    match stops in front of a character of the class. *)
Lemma star_class (n : nat) (prev : option cp) (s : pystr) :
  length s < n ->
  exists p' others,
    star_loop (rmatch (Cls neg items)) n prev s = (p', dropWhile q s) :: others
    /\ Forall (fun st : pos => exists x t, snd st = x :: t /\ q x = true) others.
Proof.
  revert prev s; induction n as [|n IH]; intros prev s Hn; [lia|].
  destruct s as [|x s'].
  - exists prev, []. split; [reflexivity | constructor].
  - rewrite star_loop_S, rmatch_cls_cons. cbn [dropWhile].
    destruct (xorb neg (in_class items x)) eqn:E.
    + cbn [flat_map fst snd]. simpl in Hn.
      consumed.
      destruct (IH (Some x) s' ltac:(lia)) as [p' [others [Hs Ho]]].
      rewrite Hs. exists p', (others ++ [(prev, x :: s')]).
      split; [now rewrite app_nil_r|].
      apply Forall_app. split; [exact Ho|].
      constructor; [|constructor]. exists x, s'. auto.
    + exists prev, []. split; [reflexivity | constructor].
Qed.

Lemma rmatch_star_class (prev : option cp) (s : pystr) :
  exists p' others,
    rmatch (Star (Cls neg items)) prev s = (p', dropWhile q s) :: others
    /\ Forall (fun st : pos => exists x t, snd st = x :: t /\ q x = true) others.
Proof. apply star_class. lia. Qed.

End ClassStar.

Lemma rmatch_seq (a b : re) (prev : option cp) (s : pystr) :
  rmatch (Seq a b) prev s
  = flat_map (fun st : pos => rmatch b (fst st) (snd st)) (rmatch a prev s).
Proof. reflexivity. Qed.

Lemma rmatch_nil (neg : bool) (items : list citem) (prev : option cp) :
  rmatch (Cls neg items) prev [] = [].
Proof. reflexivity. Qed.

Lemma ws_class (x : cp) : xorb false (in_class [Esc isspace] x) = isspace x.
Proof. simpl. now rewrite orb_false_r. Qed.

Lemma dropWhile_ws_class (s : pystr) :
  dropWhile (fun x => xorb false (in_class [Esc isspace] x)) s
  = dropWhile isspace s.
Proof.
  induction s as [|y s IH]; cbn [dropWhile]; [reflexivity|].
  rewrite ws_class, IH. reflexivity.
Qed.

Lemma rmatch_star_ws (prev : option cp) (s : pystr) :
  exists p' others,
    rmatch (Star ws) prev s = (p', dropWhile isspace s) :: others
    /\ Forall (fun st : pos => exists x t, snd st = x :: t /\ isspace x = true)
              others.
Proof.
  destruct (rmatch_star_class false [Esc isspace] prev s)
    as [p' [others [Hs Ho]]].
  exists p', others. unfold ws. rewrite Hs, dropWhile_ws_class.
  split; [reflexivity|].
  eapply Forall_impl; [|exact Ho]. intros st [x [t [H1 H2]]].
  exists x, t. now rewrite ws_class in H2.
Qed.

(** [\s+] *)
Lemma first_match_ws_run (prev : option cp) (s : pystr) :
  option_map snd (first_match (Plus ws) prev s) = ws_run s.
Proof.
  unfold first_match, Plus. rewrite rmatch_seq.
  destruct s as [|x s']; [reflexivity|].
  unfold ws at 2. rewrite rmatch_cls_cons, ws_class. cbn [ws_run].
  destruct (isspace x) eqn:E; [|reflexivity].
  cbn [flat_map fst snd]. rewrite app_nil_r.
  destruct (rmatch_star_ws (Some x) s') as [p' [others [Hs _]]].
  rewrite Hs. cbn [snd].
  pose proof (dropWhile_length isspace s').
  consumed.
  reflexivity.
Qed.

(** A negated or plain class, alone. *)
Lemma first_match_one_of (neg : bool) (items : list citem) (prev : option cp)
  (s : pystr) :
  option_map snd (first_match (Cls neg items) prev s)
  = one_of (fun x => xorb neg (in_class items x)) s.
Proof.
  unfold first_match. destruct s as [|x s']; [reflexivity|].
  cbn [rmatch one_of]. destruct (xorb neg (in_class items x)); [|reflexivity].
  cbn [snd]. consumed.
  reflexivity.
Qed.

Lemma mark_not_space (c : cp) : ismark c = true -> isspace c = false.
Proof.
  unfold ismark, Rag.cjk_marks, in_class. cbn [existsb citem_mem].
  rewrite !orb_true_iff, !Z.eqb_eq.
  intros [->|[->|[->|[->|[->|[->|H]]]]]]; try reflexivity. discriminate.
Qed.

Lemma space_not_mark (c : cp) : isspace c = true -> ismark c = false.
Proof.
  intros H. destruct (ismark c) eqn:E; [|reflexivity].
  apply mark_not_space in E. congruence.
Qed.

(** [\s*[marks]\s*]: the whitespace in front is taken whole, or the mark
    is not found. *)
Lemma first_match_mark_run (prev : option cp) (s : pystr) :
  option_map snd (first_match Rag.mark_spaced prev s) = mark_run s.
Proof.
  unfold first_match, Rag.mark_spaced. rewrite rmatch_seq.
  destruct (rmatch_star_ws prev s) as [p' [others [Hs Ho]]].
  rewrite Hs. cbn [flat_map fst snd].
  set (k := fun st : pos =>
              rmatch (Seq (Cls false Rag.cjk_marks) (Star ws)) (fst st) (snd st)).
  (* the other ways to match the whitespace stop in front of whitespace *)
  assert (Hnil : flat_map k others = []).
  { clear Hs. induction others as [|st others IH]; [reflexivity|].
    inversion Ho as [|? ? [x [t [Hst Hx]]] Ho']; subst.
    cbn [flat_map]. rewrite (IH Ho'), app_nil_r.
    unfold k. rewrite rmatch_seq, Hst, rmatch_cls_cons. cbn [xorb].
    change (in_class Rag.cjk_marks x) with (ismark x).
    now rewrite (space_not_mark _ Hx). }
  rewrite Hnil, app_nil_r. rewrite rmatch_seq. unfold mark_run.
  destruct (dropWhile isspace s) as [|c t] eqn:Ed.
  - rewrite rmatch_nil. reflexivity.
  - rewrite rmatch_cls_cons. cbn [xorb].
    change (in_class Rag.cjk_marks c) with (ismark c).
    destruct (ismark c) eqn:Em; [|reflexivity].
    cbn [flat_map fst snd]. rewrite app_nil_r.
    destruct (rmatch_star_ws (Some c) t) as [p2 [others2 [Hs2 _]]].
    rewrite Hs2. cbn [snd].
    pose proof (dropWhile_length isspace t).
    pose proof (dropWhile_length isspace s) as Hl. rewrite Ed in Hl. simpl in Hl.
    consumed.
    reflexivity.
Qed.

End ReFacts.

(* ------------------------------------------------------------------ *)
(** ** The text normalizer *)
(* ------------------------------------------------------------------ *)

Module CleanFacts.
Import Re Scan ReFacts.

(** *** Stripping *)

Lemma dropWhile_suffix (p : cp -> bool) (s : pystr) :
  exists l, s = l ++ dropWhile p s.
Proof.
  induction s as [|x s [l IH]]; [exists []; reflexivity|]. simpl.
  destruct (p x).
  - exists (x :: l). simpl. now rewrite <- IH.
  - exists []. reflexivity.
Qed.

Lemma dropWhile_starts (s : pystr) : starts_unspaced (dropWhile isspace s).
Proof.
  induction s as [|x s IH]; simpl; [exact I|].
  destruct (isspace x) eqn:E; [exact IH | exact E].
Qed.

Lemma dropWhile_unspaced (s : pystr) :
  starts_unspaced s -> dropWhile isspace s = s.
Proof. destruct s as [|x s]; simpl; [reflexivity|]. now intros ->. Qed.

Lemma dropWhile_snoc (x : cp) (l : pystr) :
  isspace x = false -> exists l', dropWhile isspace (l ++ [x]) = l' ++ [x].
Proof.
  intros Hx. induction l as [|y l [l' IH]]; simpl.
  - rewrite Hx. exists []. reflexivity.
  - destruct (isspace y); [eauto | exists (y :: l); reflexivity].
Qed.

Lemma rstrip_prefix (s : pystr) : exists r, s = rstrip s ++ r.
Proof.
  unfold rstrip. destruct (dropWhile_suffix isspace (rev s)) as [l H].
  exists (rev l). rewrite <- rev_app_distr, <- H. now rewrite rev_involutive.
Qed.

Lemma rstrip_starts (s : pystr) : starts_unspaced s -> starts_unspaced (rstrip s).
Proof.
  destruct s as [|x s]; [intros _; exact I|]. simpl. intros Hx.
  unfold rstrip. simpl.
  destruct (dropWhile_snoc x (rev s) Hx) as [l' ->].
  rewrite rev_app_distr. simpl. exact Hx.
Qed.

Lemma rstrip_idem (s : pystr) : rstrip (rstrip s) = rstrip s.
Proof.
  unfold rstrip. rewrite rev_involutive.
  now rewrite (dropWhile_unspaced _ (dropWhile_starts (rev s))).
Qed.

Lemma strip_idem (s : pystr) : strip (strip s) = strip s.
Proof.
  unfold strip, lstrip.
  rewrite (dropWhile_unspaced (rstrip (dropWhile isspace s)))
    by apply rstrip_starts, dropWhile_starts.
  apply rstrip_idem.
Qed.

Lemma strip_sub (s : pystr) : exists l r, s = l ++ strip s ++ r.
Proof.
  unfold strip, lstrip. destruct (dropWhile_suffix isspace s) as [l Hl].
  destruct (rstrip_prefix (dropWhile isspace s)) as [r Hr].
  exists l, r. now rewrite <- Hr.
Qed.

Lemma strip_Forall (P : cp -> Prop) (s : pystr) :
  Forall P s -> Forall P (strip s).
Proof.
  destruct (strip_sub s) as [l [r H]]. intros F. rewrite H in F.
  apply Forall_app in F. destruct F as [_ F].
  apply Forall_app in F. tauto.
Qed.

(** *** Chains *)

Lemma neat_start (b : cp) : neat None b = true.
Proof. unfold neat, tight, single. simpl. now rewrite andb_false_r. Qed.

Lemma chain_restart (prev : option cp) (s : pystr) :
  chain neat prev s = true -> chain neat None s = true.
Proof.
  destruct s as [|b s]; [reflexivity|]. simpl.
  rewrite neat_start, !andb_true_iff. tauto.
Qed.

Lemma chain_app (R : option cp -> cp -> bool) (prev : option cp) (l m : pystr) :
  chain R prev (l ++ m) = true ->
  chain R prev l = true /\ exists p, chain R p m = true.
Proof.
  revert prev; induction l as [|x l IH]; intros prev; simpl.
  - eauto.
  - rewrite !andb_true_iff. intros [H1 H2].
    destruct (IH _ H2) as [H3 H4]. auto.
Qed.

Lemma strip_chain (s : pystr) :
  chain neat None s = true -> chain neat None (strip s) = true.
Proof.
  destruct (strip_sub s) as [l [r H]]. intros C. rewrite H in C.
  apply chain_app in C. destruct C as [_ [p C]].
  apply chain_app in C. destruct C as [C _].
  eapply chain_restart; eauto.
Qed.

Lemma chain_neat_split (prev : option cp) (s : pystr) :
  chain neat prev s = true ->
  chain tight prev s = true /\ chain single prev s = true.
Proof.
  revert prev; induction s as [|b s IH]; intros prev; simpl; [auto|].
  unfold neat at 1. rewrite !andb_true_iff. intros [[H1 H2] H3].
  destruct (IH _ H3). auto.
Qed.

(** *** What each substitution keeps *)

Lemma Forall_dropWhile (P : cp -> Prop) (p : cp -> bool) (s : pystr) :
  Forall P s -> Forall P (dropWhile p s).
Proof.
  destruct (dropWhile_suffix p s) as [l H]. intros F. rewrite H in F.
  apply Forall_app in F. tauto.
Qed.

Lemma gsub_Forall (P : cp -> Prop) (step : pystr -> option pystr)
  (repl : pystr) :
  (forall s rest, step s = Some rest -> Forall P s -> Forall P rest) ->
  Forall P repl ->
  forall n s, Forall P s -> Forall P (gsub step repl n s).
Proof.
  intros Hstep Hrepl. induction n as [|n IH]; intros s F; simpl; [exact F|].
  destruct (step s) as [rest|] eqn:E.
  - apply Forall_app. split; [exact Hrepl|]. apply IH. eapply Hstep; eauto.
  - destruct s as [|x s]; [constructor|].
    inversion F; subst. constructor; auto.
Qed.

Lemma ws_run_Forall (P : cp -> Prop) (s rest : pystr) :
  ws_run s = Some rest -> Forall P s -> Forall P rest.
Proof.
  destruct s as [|x s]; [discriminate|]. simpl.
  destruct (isspace x); [|discriminate]. intros [= <-] F.
  inversion F; subst. now apply Forall_dropWhile.
Qed.

Lemma one_of_Forall (P : cp -> Prop) (p : cp -> bool) (s rest : pystr) :
  one_of p s = Some rest -> Forall P s -> Forall P rest.
Proof.
  destruct s as [|x s]; [discriminate|]. simpl.
  destruct (p x); [|discriminate]. intros [= <-] F. now inversion F.
Qed.

Lemma mark_run_Forall (P : cp -> Prop) (s rest : pystr) :
  mark_run s = Some rest -> Forall P s -> Forall P rest.
Proof.
  unfold mark_run. intros H F.
  apply (Forall_dropWhile P isspace) in F.
  destruct (dropWhile isspace s) as [|c t]; [discriminate|].
  destruct (ismark c); [|discriminate]. injection H as <-.
  inversion F; subst. now apply Forall_dropWhile.
Qed.

Lemma ws_run_length (s rest : pystr) :
  ws_run s = Some rest -> length rest < length s.
Proof.
  destruct s as [|x s]; [discriminate|]. simpl.
  destruct (isspace x); [|discriminate]. intros [= <-].
  pose proof (dropWhile_length isspace s). lia.
Qed.

Lemma mark_run_length (s rest : pystr) :
  mark_run s = Some rest -> length rest < length s.
Proof.
  unfold mark_run. intros H.
  pose proof (dropWhile_length isspace s) as L.
  destruct (dropWhile isspace s) as [|c t]; [discriminate|].
  destruct (ismark c); [|discriminate]. injection H as <-.
  pose proof (dropWhile_length isspace t). simpl in L. lia.
Qed.

Lemma space_SP : isspace SP = true.
Proof. reflexivity. Qed.

Lemma mark_SP : ismark SP = false.
Proof. reflexivity. Qed.

Lemma space_COMMA : isspace Rag.COMMA = false.
Proof. reflexivity. Qed.

Lemma mark_COMMA : ismark Rag.COMMA = true.
Proof. reflexivity. Qed.

(** Whitespace runs, collapsed. *)
Lemma collapse_plain (n : nat) (s : pystr) :
  length s < n -> plain (gsub ws_run [SP] n s).
Proof.
  revert s; induction n as [|n IH]; intros s Hn; [lia|]. simpl.
  destruct (ws_run s) as [rest|] eqn:E.
  - constructor; [reflexivity|]. apply IH.
    pose proof (ws_run_length _ _ E). lia.
  - destruct s as [|x s]; [constructor|]. simpl in E, Hn.
    destruct (isspace x) eqn:Ex; [discriminate|].
    constructor; [congruence|]. apply IH. lia.
Qed.

Lemma collapse_id (n : nat) (prev : option cp) (s : pystr) :
  plain s -> chain single prev s = true -> gsub ws_run [SP] n s = s.
Proof.
  revert prev s; induction n as [|n IH]; intros prev s P C; [reflexivity|].
  destruct s as [|x s]; [reflexivity|].
  inversion P as [|? ? Px Ps]; subst. simpl in C.
  apply andb_true_iff in C. destruct C as [_ C].
  cbn [gsub ws_run]. destruct (isspace x) eqn:Ex.
  - rewrite (Px eq_refl).
    assert (U : starts_unspaced s).
    { destruct s as [|y s]; [exact I|]. simpl in C |- *.
      apply andb_true_iff in C. destruct C as [C _].
      unfold single in C. simpl in C. rewrite Ex, andb_true_r in C.
      now destruct (isspace y). }
    rewrite (dropWhile_unspaced _ U). simpl. f_equal. eapply IH; eauto.
  - f_equal. eapply IH; eauto.
Qed.

(** The marks, normalized. *)
Lemma norm_marks (n : nat) (s : pystr) :
  length s < n -> marks_comma (gsub mark_run [Rag.COMMA] n s).
Proof.
  revert s; induction n as [|n IH]; intros s Hn; [lia|]. simpl.
  destruct (mark_run s) as [rest|] eqn:E.
  - constructor; [reflexivity|]. apply IH.
    pose proof (mark_run_length _ _ E). lia.
  - destruct s as [|x s]; [constructor|]. simpl in Hn.
    constructor; [|apply IH; lia].
    intros Hm. exfalso. unfold mark_run in E. simpl in E.
    rewrite (mark_not_space _ Hm), Hm in E. discriminate.
Qed.

Lemma mark_run_skip (x : cp) (s : pystr) :
  isspace x = true -> mark_run (x :: s) = mark_run s.
Proof. intros H. unfold mark_run. simpl. now rewrite H. Qed.

Lemma norm_tight (n : nat) (prev : option cp) (s : pystr) :
  length s < n ->
  (space_before prev = true -> mark_run s = None) ->
  (mark_before prev = true -> starts_unspaced s) ->
  chain tight prev (gsub mark_run [Rag.COMMA] n s) = true.
Proof.
  revert prev s; induction n as [|n IH]; intros prev s Hn H1 H2; [lia|].
  cbn [gsub]. destruct (mark_run s) as [rest|] eqn:E.
  - cbn [app chain]. apply andb_true_iff. split.
    + unfold tight. rewrite space_COMMA, mark_COMMA, andb_false_r, andb_true_r.
      destruct (space_before prev); [|reflexivity].
      specialize (H1 eq_refl). discriminate.
    + apply IH.
      * pose proof (mark_run_length _ _ E). lia.
      * simpl. rewrite space_COMMA. discriminate.
      * intros _. unfold mark_run in E.
        destruct (dropWhile isspace s) as [|c t]; [discriminate|].
        destruct (ismark c); [|discriminate]. injection E as <-.
        apply dropWhile_starts.
  - destruct s as [|x s]; [reflexivity|]. simpl in Hn.
    assert (Hx : ismark x = false).
    { destruct (ismark x) eqn:Hm; [|reflexivity].
      unfold mark_run in E. simpl in E.
      rewrite (mark_not_space _ Hm), Hm in E. discriminate. }
    cbn [chain]. apply andb_true_iff. split.
    + unfold tight. rewrite Hx, andb_false_r. simpl.
      destruct (mark_before prev); [|reflexivity].
      simpl. specialize (H2 eq_refl). simpl in H2. now rewrite H2.
    + apply IH; [lia| |].
      * simpl. intros Hs. now rewrite <- (mark_run_skip x s Hs).
      * simpl. rewrite Hx. discriminate.
Qed.

Lemma norm_id (n : nat) (prev : option cp) (s : pystr) :
  marks_comma s -> chain neat prev s = true ->
  gsub mark_run [Rag.COMMA] n s = s.
Proof.
  revert prev s; induction n as [|n IH]; intros prev s M C; [reflexivity|].
  destruct s as [|x s]; [reflexivity|].
  inversion M as [|? ? Mx Ms]; subst. simpl in C.
  apply andb_true_iff in C. destruct C as [_ C].
  assert (Hnext : match s with
                  | y :: _ => (isspace x = true -> isspace y = false /\ ismark y = false)
                              /\ (ismark x = true -> isspace y = false)
                  | [] => True
                  end).
  { destruct s as [|y s]; [exact I|]. simpl in C.
    apply andb_true_iff in C. destruct C as [C _].
    unfold neat, tight, single in C. simpl in C.
    destruct (isspace x), (ismark x), (isspace y), (ismark y);
      simpl in C; try discriminate; split; intros; auto; discriminate. }
  cbn [gsub]. unfold mark_run. cbn [dropWhile].
  destruct (isspace x) eqn:Ex.
  - assert (E : match dropWhile isspace s with
                | c :: t => if ismark c then Some (dropWhile isspace t) else None
                | [] => None
                end = None).
    { destruct s as [|y s]; [reflexivity|].
      destruct Hnext as [H _]. destruct (H eq_refl) as [Hy Hm].
      simpl. now rewrite Hy, Hm. }
    rewrite E. f_equal. eapply IH; eauto.
  - destruct (ismark x) eqn:Em.
    + rewrite (Mx eq_refl).
      assert (U : starts_unspaced s).
      { destruct s as [|y s]; [exact I|]. destruct Hnext as [_ H]. now apply H. }
      rewrite (dropWhile_unspaced _ U). simpl. f_equal.
      eapply IH; eauto.
    + f_equal. eapply IH; eauto.
Qed.

(** Collapsing after the marks are normalized. *)
Lemma chain_tight_run (x : cp) (s : pystr) :
  isspace x = true -> chain tight (Some x) s = true ->
  exists w, isspace w = true /\ chain tight (Some w) (dropWhile isspace s) = true.
Proof.
  revert x; induction s as [|y s IH]; intros x Hx C.
  - exists x. auto.
  - cbn [dropWhile]. destruct (isspace y) eqn:Ey.
    + simpl in C. apply andb_true_iff in C. destruct C as [_ C].
      eapply IH; eauto.
    + exists x. auto.
Qed.

Lemma tight_same_class (p p' : option cp) (b : cp) :
  same_class p p' -> tight p' b = tight p b.
Proof. intros [H1 H2]. unfold tight. now rewrite H1, H2. Qed.

Lemma collapse_neat (n : nat) (prev prev' : option cp) (s : pystr) :
  length s < n ->
  same_class prev prev' ->
  chain tight prev s = true ->
  (space_before prev' = true -> starts_unspaced s) ->
  chain neat prev' (gsub ws_run [SP] n s) = true.
Proof.
  revert prev prev' s; induction n as [|n IH]; intros prev prev' s Hn Hc C U; [lia|].
  destruct s as [|x s]; [reflexivity|].
  simpl in Hn. cbn [gsub ws_run].
  pose proof C as C0. simpl in C. apply andb_true_iff in C. destruct C as [T C].
  destruct (isspace x) eqn:Ex.
  - cbn [app chain]. apply andb_true_iff. split.
    + unfold neat. apply andb_true_iff. split.
      * rewrite (tight_same_class _ _ SP Hc). unfold tight in *.
        rewrite mark_SP, andb_false_r. rewrite Ex, andb_true_r in T.
        apply andb_true_iff in T. destruct T as [_ T].
        rewrite space_SP, andb_true_r. exact T.
      * unfold single. rewrite space_SP. simpl.
        destruct (space_before prev'); [|reflexivity].
        specialize (U eq_refl). simpl in U. congruence.
    + destruct (chain_tight_run x s Ex C) as [w [Hw Cw]].
      apply (IH (Some w)).
      * pose proof (dropWhile_length isspace s). lia.
      * split; simpl; [now rewrite Hw|].
        now rewrite (space_not_mark _ Hw), mark_SP.
      * exact Cw.
      * intros _. apply dropWhile_starts.
  - cbn [chain]. apply andb_true_iff. split.
    + unfold neat. rewrite (tight_same_class _ _ x Hc), T.
      unfold single. now rewrite Ex.
    + apply (IH (Some x)); [lia | split; reflexivity | exact C |].
      simpl. rewrite Ex. discriminate.
Qed.

Section Normalizer.

Variable isalnum : cp -> bool.

Local Abbreviation keeps := (keeps isalnum).
Local Abbreviation unkept := (unkept isalnum).
Local Abbreviation cleaned := (cleaned isalnum).
Local Abbreviation clean_form := (clean_form isalnum).
Local Abbreviation _clean_text := (Rag._clean_text isalnum).

Lemma keeps_SP : keeps SP.
Proof.
  unfold Scan.keeps, in_class. apply existsb_exists. exists (Esc isspace).
  split; [simpl; auto | reflexivity].
Qed.

Lemma keeps_COMMA : keeps Rag.COMMA.
Proof.
  unfold Scan.keeps, in_class. apply existsb_exists. exists (One 0xff0c%Z).
  split; [simpl; tauto | reflexivity].
Qed.

(** The characters that are not kept, blanked. *)
Lemma scrub_keeps (n : nat) (s : pystr) :
  length s < n -> Forall keeps (gsub (one_of unkept) [SP] n s).
Proof.
  revert s; induction n as [|n IH]; intros s Hn; [lia|].
  destruct s as [|x s]; [constructor|]. cbn [length] in Hn.
  cbn [gsub one_of]. destruct (unkept x) eqn:E; cbn [app].
  - constructor; [apply keeps_SP | apply IH; lia].
  - constructor; [|apply IH; lia].
    unfold Scan.keeps. unfold Scan.unkept in E.
    now destruct (in_class (Rag.kept isalnum) x).
Qed.

Lemma scrub_id (n : nat) (s : pystr) :
  Forall keeps s -> gsub (one_of unkept) [SP] n s = s.
Proof.
  revert s; induction n as [|n IH]; intros s F; [reflexivity|].
  destruct s as [|x s]; [reflexivity|]. inversion F as [|? ? Hx Hs]; subst.
  cbn [gsub one_of].
  replace (unkept x) with false
    by (unfold Scan.unkept; unfold Scan.keeps in Hx; now rewrite Hx).
  f_equal. now apply IH.
Qed.

Lemma clean_text_cleaned (text : pystr) :
  text <> [] -> _clean_text text = cleaned text.
Proof.
  intros H. destruct text as [|x text]; [congruence|].
  unfold Rag._clean_text, Scan.cleaned, sub.
  rewrite !(sub_loop_gsub _ _ _ first_match_ws_run).
  rewrite (sub_loop_gsub _ _ _ (first_match_one_of true (Rag.kept isalnum))).
  rewrite (sub_loop_gsub _ _ _ first_match_mark_run).
  reflexivity.
Qed.

Lemma cleaned_form (text : pystr) : clean_form (cleaned text).
Proof.
  unfold Scan.cleaned, Scan.clean_form.
  set (t1 := strip text).
  set (t2 := gsub ws_run [SP] (S (length t1)) t1).
  set (t3 := gsub (one_of unkept) [SP] (S (length t2)) t2).
  set (t4 := gsub mark_run [Rag.COMMA] (S (length t3)) t3).
  set (t5 := gsub ws_run [SP] (S (length t4)) t4).
  cbv zeta.
  assert (P2 : plain t2) by (apply collapse_plain; lia).
  assert (P3 : plain t3).
  { apply gsub_Forall; [apply one_of_Forall | | exact P2].
    constructor; [reflexivity | constructor]. }
  assert (K3 : Forall keeps t3) by (apply scrub_keeps; lia).
  assert (K4 : Forall keeps t4).
  { apply gsub_Forall; [apply mark_run_Forall | | exact K3].
    constructor; [apply keeps_COMMA | constructor]. }
  assert (M4 : marks_comma t4) by (apply norm_marks; lia).
  assert (T4 : chain tight None t4 = true).
  { apply norm_tight; [lia | discriminate | discriminate]. }
  assert (P5 : plain t5) by (apply collapse_plain; lia).
  assert (K5 : Forall keeps t5).
  { apply gsub_Forall; [apply ws_run_Forall | | exact K4].
    constructor; [apply keeps_SP | constructor]. }
  assert (M5 : marks_comma t5).
  { apply gsub_Forall; [apply ws_run_Forall | | exact M4].
    constructor; [discriminate | constructor]. }
  assert (N5 : chain neat None t5 = true).
  { apply (collapse_neat _ None None); [lia | split; reflexivity | exact T4 |].
    discriminate. }
  repeat split.
  - now apply strip_Forall.
  - now apply strip_Forall.
  - now apply strip_Forall.
  - now apply strip_chain.
  - apply strip_idem.
Qed.

Lemma clean_form_fixed (s : pystr) : clean_form s -> cleaned s = s.
Proof.
  intros [P [K [M [N S]]]]. unfold Scan.cleaned. rewrite S.
  destruct (chain_neat_split _ _ N) as [_ Sg].
  rewrite (collapse_id _ None s P Sg).
  rewrite (scrub_id _ s K).
  rewrite (norm_id _ None s M N).
  rewrite (collapse_id _ None s P Sg).
  exact S.
Qed.

(** C3.  The text normalizer is idempotent, and the empty string cleans to
    the empty string. *)
Theorem clean_text_idempotent :
  (forall x : pystr, _clean_text (_clean_text x) = _clean_text x)
  /\ _clean_text [] = [].
Proof.
  split; [|reflexivity]. intros x.
  destruct x as [|c x]; [reflexivity|].
  rewrite (clean_text_cleaned (c :: x)) by discriminate.
  destruct (cleaned (c :: x)) as [|d y] eqn:E; [reflexivity|].
  rewrite clean_text_cleaned by discriminate.
  rewrite <- E. apply clean_form_fixed, cleaned_form.
Qed.

End Normalizer.

End CleanFacts.

(* ------------------------------------------------------------------ *)
(** ** Country extraction *)
(* ------------------------------------------------------------------ *)

Module SchoolFacts.
Import School.

Lemma ascii_upper_is_ascii (c d : cp) :
  ascii_upper c = d -> is_ascii d = true -> is_ascii c = true.
Proof.
  unfold ascii_upper, is_ascii, in_range. intros <-.
  destruct ((97 <=? c)%Z && (c <=? 122)%Z) eqn:E; [|tauto].
  intros _. apply andb_true_iff in E. destruct E as [E1 E2].
  apply Z.leb_le in E1, E2. apply andb_true_iff.
  split; apply Z.leb_le; lia.
Qed.

Lemma map_upper_ascii (a b : pystr) :
  map ascii_upper a = b -> forallb is_ascii b = true -> forallb is_ascii a = true.
Proof.
  revert b; induction a as [|x a IH]; intros b E Hb; [reflexivity|].
  destruct b as [|y b]; [discriminate|]. simpl in *.
  injection E as E1 E2. apply andb_true_iff in Hb. destruct Hb as [Hy Hb].
  rewrite (ascii_upper_is_ascii _ _ E1 Hy). simpl. eauto.
Qed.

Section Upper.

Variable upper_char : cp -> pystr.

(** On ASCII, [str.upper] maps a-z to A-Z and leaves the rest. *)
Hypothesis upper_char_ascii :
  forall c, is_ascii c = true -> upper_char c = [ascii_upper c].

Local Abbreviation py_upper := (py_upper upper_char).
Local Abbreviation indicator_found := (indicator_found upper_char).
Local Abbreviation scan_countries := (scan_countries upper_char).
Local Abbreviation appears := (appears upper_char).
Local Abbreviation _extract_country_from_address :=
  (_extract_country_from_address upper_char).

Lemma py_upper_app (a b : pystr) : py_upper (a ++ b) = py_upper a ++ py_upper b.
Proof. apply flat_map_app. Qed.

Lemma py_upper_ascii (s : pystr) :
  forallb is_ascii s = true -> py_upper s = map ascii_upper s.
Proof.
  induction s as [|x s IH]; simpl; [reflexivity|].
  intros H. apply andb_true_iff in H. destruct H as [Hx Hs].
  unfold py_upper in *. simpl. rewrite (upper_char_ascii _ Hx), (IH Hs).
  reflexivity.
Qed.

Lemma indicator_found_iff (address : pystr) (inds : list pystr) :
  indicator_found (py_upper address) inds = true
  <-> exists ind, In ind inds /\ appears ind address.
Proof.
  unfold indicator_found, appears. rewrite existsb_exists.
  split; intros [ind [Hin H]]; exists ind; split; auto;
    now apply contains_spec.
Qed.

Lemma indicator_found_false (address : pystr) (inds : list pystr) :
  (forall ind, In ind inds -> ~ appears ind address) ->
  indicator_found (py_upper address) inds = false.
Proof.
  intros H. destruct (indicator_found (py_upper address) inds) eqn:E; auto.
  apply indicator_found_iff in E. destruct E as [ind [Hin Ha]].
  exfalso. exact (H ind Hin Ha).
Qed.



Lemma extract_nonempty (address : pystr) :
  address <> [] ->
  _extract_country_from_address address = scan_countries (py_upper address) countries.
Proof. destruct address; [congruence | reflexivity]. Qed.


Lemma us_in_australia (address : pystr) :
  appears (lit "Australia") address ->
  contains (lit "US") (py_upper address) = true.
Proof.
  intros [l [r H]].
  apply contains_trans with (b := lit "AUSTRALIA"); [reflexivity|].
  rewrite H, (py_upper_ascii (lit "Australia")) by reflexivity.
  apply contains_app.
Qed.

Lemma appears_any_case (l a r : pystr) :
  map ascii_upper a = lit "AUSTRALIA" -> appears (lit "Australia") (l ++ a ++ r).
Proof.
  intros Ha. unfold School.appears. exists (py_upper l), (py_upper r).
  rewrite !py_upper_app. do 2 f_equal.
  rewrite (py_upper_ascii (lit "Australia")) by reflexivity.
  rewrite py_upper_ascii; [exact Ha|].
  apply (map_upper_ascii _ _ Ha). reflexivity.
Qed.

(** C10.  An address in which "Australia" appears, in any letter case, and
    in which no UK indicator appears, is classified "US": "US" is a
    substring of "AUSTRALIA" and the US entry comes before the AU entry.
    So it is for an address [l ++ a ++ r] where [a] is "Australia" written
    in any mix of upper and lower case. *)
Theorem australia_classified_US :
  (forall address,
      appears (lit "Australia") address ->
      (forall ind, In ind uk_indicators -> ~ appears ind address) ->
      _extract_country_from_address address = lit "US")
  /\ (forall l a r,
         map ascii_upper a = lit "AUSTRALIA" ->
         (forall ind, In ind uk_indicators -> ~ appears ind (l ++ a ++ r)) ->
         _extract_country_from_address (l ++ a ++ r) = lit "US").
Proof.
  assert (H : forall address,
             appears (lit "Australia") address ->
             (forall ind, In ind uk_indicators -> ~ appears ind address) ->
             _extract_country_from_address address = lit "US").
  { intros address Ha Huk.
    pose proof (us_in_australia address Ha) as Hus.
    assert (Hne : address <> []).
    { intros ->. simpl in Hus. discriminate. }
    rewrite (extract_nonempty _ Hne).
    unfold countries. cbn [School.scan_countries].
    rewrite indicator_found_false by exact Huk.
    cbn [School.indicator_found existsb].
    rewrite (py_upper_ascii (lit "US")) by reflexivity.
    change (map ascii_upper (lit "US")) with (lit "US").
    rewrite Hus. reflexivity. }
  split; [exact H|].
  intros l a r Ha Huk. apply H; [now apply appears_any_case | exact Huk].
Qed.

End Upper.

Lemma ascii_upper_law (c : cp) :
  is_ascii c = true -> AsciiText.upper_char c = [ascii_upper c].
Proof. reflexivity. Qed.

Lemma none_found_none_appears (address : pystr) (inds : list pystr) :
  indicator_found AsciiText.upper_char (py_upper AsciiText.upper_char address) inds
  = false ->
  forall ind, In ind inds -> ~ appears AsciiText.upper_char ind address.
Proof.
  intros H ind Hin Ha.
  assert (T : indicator_found AsciiText.upper_char
                (py_upper AsciiText.upper_char address) inds = true).
  { apply (indicator_found_iff AsciiText.upper_char). eauto. }
  congruence.
Qed.


Lemma australia_classified_US_witness :
  _extract_country_from_address AsciiText.upper_char
    (lit "1 George St, Sydney, " ++ lit "Australia" ++ lit " 2000") = lit "US".
Proof.
  apply (proj2 (australia_classified_US _ ascii_upper_law)
           (lit "1 George St, Sydney, ") (lit "Australia") (lit " 2000")).
  - reflexivity.
  - apply none_found_none_appears. vm_compute. reflexivity.
Defined.

(* ------------------------------------------------------------------ *)
(** ** Search variations *)
(* ------------------------------------------------------------------ *)

Lemma fold_append_if (b : bool) (f : pystr -> pystr) (l init : list pystr) :
  fold_left (fun acc x => if b then acc ++ [f x] else acc) l init
  = init ++ (if b then map f l else []).
Proof.
  revert init; induction l as [|x l IH]; intros init; simpl.
  - destruct b; now rewrite app_nil_r.
  - rewrite IH. destruct b; [|reflexivity]. now rewrite <- app_assoc.
Qed.

Lemma variations_unsliced (sc : school) :
  _generate_search_variations sc = firstn 10 (candidates sc).
Proof.
  unfold _generate_search_variations, candidates. f_equal.
  destruct (if Py.truthy (country sc) then lookup (country sc) education_keywords
            else None) as [kw|];
    rewrite !fold_append_if; destruct (Py.truthy (name sc)); simpl;
    rewrite ?app_nil_r; try reflexivity;
    destruct (Py.truthy (country sc)); simpl; now rewrite <- ?app_assoc.
Qed.

Lemma candidates_length (sc : school) : length (candidates sc) <= 8.
Proof.
  unfold candidates. destruct (Py.truthy (name sc)); [|simpl; lia].
  rewrite !length_app.
  destruct (if Py.truthy (country sc) then lookup (country sc) education_keywords
            else None) as [kw|];
    destruct (Py.truthy (country sc));
    rewrite ?length_map, ?length_firstn; simpl length; lia.
Qed.

(** C5, as the code has it.  The sequence of search variations has at most
    10 elements (at most 8 are ever generated) and lists the generated
    strings in the order of generation: the name, the name with the
    country, the name with each of the first three facet terms, the name
    with each of the first three keywords of the country.  Strings that
    occur twice are kept. *)
Theorem search_variations_capped (sc : school) :
  length (_generate_search_variations sc) <= 10
  /\ _generate_search_variations sc = candidates sc.
Proof.
  pose proof (candidates_length sc) as H.
  rewrite variations_unsliced. split.
  - rewrite length_firstn. lia.
  - apply firstn_all2. lia.
Qed.

(** Two equal facet terms give two equal search variations. *)
Lemma search_variations_repeat :
  ~ (length (_generate_search_variations school_twice) <= 10
     /\ NoDup (_generate_search_variations school_twice)).
Proof.
  intros [_ H]. vm_compute in H.
  inversion H as [|x l _ H1]. inversion H1 as [|y l' N _].
  apply N. now left.
Qed.

(* ------------------------------------------------------------------ *)
(** ** Keywords of a school *)
(* ------------------------------------------------------------------ *)

Lemma school_keywords_length py_lower isword set_order (text : pystr) :
  length (_extract_keywords py_lower isword set_order text) <= 20.
Proof.
  unfold _extract_keywords. destruct text; [simpl; lia|].
  rewrite length_firstn. lia.
Qed.

Lemma scraper_keywords_length py_lower isword set_order (text : pystr) :
  length (_extract_keywords_scraper py_lower isword set_order text) <= 20.
Proof.
  unfold _extract_keywords_scraper. destruct text; [simpl; lia|].
  rewrite length_firstn. lia.
Qed.

End SchoolFacts.

(* ------------------------------------------------------------------ *)
(** ** Sentence packing *)
(* ------------------------------------------------------------------ *)

Module SubjectsFacts.
Import Subjects.

Section Subject.

Variables english_name english_name_lower : pystr.

Local Abbreviation pack := (pack english_name english_name_lower).
Local Abbreviation flush := (flush english_name english_name_lower).
Local Abbreviation pack_sentences := (pack_sentences english_name english_name_lower).

Lemma emitted_bounded sentences count buf :
  buffer_ok sentences buf ->
  bounded sentences
    (content (content_chunk english_name english_name_lower count buf)).
Proof.
  intros [H|H]; simpl.
  - left. pose proof (strip_length buf). lia.
  - right. eauto.
Qed.

Lemma pack_ok sentences st sentence :
  In sentence sentences ->
  packing_ok sentences st -> packing_ok sentences (pack st sentence).
Proof.
  intros Hin [Hc Hb]. unfold Subjects.pack.
  destruct ((1000 <? length (current_chunk st) + length sentence)
            && Py.truthy (current_chunk st)) eqn:E.
  - split; simpl.
    + apply Forall_app. split; [exact Hc|].
      constructor; [|constructor]. now apply emitted_bounded.
    + now right.
  - split; simpl; [exact Hc|].
    destruct (current_chunk st) as [|x buf] eqn:Ecur.
    + now right.
    + left. rewrite ?Ecur in E. change (Py.truthy (x :: buf)) with true in *.
      rewrite andb_true_r in E. apply Nat.ltb_ge in E.
      cbv iota. rewrite !length_app. cbn [length] in *. lia.
Qed.

Lemma fold_pack_ok sentences todo st :
  incl todo sentences ->
  packing_ok sentences st -> packing_ok sentences (fold_left pack todo st).
Proof.
  revert st; induction todo as [|s todo IH]; intros st Hi Hst; simpl; [exact Hst|].
  apply IH.
  - intros x Hx. apply Hi. now right.
  - apply pack_ok; [apply Hi; now left | exact Hst].
Qed.

(** X22.  Every packed chunk is within 1001 characters -- one more than the
    limit of the test, for the space that joins two sentences -- or is a
    single sentence. *)
Lemma packed_within_1001 (sentences : list pystr) :
  Forall (fun c => bounded sentences (content c)) (pack_sentences sentences).
Proof.
  unfold Subjects.pack_sentences.
  assert (H : packing_ok sentences
                (fold_left pack sentences
                   {| chunks := []; current_chunk := []; chunk_count := 0 |})).
  { apply fold_pack_ok; [apply incl_refl|].
    split; simpl; [constructor | left; simpl; lia]. }
  destruct H as [Hc Hb]. unfold Subjects.flush.
  destruct (Py.truthy _); [|exact Hc].
  apply Forall_app. split; [exact Hc|].
  constructor; [|constructor]. now apply emitted_bounded.
Qed.

(** The buffer that is left after the last sentence is emitted, when it is
    not empty. *)
Lemma last_buffer_emitted (st : packing) :
  current_chunk st <> [] ->
  exists c, flush st = chunks st ++ [c] /\ content c = strip (current_chunk st).
Proof.
  intros H. unfold Subjects.flush.
  destruct (current_chunk st) as [|x buf] eqn:E; [congruence|]. simpl.
  eexists. split; reflexivity.
Qed.

(** C4, at the input that breaks it.  The text [two_sentences] is split
    into its two sentences of 500 characters; the test
    [len(current_chunk) + len(sentence) > 1000] leaves out the space that
    joins them, so both are packed into one chunk, of 1001 characters. *)
Theorem two_sentences_one_chunk :
  Re.split sentence_end (clean_text two_sentences) = [sentence_a; sentence_b]
  /\ map content
       (optimize_for_rag_content english_name english_name_lower two_sentences)
     = [sentence_a ++ lit " " ++ sentence_b]
  /\ length (sentence_a ++ lit " " ++ sentence_b) = 1001
  /\ length sentence_a = 500 /\ length sentence_b = 500.
Proof.
  assert (Hs : Re.split sentence_end (clean_text two_sentences)
               = [sentence_a; sentence_b]) by (vm_compute; reflexivity).
  split; [exact Hs|]. split; [|split; [|split]]; vm_compute; reflexivity.
Qed.

End Subject.
End SubjectsFacts.

(* ------------------------------------------------------------------ *)
(** ** Question and answer pairs *)
(* ------------------------------------------------------------------ *)

Module RagFacts.
Import Rag.

Lemma fold_heading_pairs (cs : list chunk) (acc : list qa) :
  fold_left
    (fun qa_pairs chunk =>
       if Py.truthy (chunk_heading chunk)
       then qa_pairs ++ [heading_pair chunk] else qa_pairs)
    cs acc
  = acc ++ map heading_pair
             (filter (fun c => Py.truthy (chunk_heading c)) cs).
Proof.
  revert acc; induction cs as [|c cs IH]; intros acc; simpl.
  - now rewrite app_nil_r.
  - rewrite IH. destruct (Py.truthy (chunk_heading c)); simpl;
      [now rewrite <- app_assoc | reflexivity].
Qed.

(** C1, on the code.  [_generate_qa_pairs] returns the pairs of the
    heading-bearing chunks among the first five and nothing before them:
    the two title-level patterns are built and left out of the result.
    For the title "IELTS", a body and no chunk the result is empty, where
    two title-level pairs are specified. *)
Theorem qa_pairs_without_title_level :
  (forall title content chunks,
      _generate_qa_pairs title content chunks
      = map heading_pair
          (filter (fun c => Py.truthy (chunk_heading c)) (firstn 5 chunks)))
  /\ _generate_qa_pairs sample_title sample_body [] = []
  /\ length (qa_patterns sample_title sample_body []) = 2.
Proof.
  split; [|split; reflexivity].
  intros title content chunks. unfold _generate_qa_pairs.
  now rewrite fold_heading_pairs.
Qed.

(* ------------------------------------------------------------------ *)
(** ** Heading-delimited chunks *)
(* ------------------------------------------------------------------ *)

Lemma flat_map_guard {A B : Type} (q : A -> bool) (g : A -> list B) (l : list A) :
  flat_map (fun x => if q x then g x else []) l = flat_map g (filter q l).
Proof.
  induction l as [|x l IH]; simpl; [reflexivity|].
  destruct (q x); simpl; now rewrite IH.
Qed.

Lemma flat_map_singleton {A B : Type} (f : A -> B) (l : list A) :
  flat_map (fun x => [f x]) l = map f l.
Proof. induction l as [|x l IH]; simpl; [reflexivity | now rewrite IH]. Qed.

Lemma in_enumerate_from {A : Type} (k j : nat) (x : A) (l : list A) :
  In (j, x) (Py.enumerate_from k l) -> In x l.
Proof. unfold Py.enumerate_from. apply in_combine_r. Qed.

(* ------------------------------------------------------------------ *)
(** ** A record without title or body *)
(* ------------------------------------------------------------------ *)

Lemma enumerate_from_app {A : Type} (k : nat) (l1 l2 : list A) :
  Py.enumerate_from k (l1 ++ l2)
  = Py.enumerate_from k l1 ++ Py.enumerate_from (k + length l1) l2.
Proof.
  revert k; induction l1 as [|x l1 IH]; intros k; simpl.
  - now rewrite Nat.add_0_r.
  - unfold Py.enumerate_from in *. simpl. f_equal.
    rewrite IH. do 2 f_equal. f_equal. lia.
Qed.

Lemma enumerate_from_cons {A : Type} (k : nat) (x : A) (l : list A) :
  Py.enumerate_from k (x :: l) = (k, x) :: Py.enumerate_from (S k) l.
Proof. reflexivity. Qed.

Section Batch.

Variable isalnum : cp -> bool.
Variable isdigit : cp -> bool.
Variable py_lower : pystr -> pystr.
Variable set_order : PySet.order.
Variable clock : nat -> pystr.

Local Abbreviation clean_value := (clean_value isalnum).
Local Abbreviation _optimize_single_article :=
  (_optimize_single_article isalnum isdigit py_lower set_order).
Local Abbreviation optimize_step :=
  (optimize_step isalnum isdigit py_lower set_order clock).
Local Abbreviation optimize_loop :=
  (optimize_loop isalnum isdigit py_lower set_order clock).
Local Abbreviation optimize_articles_for_rag :=
  (optimize_articles_for_rag isalnum isdigit py_lower set_order clock).

Lemma single_article_skipped (now : pystr) (a : article) (index : nat)
  (t c e : pystr) :
  clean_value (a_title a) = Return t ->
  clean_value (a_content a) = Return c ->
  clean_value (a_excerpt a) = Return e ->
  t = [] \/ c = [] ->
  _optimize_single_article now a index = Return None.
Proof.
  intros Ht Hc He Hempty. unfold Rag._optimize_single_article.
  rewrite Ht, Hc, He. cbn [bind].
  destruct Hempty as [-> | ->]; simpl; [reflexivity|].
  now rewrite orb_true_r.
Qed.

End Batch.


(* ------------------------------------------------------------------ *)
(** ** Keywords *)
(* ------------------------------------------------------------------ *)

Lemma frequent_terms_length (text : pystr) :
  length (frequent_terms text) <= 20.
Proof.
  unfold frequent_terms. rewrite length_map.
  etransitivity; [apply filter_length_le|].
  rewrite length_firstn. lia.
Qed.

(** C2, as the code has it.  The frequency channel gives at most 20
    keywords; the pattern channel is not bounded, and the result has at
    most 20 entries more than the pattern channel has distinct matches.
    The keyword list of a school record has at most 20 entries, in
    optimize_existing_schools.py and in linkedu_school_scraper.py. *)
Theorem keywords_bounded_by_channels (isdigit : cp -> bool)
  (set_order : PySet.order) (text : pystr)
  (py_lower : pystr -> pystr) (isword : cp -> bool) (school_text : pystr) :
  PySet.valid_order set_order ->
  length (frequent_terms text) <= 20
  /\ length (_extract_keywords isdigit set_order text)
     <= length (PySet.of_list (pattern_matches isdigit text)) + 20
  /\ length (School._extract_keywords py_lower isword set_order school_text) <= 20
  /\ length (School._extract_keywords_scraper py_lower isword set_order
               school_text) <= 20.
Proof.
  intros V. pose proof (frequent_terms_length text) as F.
  split; [exact F|].
  split; [|split; [apply SchoolFacts.school_keywords_length
                  |apply SchoolFacts.scraper_keywords_length]].
  unfold _extract_keywords. rewrite sorted_length, (Permutation_length (V _)).
  etransitivity; [apply update_length|].
  unfold PySet.of_list. lia.
Qed.

(** Twenty-one acronyms give twenty-one keywords. *)
Lemma acronyms_exceed_bound :
  ~ length (_extract_keywords AsciiText.isdigit PySet.as_listed acronyms) <= 20.
Proof. vm_compute. intros H. repeat (apply le_S_n in H). inversion H. Qed.

Lemma keywords_bounded_by_channels_witness :
  length (_extract_keywords AsciiText.isdigit PySet.as_listed acronyms)
  <= length (PySet.of_list (pattern_matches AsciiText.isdigit acronyms)) + 20.
Proof.
  exact (proj1 (proj2 (keywords_bounded_by_channels AsciiText.isdigit
                         PySet.as_listed acronyms AsciiText.lower
                         AsciiText.isword acronyms valid_as_listed))).
Defined.

(* ------------------------------------------------------------------ *)
(** ** Determinism *)
(* ------------------------------------------------------------------ *)

Section Determinism.

Variable isalnum : cp -> bool.
Variable isdigit : cp -> bool.
Variable py_lower : pystr -> pystr.

Lemma keywords_order_free (o1 o2 : PySet.order) (text : pystr) :
  PySet.valid_order o1 -> PySet.valid_order o2 ->
  _extract_keywords isdigit o1 text = _extract_keywords isdigit o2 text.
Proof.
  intros V1 V2. unfold _extract_keywords.
  apply sorted_of_permutation, orders_agree; auto.
Qed.

Lemma flat_map_permutation {A B : Type} (f : A -> list B) (l1 l2 : list A) :
  Permutation l1 l2 -> Permutation (flat_map f l1) (flat_map f l2).
Proof.
  induction 1 as [|x l1 l2 P IH|x y l|l1 l2 l3 P1 IH1 P2 IH2]; simpl.
  - constructor.
  - now apply Permutation_app_head.
  - rewrite !app_assoc. apply Permutation_app_tail, Permutation_app_comm.
  - eapply perm_trans; eauto.
Qed.

Lemma topics_order_free (o1 o2 : PySet.order) (a : article) :
  PySet.valid_order o1 -> PySet.valid_order o2 ->
  _extract_comprehensive_topics py_lower o1 a
  = _extract_comprehensive_topics py_lower o2 a.
Proof.
  intros V1 V2. unfold _extract_comprehensive_topics.
  apply sorted_of_permutation, orders_agree; auto.
  apply of_list_permutation, flat_map_permutation, orders_agree; auto.
Qed.

(** X14.  Two assemblies of the same article give the same document but for its
    time stamp, whatever the order in which each run iterates its sets and
    whatever the time: topics and keywords are sorted before they are
    stored. *)
Lemma article_assembly_deterministic
  (o1 o2 : PySet.order) (now1 now2 : pystr) (a : article) (index : nat) :
  PySet.valid_order o1 -> PySet.valid_order o2 ->
  untimed_result (_optimize_single_article isalnum isdigit py_lower o1 now1 a index)
  = untimed_result (_optimize_single_article isalnum isdigit py_lower o2 now2 a index).
Proof.
  intros V1 V2. unfold _optimize_single_article.
  destruct (clean_value isalnum (a_title a)) as [title|e]; [|reflexivity].
  destruct (clean_value isalnum (a_content a)) as [content|e]; [|reflexivity].
  destruct (clean_value isalnum (a_excerpt a)) as [excerpt|e]; [|reflexivity].
  cbn [bind].
  destruct (negb (Py.truthy title) || negb (Py.truthy content)); [reflexivity|].
  cbn [untimed_result untimed doc_id doc_title summary full_content source_url
       topics keywords semantic_chunks searchable_content qa_pairs
       structure_headings structure_sections].
  rewrite (topics_order_free o1 o2 a V1 V2).
  rewrite (keywords_order_free o1 o2 _ V1 V2).
  reflexivity.
Qed.

(** X20.  The keyword list of a school record is the set of its keywords in
    iteration order, cut at 20: two runs give the same keywords, in a
    possibly different order, when there are at most 20 of them. *)
Lemma school_keywords_permuted
  (o1 o2 : PySet.order) (isword : cp -> bool) (school_text : pystr) :
  PySet.valid_order o1 -> PySet.valid_order o2 ->
  length (School.keyword_set py_lower isword school_text) <= 20 ->
  Permutation (School._extract_keywords py_lower isword o1 school_text)
              (School._extract_keywords py_lower isword o2 school_text).
Proof.
  intros V1 V2. unfold School._extract_keywords.
  destruct school_text as [|x t]; [intros _; constructor|].
  unfold School.keyword_set. set (S := PySet.of_list _). intros Hlen.
  rewrite !firstn_all2
    by (rewrite ?(Permutation_length (V1 S)), ?(Permutation_length (V2 S)); lia).
  apply orders_agree; auto.
Qed.

End Determinism.

(** C7, at an input that breaks it.  The keyword list of a school record
    is [list(set(keywords))[:20]]: it follows the order in which the
    interpreter iterates the set, which is not the same from one run to the
    next.  For the text "alpha beta" one order gives alpha, beta and
    another beta, alpha; for a text of 21 distinct words the two runs do
    not even keep the same words. *)
Theorem school_keywords_follow_set_order :
  PySet.valid_order PySet.as_listed /\ PySet.valid_order PySet.reversed
  /\ School._extract_keywords AsciiText.lower AsciiText.isword
       PySet.as_listed (lit "alpha beta")
     = [lit "alpha"; lit "beta"]
  /\ School._extract_keywords AsciiText.lower AsciiText.isword
       PySet.reversed (lit "alpha beta")
     = [lit "beta"; lit "alpha"]
  /\ In (lit "word")
        (School._extract_keywords AsciiText.lower AsciiText.isword
           PySet.as_listed School.many_words)
  /\ ~ In (lit "word")
          (School._extract_keywords AsciiText.lower AsciiText.isword
             PySet.reversed School.many_words).
Proof.
  split; [apply valid_as_listed|]. split; [apply valid_reversed|].
  split; [vm_compute; reflexivity|]. split; [vm_compute; reflexivity|].
  split.
  - vm_compute. now left.
  - intros H. vm_compute in H.
    repeat (destruct H as [H|H]; [discriminate|]). exact H.
Qed.

Lemma article_assembly_deterministic_example :
  untimed_result
    (_optimize_single_article AsciiText.isalnum AsciiText.isdigit AsciiText.lower
       PySet.as_listed (lit "2024-01-01T00:00:00") sample_article 1)
  = untimed_result
      (_optimize_single_article AsciiText.isalnum AsciiText.isdigit AsciiText.lower
         PySet.reversed (lit "2024-01-02T00:00:00") sample_article 1).
Proof.
  exact (article_assembly_deterministic
           AsciiText.isalnum AsciiText.isdigit AsciiText.lower
           PySet.as_listed PySet.reversed
           (lit "2024-01-01T00:00:00") (lit "2024-01-02T00:00:00")
           sample_article 1 valid_as_listed valid_reversed).
Defined.

End RagFacts.

(* ------------------------------------------------------------------ *)
(** ** The loops, without the character before *)
(* ------------------------------------------------------------------ *)

Module LoopFacts.
Import Re Scan Loops ReFacts CleanFacts.

Lemma first_match_class_run (neg : bool) (items : list citem)
  (prev : option cp) (s : pystr) :
  option_map snd (first_match (Plus (Cls neg items)) prev s)
  = class_run (fun x => xorb neg (in_class items x)) s.
Proof.
  unfold first_match, Plus. rewrite rmatch_seq.
  destruct s as [|x s']; [reflexivity|].
  rewrite rmatch_cls_cons. cbn [class_run].
  destruct (xorb neg (in_class items x)) eqn:E; [|reflexivity].
  cbn [flat_map fst snd]. rewrite app_nil_r.
  destruct (rmatch_star_class neg items (Some x) s') as [p' [others [Hs _]]].
  rewrite Hs. cbn [snd].
  pose proof (dropWhile_length (fun x0 => xorb neg (in_class items x0)) s').
  consumed. reflexivity.
Qed.

Lemma class_run_shortens (q : cp -> bool) : shortens (class_run q).
Proof.
  intros [|x s] rest; [discriminate|]. simpl.
  destruct (q x); [|discriminate]. intros [= <-].
  pose proof (dropWhile_length q s). lia.
Qed.

Lemma ws_run_shortens : shortens ws_run.
Proof. exact ws_run_length. Qed.

Lemma gsub_enough (step : pystr -> option pystr) (repl : pystr) :
  shortens step ->
  forall n m s, length s < n -> length s < m ->
                gsub step repl n s = gsub step repl m s.
Proof.
  intros Hs. induction n as [|n IH]; intros m s Hn Hm; [lia|].
  destruct m as [|m]; [lia|]. cbn [gsub].
  destruct (step s) as [rest|] eqn:E.
  - apply Hs in E. f_equal. apply IH; lia.
  - destruct s as [|x s]; [reflexivity|]. simpl in Hn, Hm.
    f_equal. apply IH; lia.
Qed.

Lemma psub_nil (step : pystr -> option pystr) (repl : pystr) :
  shortens step -> psub step repl [] = [].
Proof.
  intros Hs. unfold psub. cbn [gsub length].
  destruct (step []) as [rest|] eqn:E; [|reflexivity].
  apply Hs in E. simpl in E. lia.
Qed.

Lemma psub_match (step : pystr -> option pystr) (repl s rest : pystr) :
  shortens step -> step s = Some rest ->
  psub step repl s = repl ++ psub step repl rest.
Proof.
  intros Hs E. unfold psub.
  assert (H : gsub step repl (S (length s)) s
              = repl ++ gsub step repl (length s) rest)
    by (cbn [gsub]; now rewrite E).
  rewrite H. f_equal. apply Hs in E. apply gsub_enough; auto; lia.
Qed.

Lemma psub_skip (step : pystr -> option pystr) (repl : pystr) (x : cp)
  (s : pystr) :
  shortens step -> step (x :: s) = None ->
  psub step repl (x :: s) = x :: psub step repl s.
Proof.
  intros Hs E. unfold psub.
  assert (H : gsub step repl (S (length (x :: s))) (x :: s)
              = x :: gsub step repl (length (x :: s)) s)
    by (cbn [gsub]; now rewrite E).
  rewrite H. reflexivity.
Qed.

Lemma sub_psub (r : re) (repl : pystr) (step : pystr -> option pystr) :
  (forall prev s, option_map snd (first_match r prev s) = step s) ->
  forall s, sub r repl s = psub step repl s.
Proof. intros H s. unfold sub, psub. now apply sub_loop_gsub. Qed.

(** The loop of [split] follows [gsplit] when the matcher agrees with the
    step. *)
Lemma split_loop_gsplit (r : re) (step : pystr -> option pystr) :
  (forall prev s, option_map snd (first_match r prev s) = step s) ->
  forall n prev s, split_loop r n prev s = gsplit step n s.
Proof.
  intros H. induction n as [|n IH]; intros prev s; simpl; [reflexivity|].
  specialize (H prev s).
  destruct (first_match r prev s) as [[p' rest]|]; simpl in H; rewrite <- H.
  - simpl. now rewrite IH.
  - destruct s as [|x s']; [reflexivity|]. now rewrite IH.
Qed.

Lemma gsplit_enough (step : pystr -> option pystr) :
  shortens step ->
  forall n m s, length s < n -> length s < m ->
                gsplit step n s = gsplit step m s.
Proof.
  intros Hs. induction n as [|n IH]; intros m s Hn Hm; [lia|].
  destruct m as [|m]; [lia|]. cbn [gsplit].
  destruct (step s) as [rest|] eqn:E.
  - apply Hs in E. f_equal. apply IH; lia.
  - destruct s as [|x s]; [reflexivity|]. simpl in Hn, Hm.
    f_equal. apply IH; lia.
Qed.

(** Neighbours in a chain. *)
Lemma chain_neighbours (R : option cp -> cp -> bool) (prev : option cp)
  (s l r : pystr) (a b : cp) :
  chain R prev s = true -> s = l ++ a :: b :: r -> R (Some a) b = true.
Proof.
  intros C ->. apply chain_app in C. destruct C as [_ [p C]].
  simpl in C. apply andb_true_iff in C. destruct C as [_ C].
  apply andb_true_iff in C. tauto.
Qed.

Lemma chain_single_neighbours (prev : option cp) (s : pystr) :
  chain single prev s = true ->
  no_neighbours (fun a b => isspace a = true /\ isspace b = true) s.
Proof.
  intros C l a b r E [Ha Hb].
  pose proof (chain_neighbours _ _ _ _ _ _ _ C E) as H.
  unfold single in H. simpl in H. now rewrite Ha, Hb in H.
Qed.

Lemma single_start (b : cp) : single None b = true.
Proof. unfold single. simpl. now rewrite andb_false_r. Qed.

Lemma strip_chain_single (s : pystr) :
  chain single None s = true -> chain single None (strip s) = true.
Proof.
  destruct (strip_sub s) as [l [r H]]. intros C. rewrite H in C.
  apply chain_app in C. destruct C as [_ [p C]].
  apply chain_app in C. destruct C as [C _].
  destruct (strip s) as [|b t]; [reflexivity|]. simpl in *.
  rewrite single_start. apply andb_true_iff in C. tauto.
Qed.

Lemma collapse_single (n : nat) (prev : option cp) (s : pystr) :
  length s < n ->
  (space_before prev = true -> starts_unspaced s) ->
  chain single prev (gsub ws_run [SP] n s) = true.
Proof.
  revert prev s; induction n as [|n IH]; intros prev s Hn U; [lia|].
  destruct s as [|x s]; [reflexivity|]. simpl in Hn. cbn [gsub ws_run].
  destruct (isspace x) eqn:Ex.
  - cbn [app chain]. apply andb_true_iff. split.
    + unfold single. rewrite space_SP. simpl.
      destruct (space_before prev); [|reflexivity].
      specialize (U eq_refl). simpl in U. congruence.
    + apply IH.
      * pose proof (dropWhile_length isspace s). lia.
      * intros _. apply dropWhile_starts.
  - cbn [chain]. apply andb_true_iff. split.
    + unfold single. now rewrite Ex.
    + apply IH; [lia|]. simpl. rewrite Ex. discriminate.
Qed.

End LoopFacts.

(* ------------------------------------------------------------------ *)
(** ** The cleaners of the school and the subject modules *)
(* ------------------------------------------------------------------ *)

Module CleanerFacts.
Import Re Scan Loops ReFacts CleanFacts LoopFacts.

Local Abbreviation C := (psub ws_run [SP]).
Local Abbreviation N := (psub (class_run isnl) [SP]).

Lemma isnl_space (c : cp) : isnl c = true -> isspace c = true.
Proof. unfold isnl. intros H. apply Z.eqb_eq in H. now subst. Qed.

Lemma nl_class (x : cp) : xorb false (in_class [One NL] x) = isnl x.
Proof. simpl. now rewrite orb_false_r. Qed.

Lemma sub_nl (s : pystr) : sub (Plus (Chr NL)) (lit " ") s = N s.
Proof.
  apply sub_psub. intros prev t. unfold Chr.
  rewrite first_match_class_run. destruct t as [|x t]; [reflexivity|].
  cbn [class_run]. rewrite nl_class. destruct (isnl x); [|reflexivity].
  f_equal. clear. induction t as [|y t IH]; [reflexivity|].
  cbn [dropWhile]. rewrite nl_class, IH. reflexivity.
Qed.

Lemma sub_ws (s : pystr) : sub (Plus ws) (lit " ") s = C s.
Proof. apply sub_psub, first_match_ws_run. Qed.

Lemma C_nil : C [] = [].
Proof. apply psub_nil, ws_run_shortens. Qed.

Lemma C_space (x : cp) (s : pystr) :
  isspace x = true -> C (x :: s) = SP :: C (dropWhile isspace s).
Proof.
  intros H. rewrite (psub_match ws_run [SP] (x :: s) (dropWhile isspace s));
    [reflexivity | apply ws_run_shortens | simpl; now rewrite H].
Qed.

Lemma C_other (x : cp) (s : pystr) :
  isspace x = false -> C (x :: s) = x :: C s.
Proof.
  intros H. apply psub_skip; [apply ws_run_shortens | simpl; now rewrite H].
Qed.

Lemma N_nil : N [] = [].
Proof. apply psub_nil, class_run_shortens. Qed.

Lemma N_nl (x : cp) (s : pystr) :
  isnl x = true -> N (x :: s) = SP :: N (dropWhile isnl s).
Proof.
  intros H. rewrite (psub_match (class_run isnl) [SP] (x :: s) (dropWhile isnl s));
    [reflexivity | apply class_run_shortens | simpl; now rewrite H].
Qed.

Lemma N_other (x : cp) (s : pystr) :
  isnl x = false -> N (x :: s) = x :: N s.
Proof.
  intros H. apply psub_skip; [apply class_run_shortens | simpl; now rewrite H].
Qed.

Lemma dropWhile_ws_nl (s : pystr) :
  dropWhile isspace (dropWhile isnl s) = dropWhile isspace s.
Proof.
  induction s as [|x s IH]; [reflexivity|]. cbn [dropWhile].
  destruct (isnl x) eqn:E.
  - now rewrite (isnl_space _ E).
  - reflexivity.
Qed.

(** Newline runs first, or not: the leading whitespace goes all the same. *)
Lemma dropWhile_ws_N (n : nat) (v : pystr) :
  length v < n -> dropWhile isspace (N v) = N (dropWhile isspace v).
Proof.
  revert v; induction n as [|n IH]; intros v Hn; [lia|].
  destruct v as [|x v]; [now rewrite N_nil|]. simpl in Hn.
  destruct (isnl x) eqn:En.
  - rewrite (N_nl _ _ En). cbn [dropWhile]. rewrite space_SP, (isnl_space _ En).
    rewrite IH by (pose proof (dropWhile_length isnl v); lia).
    now rewrite dropWhile_ws_nl.
  - rewrite (N_other _ _ En). cbn [dropWhile].
    destruct (isspace x); [apply IH; lia|]. now rewrite (N_other _ _ En).
Qed.

Lemma collapse_after_nl (n : nat) (s : pystr) :
  length s < n -> C (N s) = C s.
Proof.
  revert s; induction n as [|n IH]; intros s Hn; [lia|].
  destruct s as [|x s]; [now rewrite N_nil|]. simpl in Hn.
  destruct (isnl x) eqn:En.
  - rewrite (N_nl _ _ En), (C_space SP) by reflexivity.
    rewrite (C_space x) by (now apply isnl_space).
    f_equal.
    rewrite (dropWhile_ws_N (S (length (dropWhile isnl s)))) by lia.
    rewrite dropWhile_ws_nl. apply IH.
    pose proof (dropWhile_length isspace s). lia.
  - rewrite (N_other _ _ En). destruct (isspace x) eqn:Ex.
    + rewrite !C_space by assumption. f_equal.
      rewrite (dropWhile_ws_N (S (length s))) by lia. apply IH.
      pose proof (dropWhile_length isspace s). lia.
    + rewrite !C_other by assumption. f_equal. apply IH. lia.
Qed.

Lemma N_plain (s : pystr) : plain s -> N s = s.
Proof.
  induction s as [|x s IH]; intros P; [apply N_nil|].
  inversion P as [|? ? Px Ps]; subst.
  assert (E : isnl x = false).
  { destruct (isnl x) eqn:E; [|reflexivity].
    pose proof (Px (isnl_space _ E)) as H. unfold isnl in E.
    apply Z.eqb_eq in E. subst. discriminate. }
  rewrite (N_other _ _ E). f_equal. now apply IH.
Qed.

Lemma C_plain (s : pystr) : plain (C s).
Proof. apply collapse_plain. lia. Qed.

Lemma C_single (s : pystr) : chain single None (C s) = true.
Proof. apply collapse_single; [lia | discriminate]. Qed.

Lemma strip_nil : strip [] = [].
Proof. reflexivity. Qed.

Lemma school_clean_eq (text : pystr) :
  School._clean_text text = strip (C text).
Proof.
  destruct text as [|x t]; [now rewrite C_nil|].
  unfold School._clean_text. rewrite sub_nl, sub_ws.
  now rewrite (collapse_after_nl (S (length (x :: t)))) by lia.
Qed.

Lemma subjects_clean_eq (text : pystr) :
  Subjects.clean_text text = strip (C text).
Proof.
  destruct text as [|x t]; [now rewrite C_nil|].
  unfold Subjects.clean_text. rewrite sub_nl, sub_ws.
  apply N_plain, strip_Forall, C_plain.
Qed.

Lemma strip_C_shape (text : pystr) : single_spaced (strip (C text)).
Proof.
  split; [|split].
  - apply strip_Forall, C_plain.
  - apply (chain_single_neighbours None), strip_chain_single, C_single.
  - apply strip_idem.
Qed.

Lemma strip_C_fixed (r : pystr) :
  plain r -> chain single None r = true -> strip r = r -> strip (C r) = r.
Proof.
  intros P S E. unfold psub. rewrite (collapse_id _ None r P S). exact E.
Qed.

(** X18.  The cleaner of the school module and the cleaner of the subject module
    are the same function: both strip the text whose whitespace runs are
    collapsed; replacing the newline runs, which the one does first and the
    other last, changes nothing. *)
Theorem school_and_subject_cleaners_agree (text : pystr) :
  School._clean_text text = Subjects.clean_text text
  /\ Subjects.clean_text text
     = strip (sub (Plus ws) (lit " ") text).
Proof.
  rewrite school_clean_eq, subjects_clean_eq, sub_ws. auto.
Qed.

(** X21.  The cleaned text has the plain space as its only whitespace, never
    twice in a row and never at an end -- so no newline is left -- and
    cleaning it again changes nothing. *)
Theorem subject_clean_text_normal (text : pystr) :
  single_spaced (Subjects.clean_text text)
  /\ ~ In NL (Subjects.clean_text text)
  /\ Subjects.clean_text (Subjects.clean_text text) = Subjects.clean_text text.
Proof.
  rewrite !subjects_clean_eq.
  pose proof (strip_C_shape text) as Sh. split; [exact Sh|]. split.
  - destruct Sh as [P _]. intros H.
    unfold plain in P. rewrite Forall_forall in P.
    specialize (P NL H eq_refl). discriminate.
  - apply strip_C_fixed.
    + apply strip_Forall, C_plain.
    + apply strip_chain_single, C_single.
    + apply strip_idem.
Qed.

End CleanerFacts.

(* ------------------------------------------------------------------ *)
(** ** The article pipeline on normalized text *)
(* ------------------------------------------------------------------ *)

Module PipelineFacts.
Import Re Scan Loops Normal ReFacts CleanFacts LoopFacts Rag.

Lemma chain_tight_neighbours (prev : option cp) (s : pystr) :
  chain tight prev s = true -> no_neighbours space_by_mark s.
Proof.
  intros C l a b r E H.
  pose proof (chain_neighbours _ _ _ _ _ _ _ C E) as T.
  unfold tight in T. simpl in T.
  destruct H as [[Ha Hb]|[Ha Hb]]; rewrite Ha, Hb in T; simpl in T;
    [discriminate|]. now rewrite andb_false_r in T.
Qed.

Lemma plain_no_newline (s : pystr) : plain s -> ~ In NL s.
Proof.
  intros P H. unfold plain in P. rewrite Forall_forall in P.
  specialize (P NL H eq_refl). discriminate.
Qed.

Section Normalizer.

Variable isalnum : cp -> bool.

Local Abbreviation _clean_text := (Rag._clean_text isalnum).

Lemma clean_form_normalized (s : pystr) :
  clean_form isalnum s -> normalized isalnum s.
Proof.
  intros [P [K [M [N S]]]]. destruct (chain_neat_split _ _ N) as [T Sg].
  repeat split; auto.
  - now apply (chain_single_neighbours None).
  - now apply (chain_tight_neighbours None).
Qed.

Lemma clean_text_form (text : pystr) : clean_form isalnum (_clean_text text).
Proof.
  destruct text as [|x t].
  - repeat split; try constructor.
  - rewrite clean_text_cleaned by discriminate. apply cleaned_form.
Qed.

(** X1.  The normalized text has single plain spaces as its only whitespace,
    none at an end and none next to a mark, the full-width comma as its
    only sentence mark, kept characters only, and no newline. *)
Theorem clean_text_normalized (text : pystr) :
  normalized isalnum (_clean_text text) /\ ~ In NL (_clean_text text).
Proof.
  pose proof (clean_text_form text) as F. split.
  - now apply clean_form_normalized.
  - destruct F as [P _]. now apply plain_no_newline.
Qed.

End Normalizer.

(** *** Splitting a text without newline *)

Lemma marker_needs_newline (prev : option cp) (x : cp) (s : pystr) :
  x <> NL -> first_match heading_marker prev (x :: s) = None.
Proof.
  intros H. unfold first_match, heading_marker, Chr.
  rewrite rmatch_seq, rmatch_cls_cons. cbn [xorb in_class existsb citem_mem].
  rewrite orb_false_r. destruct (Z.eqb_spec x NL); [congruence | reflexivity].
Qed.

Lemma split_marker_whole (n : nat) (prev : option cp) (s : pystr) :
  length s < n -> ~ In NL s -> split_loop heading_marker n prev s = [s].
Proof.
  revert prev s; induction n as [|n IH]; intros prev s Hn H; [lia|].
  destruct s as [|x s]; cbn [split_loop].
  - now rewrite first_match_nil.
  - rewrite marker_needs_newline by (intros ->; apply H; now left).
    simpl in Hn. rewrite IH; [reflexivity | lia |].
    intros Hin. apply H. now right.
Qed.

Lemma str_split_whole (c : cp) (sep : pystr) (n : nat) (s : pystr) :
  ~ In c s -> PyStr.split_loop (c :: sep) n s = [s].
Proof.
  revert s; induction n as [|n IH]; intros s H; [reflexivity|].
  destruct s as [|x s]; [reflexivity|]. cbn [PyStr.split_loop startswith].
  destruct (Z.eqb_spec c x) as [->|Hx]; [exfalso; apply H; now left|].
  cbn [andb]. rewrite IH; [reflexivity|]. intros Hin. apply H. now right.
Qed.

Section Whole.

Variable content : pystr.
Hypothesis no_newline : ~ In NL content.
Hypothesis stripped : strip content = content.
Hypothesis not_empty : content <> [].

Lemma sections_whole : Re.split heading_marker content = [content].
Proof. apply split_marker_whole; [lia | exact no_newline]. Qed.

Lemma heading_whole : section_heading content = content.
Proof.
  unfold section_heading, PyStr.split.
  now rewrite (str_split_whole NL [] _ _ no_newline).
Qed.

Lemma body_whole : section_body content = content.
Proof.
  unfold section_body, PyStr.split.
  now rewrite (str_split_whole NL [] _ _ no_newline).
Qed.

Lemma truthy_content : Py.truthy content = true.
Proof. destruct content; [congruence | reflexivity]. Qed.

Lemma paragraphs_whole : paragraphs_of content = [content].
Proof.
  unfold paragraphs_of, PyStr.split.
  rewrite (str_split_whole NL [NL] _ _ no_newline). cbn [map filter].
  now rewrite stripped, truthy_content.
Qed.

Lemma whole_text_chunks (title : pystr) :
  _create_semantic_chunks content title
  = if length content <? 50 then [] else [whole_chunk title content].
Proof.
  unfold _create_semantic_chunks. rewrite sections_whole.
  unfold Py.enumerate, Py.enumerate_from. cbn [length seq combine flat_map].
  rewrite app_nil_r. unfold section_chunks.
  rewrite stripped, truthy_content, heading_whole, body_whole.
  cbn [negb]. destruct (Nat.ltb_spec (length content) 50) as [L|L];
    [reflexivity|].
  rewrite paragraphs_whole. unfold Py.enumerate, Py.enumerate_from.
  cbn [length seq combine flat_map paragraph_chunk].
  destruct (Nat.ltb_spec (length content) 30); [lia | reflexivity].
Qed.

(** X2.  A text without newline, stripped and not empty, is one section and one
    paragraph: it gives no chunk when it is shorter than 50 characters and
    otherwise one chunk, "chunk_0", whose heading and whose text are both
    the whole text. *)
Theorem chunks_of_text_without_newline (title : pystr) :
  _create_semantic_chunks content title
  = if length content <? 50 then [] else [whole_chunk title content].
Proof. exact (whole_text_chunks title). Qed.

Lemma sections_of_text_without_newline :
  _identify_sections content
  = if 50 <? length content
    then [ {| sec_title := content; sec_content := ellipsis 200 content |} ]
    else [].
Proof.
  unfold _identify_sections. rewrite sections_whole.
  unfold Py.enumerate, Py.enumerate_from. cbn [length seq combine flat_map].
  rewrite app_nil_r, stripped, truthy_content, heading_whole, body_whole.
  rewrite truthy_content. cbn [negb andb].
  destruct (50 <? length content); reflexivity.
Qed.

Lemma summary_of_text_without_newline :
  _create_summary content = ellipsis 200 content.
Proof.
  unfold _create_summary. rewrite paragraphs_whole. cbn [find].
  destruct (_ && _); reflexivity.
Qed.

Lemma qa_of_whole_chunk (title : pystr) :
  _generate_qa_pairs title content [whole_chunk title content]
  = [heading_pair (whole_chunk title content)].
Proof.
  unfold _generate_qa_pairs. cbn [firstn fold_left whole_chunk new_chunk chunk_heading].
  now rewrite truthy_content.
Qed.

End Whole.

(** *** The summary *)

Lemma ellipsis_length (n : nat) (s : pystr) : length (ellipsis n s) <= n + 3.
Proof.
  unfold ellipsis. destruct (Nat.ltb_spec n (length s)).
  - rewrite length_app, length_firstn. simpl. lia.
  - lia.
Qed.

Lemma ellipsis_not_empty (n : nat) (s : pystr) : s <> [] -> ellipsis n s <> [].
Proof.
  unfold ellipsis. intros H. destruct (n <? length s); [|exact H].
  intros E. apply app_eq_nil in E. destruct E as [_ E]. discriminate.
Qed.

Lemma find_first {A : Type} (f : A -> bool) (before : list A) (p : A)
  (after : list A) :
  Forall (fun q => f q = false) before -> f p = true ->
  find f (before ++ p :: after) = Some p.
Proof.
  intros F Hp. induction F as [|q l Hq F IH]; cbn [app find].
  - now rewrite Hp.
  - now rewrite Hq.
Qed.

Lemma find_none {A : Type} (f : A -> bool) (l : list A) :
  Forall (fun q => f q = false) l -> find f l = None.
Proof.
  intros F. induction F as [|q l Hq F IH]; cbn [find]; [reflexivity|].
  now rewrite Hq.
Qed.

Lemma passed_over (q : pystr) :
  length q <= 50 \/ startswith (lit "##") q = true ->
  (50 <? length q) && negb (startswith (lit "##") q) = false.
Proof.
  intros [H|H].
  - destruct (Nat.ltb_spec 50 (length q)); [lia | reflexivity].
  - rewrite H. apply andb_false_r.
Qed.

(** X3.  The paragraphs of a body are the stripped pieces between its
    blank lines that are not empty.  The summary is the first of them that
    has more than 50 characters and does not start with "##" -- every
    paragraph before it is passed over for being shorter or for starting
    with "##" -- or the body itself when there is no such paragraph; what
    is chosen is cut at 200 characters, with "..." appended when it is
    longer, so a summary never has more than 203 characters. *)
Theorem summary_is_cut (content : pystr) :
  let paragraphs :=
    filter Py.truthy (map strip (PyStr.split [NL; NL] content)) in
  let cut := fun s : pystr =>
    if 200 <? length s then firstn 200 s ++ lit "..." else s in
  (forall before p after,
      paragraphs = before ++ p :: after ->
      Forall (fun q => length q <= 50 \/ startswith (lit "##") q = true)
             before ->
      50 < length p -> startswith (lit "##") p = false ->
      _create_summary content = cut p)
  /\ (Forall (fun q => length q <= 50 \/ startswith (lit "##") q = true)
             paragraphs ->
      _create_summary content = cut content)
  /\ length (_create_summary content) <= 203.
Proof.
  intros paragraphs cut. split; [|split].
  - intros before p after E F Hl Hs. unfold _create_summary. cbv zeta.
    change (paragraphs_of content) with paragraphs. rewrite E.
    rewrite (find_first _ before p after); [reflexivity | |].
    + eapply Forall_impl; [|exact F]. intros q. apply passed_over.
    + rewrite Hs. apply Nat.ltb_lt in Hl. now rewrite Hl.
  - intros F. unfold _create_summary. cbv zeta.
    change (paragraphs_of content) with paragraphs.
    rewrite find_none; [reflexivity|].
    eapply Forall_impl; [|exact F]. intros q. apply passed_over.
  - unfold _create_summary. cbv zeta.
    match goal with
    | |- context [find ?f ?l] => destruct (find f l) as [p|]
    end; apply (ellipsis_length 200).
Qed.

(** *** The assembled document *)

Section Document.

Variable isalnum : cp -> bool.
Variable isdigit : cp -> bool.
Variable py_lower : pystr -> pystr.
Variable set_order : PySet.order.

Local Abbreviation _clean_text := (Rag._clean_text isalnum).
Local Abbreviation clean_value := (Rag.clean_value isalnum).
Local Abbreviation _optimize_single_article :=
  (Rag._optimize_single_article isalnum isdigit py_lower set_order).

Lemma clean_value_form (v : pyval) (t : pystr) :
  clean_value v = Return t -> clean_form isalnum t.
Proof.
  destruct v as [s0| |z]; simpl.
  - intros [= <-]. apply clean_text_form.
  - intros [= <-]. repeat split; constructor.
  - destruct (z =? 0)%Z; [|discriminate].
    intros [= <-]. repeat split; constructor.
Qed.

Lemma clean_form_fixed_point (t : pystr) :
  clean_form isalnum t -> _clean_text t = t.
Proof.
  intros F. destruct t as [|x t]; [reflexivity|].
  rewrite clean_text_cleaned by discriminate. now apply clean_form_fixed.
Qed.

(** What [_optimize_single_article] returns, taken apart. *)
Lemma document_parts (now : pystr) (a : article) (index : nat) (d : document) :
  _optimize_single_article now a index = Return (Some d) ->
  exists title content excerpt,
    clean_value (a_title a) = Return title
    /\ clean_value (a_content a) = Return content
    /\ clean_value (a_excerpt a) = Return excerpt
    /\ title <> [] /\ content <> []
    /\ d = {| doc_id := lit "linkedu_" ++ pad4 index;
              doc_title := title;
              summary := if Py.truthy excerpt then excerpt
                         else _create_summary content;
              full_content := content;
              source_url := a_source_url a;
              topics := _extract_comprehensive_topics py_lower set_order a;
              keywords :=
                _extract_keywords isdigit set_order
                  (title ++ lit " " ++ excerpt ++ lit " " ++ content);
              semantic_chunks := _create_semantic_chunks content title;
              searchable_content :=
                _create_searchable_content isalnum title content excerpt;
              qa_pairs :=
                _generate_qa_pairs title content
                  (_create_semantic_chunks content title);
              structure_headings :=
                _extract_clean_headings isalnum (a_headings a);
              structure_sections := _identify_sections content;
              indexed_at := now |}.
Proof.
  unfold Rag._optimize_single_article.
  destruct (clean_value (a_title a)) as [title|e]; [|discriminate].
  destruct (clean_value (a_content a)) as [content|e]; [|discriminate].
  destruct (clean_value (a_excerpt a)) as [excerpt|e]; [|discriminate].
  cbn [bind]. destruct title as [|x title]; [discriminate|].
  destruct content as [|y content]; [discriminate|].
  cbn [Py.truthy negb orb]. intros [= <-].
  exists (x :: title), (y :: content), excerpt.
  repeat split; discriminate.
Qed.

(** X11.  A document that is returned has a title and a body that are not empty
    and that the normalizer leaves as they are, a searchable text that the
    normalizer leaves as it is, and the identifier "linkedu_" followed by
    the index in at least four digits. *)
Theorem document_fields_normalized (now : pystr) (a : article) (index : nat)
  (d : document) :
  _optimize_single_article now a index = Return (Some d) ->
  doc_title d <> [] /\ full_content d <> []
  /\ _clean_text (doc_title d) = doc_title d
  /\ _clean_text (full_content d) = full_content d
  /\ _clean_text (searchable_content d) = searchable_content d
  /\ ~ In NL (full_content d)
  /\ doc_id d = lit "linkedu_" ++ pad4 index.
Proof.
  intros H. destruct (document_parts _ _ _ _ H)
    as [title [content [excerpt [Ht [Hc [He [Nt [Nc ->]]]]]]]].
  cbn [doc_title full_content searchable_content doc_id].
  pose proof (clean_value_form _ _ Ht) as Ft.
  pose proof (clean_value_form _ _ Hc) as Fc.
  repeat split; auto.
  - now apply clean_form_fixed_point.
  - now apply clean_form_fixed_point.
  - unfold _create_searchable_content.
    apply clean_form_fixed_point, clean_text_form.
  - destruct Fc as [P _]. now apply plain_no_newline.
Qed.

(** X12.  In a document that is returned the body is one section and one
    paragraph, for the normalizer has taken the newlines away: there is no
    chunk when the body is shorter than 50 characters and otherwise one
    chunk, whose heading and text are both the whole body; so there is at
    most one question, which asks what the whole body is; and there is one
    section entry when the body is longer than 50 characters. *)
Theorem document_has_one_chunk (now : pystr) (a : article) (index : nat)
  (d : document) :
  _optimize_single_article now a index = Return (Some d) ->
  semantic_chunks d
  = (if length (full_content d) <? 50 then []
     else [whole_chunk (doc_title d) (full_content d)])
  /\ qa_pairs d
     = (if length (full_content d) <? 50 then []
        else [heading_pair (whole_chunk (doc_title d) (full_content d))])
  /\ structure_sections d
     = (if 50 <? length (full_content d)
        then [ {| sec_title := full_content d;
                  sec_content := ellipsis 200 (full_content d) |} ]
        else []).
Proof.
  intros H. destruct (document_parts _ _ _ _ H)
    as [title [content [excerpt [Ht [Hc [He [Nt [Nc ->]]]]]]]].
  cbn [doc_title full_content semantic_chunks qa_pairs structure_sections].
  pose proof (clean_value_form _ _ Hc) as [P [_ [_ [_ S]]]].
  pose proof (plain_no_newline _ P) as NoNL.
  rewrite (whole_text_chunks content NoNL S Nc title).
  rewrite (sections_of_text_without_newline content NoNL S Nc).
  split; [reflexivity|]. split; [|reflexivity].
  destruct (length content <? 50); [reflexivity|].
  now apply qa_of_whole_chunk.
Qed.

(** X13.  The summary of a document is the normalized excerpt or, when that is
    empty, the body cut at 200 characters; it is never empty. *)
Theorem document_summary (now : pystr) (a : article) (index : nat)
  (d : document) :
  _optimize_single_article now a index = Return (Some d) ->
  summary d <> []
  /\ exists excerpt,
       clean_value (a_excerpt a) = Return excerpt
       /\ summary d = if Py.truthy excerpt then excerpt
                      else ellipsis 200 (full_content d).
Proof.
  intros H. destruct (document_parts _ _ _ _ H)
    as [title [content [excerpt [Ht [Hc [He [Nt [Nc ->]]]]]]]].
  cbn [summary full_content].
  pose proof (clean_value_form _ _ Hc) as [P [_ [_ [_ S]]]].
  pose proof (plain_no_newline _ P) as NoNL.
  rewrite (summary_of_text_without_newline content NoNL S Nc).
  split.
  - destruct excerpt as [|x e]; cbn [Py.truthy];
      [now apply ellipsis_not_empty | discriminate].
  - exists excerpt. auto.
Qed.

End Document.

(** *** Instances *)

Lemma summary_is_cut_witness :
  _create_summary two_paragraphs = sixty.
Proof.
  apply (proj1 (summary_is_cut two_paragraphs) [lit "A short note."] sixty []).
  - reflexivity.
  - constructor; [left; simpl; lia | constructor].
  - simpl; lia.
  - reflexivity.
Defined.

Lemma chunks_of_text_without_newline_witness :
  _create_semantic_chunks sixty (lit "IELTS")
  = [whole_chunk (lit "IELTS") sixty].
Proof.
  assert (N : ~ In NL sixty).
  { intros H. vm_compute in H.
    repeat (destruct H as [H|H]; [discriminate|]). exact H. }
  exact (chunks_of_text_without_newline sixty N eq_refl
           ltac:(discriminate) (lit "IELTS")).
Defined.

Lemma article_sixty_document :
  exists d,
    Rag._optimize_single_article AsciiText.isalnum AsciiText.isdigit
      AsciiText.lower PySet.as_listed (lit "2024-05-01T10:00:00")
      article_sixty 3 = Return (Some d).
Proof. eexists. vm_compute. reflexivity. Defined.

Lemma document_fields_normalized_witness :
  exists d,
    doc_title d <> [] /\ doc_id d = lit "linkedu_" ++ pad4 3
    /\ ~ In NL (full_content d).
Proof.
  destruct article_sixty_document as [d H]. exists d.
  destruct (document_fields_normalized _ _ _ _ _ _ _ _ H)
    as [H1 [_ [_ [_ [_ [H6 H7]]]]]].
  auto.
Defined.

Lemma document_has_one_chunk_witness :
  exists d,
    semantic_chunks d
    = (if length (full_content d) <? 50 then []
       else [whole_chunk (doc_title d) (full_content d)]).
Proof.
  destruct article_sixty_document as [d H]. exists d.
  exact (proj1 (document_has_one_chunk _ _ _ _ _ _ _ _ H)).
Defined.

Lemma document_summary_witness :
  exists d, summary d <> [].
Proof.
  destruct article_sixty_document as [d H]. exists d.
  exact (proj1 (document_summary _ _ _ _ _ _ _ _ H)).
Defined.

End PipelineFacts.

(* ------------------------------------------------------------------ *)
(** ** The batch, record by record *)
(* ------------------------------------------------------------------ *)

Module BatchFacts.
Import Rag Outcome.

Section Batch.

Variable isalnum : cp -> bool.
Variable isdigit : cp -> bool.
Variable py_lower : pystr -> pystr.
Variable set_order : PySet.order.
Variable clock : nat -> pystr.

Local Abbreviation run :=
  (fun ia : nat * article =>
     Rag._optimize_single_article isalnum isdigit py_lower set_order
       (clock (fst ia + 1)) (snd ia) (fst ia + 1)).
Local Abbreviation optimize_loop :=
  (Rag.optimize_loop isalnum isdigit py_lower set_order clock).
Local Abbreviation optimize_articles_for_rag :=
  (Rag.optimize_articles_for_rag isalnum isdigit py_lower set_order clock).

Lemma loop_by_record (numbered : list (nat * article)) (st : batch) :
  optimized_articles (optimize_loop st numbered)
  = optimized_articles st ++ flat_map (fun ia => document_of (run ia)) numbered
  /\ log (optimize_loop st numbered)
     = log st ++ flat_map (fun ia => entry_of (fst ia + 1) (run ia)) numbered.
Proof.
  unfold Rag.optimize_loop. revert st.
  induction numbered as [|[i a] l IH]; intros st; cbn [fold_left flat_map].
  - now rewrite !app_nil_r.
  - destruct (IH (Rag.optimize_step isalnum isdigit py_lower set_order clock
                    st (i, a))) as [Hd Hl].
    rewrite Hd, Hl. unfold Rag.optimize_step. cbn [fst snd].
    destruct (Rag._optimize_single_article isalnum isdigit py_lower set_order
                (clock (i + 1)) a (i + 1)) as [[d|]|e];
      cbn [optimized_articles log document_of entry_of app];
      rewrite <- ?app_assoc; auto.
Qed.

Lemma outcome_one (ia : nat * article) :
  length (document_of (run ia)) + length (entry_of (fst ia + 1) (run ia)) <= 1.
Proof.
  destruct (Rag._optimize_single_article isalnum isdigit py_lower set_order
              (clock (fst ia + 1)) (snd ia) (fst ia + 1)) as [[d|]|e];
    simpl; lia.
Qed.

Lemma outcomes_bounded (numbered : list (nat * article)) :
  length (flat_map (fun ia => document_of (run ia)) numbered)
  + length (flat_map (fun ia => entry_of (fst ia + 1) (run ia)) numbered)
  <= length numbered.
Proof.
  induction numbered as [|ia l IH]; [simpl; lia|].
  cbn [flat_map]. rewrite !length_app. pose proof (outcome_one ia).
  cbn [length]. lia.
Qed.

Lemma enumerate_length {A : Type} (l : list A) :
  length (Py.enumerate l) = length l.
Proof.
  unfold Py.enumerate, Py.enumerate_from.
  rewrite length_combine, length_seq. lia.
Qed.

Lemma in_enumerate_nth {A : Type} (k i : nat) (x : A) (l : list A) :
  In (i, x) (Py.enumerate_from k l) -> k <= i /\ nth_error l (i - k) = Some x.
Proof.
  unfold Py.enumerate_from. revert k; induction l as [|y l IH]; intros k;
    cbn [length seq combine]; [intros []|].
  intros [E|H].
  - injection E as <- <-. rewrite Nat.sub_diag. split; [lia | reflexivity].
  - destruct (IH _ H) as [Hk Hn]. split; [lia|].
    replace (i - k) with (S (i - S k)) by lia. exact Hn.
Qed.

(** X15.  The documents of a batch are the documents of its records, in the
    order of the records, and the log has one line for every record whose
    processing raises, with the position of the record counted from 1 and
    the text of the error; a record gives a document, a line, or nothing,
    so the two together are never more than the records.  A document keeps
    the number of its record: its identifier is "linkedu_" followed by the
    position of the record in the batch, counted from 1, whatever was left
    out before it. *)
Theorem batch_record_by_record (articles : list article) :
  let r := optimize_articles_for_rag articles in
  documents r
  = flat_map (fun ia => document_of (run ia)) (Py.enumerate articles)
  /\ logged r
     = flat_map (fun ia => entry_of (fst ia + 1) (run ia))
                (Py.enumerate articles)
  /\ total_documents r = length (documents r)
  /\ length (documents r) + length (logged r) <= length articles
  /\ Forall (fun d =>
               exists i a,
                 nth_error articles i = Some a
                 /\ run (i, a) = Return (Some d)
                 /\ doc_id d = lit "linkedu_" ++ pad4 (i + 1)
                 /\ indexed_at d = clock (i + 1))
            (documents r).
Proof.
  intros r.
  destruct (loop_by_record (Py.enumerate articles)
              {| optimized_articles := []; log := [] |}) as [Hd Hl].
  cbn [optimized_articles log app] in Hd, Hl.
  assert (D : documents r
              = flat_map (fun ia => document_of (run ia)) (Py.enumerate articles))
    by exact Hd.
  assert (L : logged r
              = flat_map (fun ia => entry_of (fst ia + 1) (run ia))
                         (Py.enumerate articles))
    by exact Hl.
  split; [exact D|]. split; [exact L|]. split; [reflexivity|]. split.
  - rewrite D, L. etransitivity; [apply outcomes_bounded|].
    now rewrite enumerate_length.
  - rewrite D. apply Forall_forall. intros d Hin.
    apply in_flat_map in Hin. destruct Hin as [[i a] [Hia Hd']].
    apply in_enumerate_nth in Hia. destruct Hia as [_ Hn].
    rewrite Nat.sub_0_r in Hn. cbn [fst snd] in Hd'.
    exists i, a. split; [exact Hn|].
    destruct (Rag._optimize_single_article isalnum isdigit py_lower set_order
                (clock (i + 1)) a (i + 1)) as [[d'|]|e] eqn:E;
      cbn [document_of] in Hd'; try contradiction.
    destruct Hd' as [->|[]]. cbn [fst snd]. split; [exact E|].
    unfold Rag._optimize_single_article in E.
    destruct (Rag.clean_value isalnum (a_title a)) as [t|]; [|discriminate].
    destruct (Rag.clean_value isalnum (a_content a)) as [c|]; [|discriminate].
    destruct (Rag.clean_value isalnum (a_excerpt a)) as [x|]; [|discriminate].
    cbn [bind] in E.
    destruct (negb (Py.truthy t) || negb (Py.truthy c)); [discriminate|].
    injection E as <-. split; reflexivity.
Qed.

Lemma flat_map_enumerate_app {A B : Type} (f : nat * A -> list B)
  (l1 l2 : list A) :
  flat_map f (Py.enumerate (l1 ++ l2))
  = flat_map f (Py.enumerate l1)
    ++ flat_map f (Py.enumerate_from (length l1) l2).
Proof.
  unfold Py.enumerate. rewrite RagFacts.enumerate_from_app, flat_map_app.
  reflexivity.
Qed.

(** X16.  A record whose title is a number other than 0 makes the call raise:
    the batch goes on, the record gives no document, and the log gets the
    line "Error optimizing article N: 'int' object has no attribute
    'strip'", where N is the position of the record counted from 1. *)
Theorem number_title_logged (pre post : list article) (a : article) (z : Z) :
  a_title a = PInt z -> z <> 0%Z ->
  let r := optimize_articles_for_rag (pre ++ a :: post) in
  In (error_line (length pre + 1)
        (lit "'int' object has no attribute 'strip'"))
     (logged r)
  /\ documents r
     = flat_map (fun ia => document_of (run ia)) (Py.enumerate pre)
       ++ flat_map (fun ia => document_of (run ia))
                   (Py.enumerate_from (S (length pre)) post).
Proof.
  intros Ht Hz r.
  assert (E : forall now index,
             Rag._optimize_single_article isalnum isdigit py_lower set_order
               now a index
             = Raise (lit "'int' object has no attribute 'strip'")).
  { intros now index. unfold Rag._optimize_single_article. rewrite Ht.
    cbn [Rag.clean_value]. destruct (Z.eqb_spec z 0); [contradiction|].
    reflexivity. }
  destruct (loop_by_record (Py.enumerate (pre ++ a :: post))
              {| optimized_articles := []; log := [] |}) as [Hd Hl].
  cbn [optimized_articles log app] in Hd, Hl.
  split.
  - change (logged r) with
      (log (optimize_loop {| optimized_articles := []; log := [] |}
              (Py.enumerate (pre ++ a :: post)))).
    rewrite Hl, flat_map_enumerate_app. apply in_or_app. right.
    rewrite RagFacts.enumerate_from_cons. cbn [flat_map fst snd].
    rewrite E. left. reflexivity.
  - change (documents r) with
      (optimized_articles
         (optimize_loop {| optimized_articles := []; log := [] |}
            (Py.enumerate (pre ++ a :: post)))).
    rewrite Hd, flat_map_enumerate_app. f_equal.
    rewrite RagFacts.enumerate_from_cons. cbn [flat_map fst snd].
    rewrite E. reflexivity.
Qed.

End Batch.

Lemma number_title_logged_witness :
  let r := Rag.optimize_articles_for_rag AsciiText.isalnum AsciiText.isdigit
             AsciiText.lower PySet.as_listed no_clock
             ([untitled] ++ numbered :: []) in
  In (error_line 2 (lit "'int' object has no attribute 'strip'")) (logged r).
Proof.
  exact (proj1 (number_title_logged AsciiText.isalnum AsciiText.isdigit
                  AsciiText.lower PySet.as_listed no_clock
                  [untitled] [] numbered 2024 eq_refl
                  ltac:(discriminate))).
Defined.

End BatchFacts.

(* ------------------------------------------------------------------ *)
(** ** What the matcher finds *)
(* ------------------------------------------------------------------ *)

Module MatchFacts.
Import Re Lang ReFacts.

Lemma star_loop_sound (a : re) :
  (forall prev s st, In st (rmatch a prev s) ->
                     exists m, s = m ++ snd st /\ denotes a m) ->
  forall n prev s st,
    In st (star_loop (rmatch a) n prev s) ->
    exists m, s = m ++ snd st /\ denotes (Star a) m.
Proof.
  intros Ha. induction n as [|n IH]; intros prev s st H.
  - destruct H as [<-|[]]. exists []. split; [reflexivity|].
    exists []. split; [reflexivity | constructor].
  - rewrite star_loop_S in H. apply in_app_or in H. destruct H as [H|H].
    + apply in_flat_map in H. destruct H as [st1 [H1 H2]].
      destruct (length (snd st1) <? length s); [|contradiction].
      destruct (Ha _ _ _ H1) as [m1 [E1 D1]].
      destruct (IH _ _ _ H2) as [m2 [E2 [ms [Ems Fms]]]].
      exists (m1 ++ m2). split.
      * rewrite E1 at 1. rewrite E2 at 1. now rewrite app_assoc.
      * exists (m1 :: ms). split; [simpl; now rewrite Ems|].
        now constructor.
    + destruct H as [<-|[]]. exists []. split; [reflexivity|].
      exists []. split; [reflexivity | constructor].
Qed.

(** The matcher reports the ends of texts of the pattern only. *)
Lemma rmatch_sound (r : re) :
  forall prev s st, In st (rmatch r prev s) ->
                    exists m, s = m ++ snd st /\ denotes r m.
Proof.
  induction r as [|neg items|a IHa b IHb|a IHa b IHb|a IHa|items|w];
    intros prev s st H; cbn [rmatch] in H.
  - destruct H as [<-|[]]. exists []. split; reflexivity.
  - destruct s as [|x s']; [contradiction|].
    destruct (xorb neg (in_class items x)) eqn:E; [|contradiction].
    destruct H as [<-|[]]. exists [x]. split; [reflexivity|].
    exists x. auto.
  - apply in_flat_map in H. destruct H as [st1 [H1 H2]].
    destruct (IHa _ _ _ H1) as [m1 [E1 D1]].
    destruct (IHb _ _ _ H2) as [m2 [E2 D2]].
    exists (m1 ++ m2). split.
    + rewrite E1 at 1. rewrite E2 at 1. now rewrite app_assoc.
    + exists m1, m2. auto.
  - apply in_app_or in H. destruct H as [H|H].
    + destruct (IHa _ _ _ H) as [m [E D]]. exists m. split; [exact E | now left].
    + destruct (IHb _ _ _ H) as [m [E D]]. exists m. split; [exact E | now right].
  - now apply (star_loop_sound a IHa) in H.
  - destruct prev as [x|]; [|contradiction].
    destruct (in_class items x); [|contradiction].
    destruct H as [<-|[]]. exists []. split; reflexivity.
  - match type of H with In _ (if ?c then _ else _) => destruct c end;
      [|contradiction].
    destruct H as [<-|[]]. exists []. split; reflexivity.
Qed.

Lemma first_match_sound (r : re) (prev : option cp) (s : pystr) (st : pos) :
  first_match r prev s = Some st ->
  exists m, s = m ++ snd st /\ denotes r m /\ m <> []
            /\ firstn (length s - length (snd st)) s = m.
Proof.
  intros H. pose proof (first_match_shorter _ _ _ _ H) as L.
  unfold first_match in H.
  destruct (rmatch r prev s) as [|st' l] eqn:E; [discriminate|].
  destruct (length (snd st') <? length s); [|discriminate].
  injection H as <-.
  destruct (rmatch_sound r prev s st') as [m [Es D]];
    [rewrite E; now left|].
  exists m. split; [exact Es|]. split; [exact D|].
  assert (Hl : length s = length m + length (snd st'))
    by (rewrite Es at 1; apply length_app).
  split.
  - intros ->. simpl in Hl. lia.
  - replace (length s - length (snd st')) with (length m) by lia.
    rewrite Es at 1. rewrite firstn_app, Nat.sub_diag, firstn_all.
    simpl. apply app_nil_r.
Qed.

Lemma findall_loop_sound (r : re) (n : nat) (prev : option cp) (s w : pystr) :
  In w (findall_loop r n prev s) ->
  within w s /\ denotes r w /\ w <> [].
Proof.
  revert prev s; induction n as [|n IH]; intros prev s H; [contradiction|].
  cbn [findall_loop] in H.
  destruct (first_match r prev s) as [st|] eqn:E.
  - destruct (first_match_sound _ _ _ _ E) as [m [Es [D [Ne F]]]].
    rewrite F in H. destruct H as [<-|H].
    + split; [|auto]. exists [], (snd st). exact Es.
    + destruct (IH _ _ H) as [[l [rest Ew]] [Dw Nw]].
      split; [|auto]. exists (m ++ l), rest.
      rewrite Es at 1. rewrite Ew at 1. now rewrite <- app_assoc.
  - destruct s as [|x s']; [contradiction|].
    destruct (IH _ _ H) as [[l [rest Ew]] [Dw Nw]].
    split; [|auto]. exists (x :: l), rest. simpl. now rewrite Ew at 1.
Qed.

(** Every text that [findall] returns is a piece of the subject, is not
    empty and is a text of the pattern. *)
Lemma findall_sound (r : re) (s w : pystr) :
  In w (findall r s) -> within w s /\ denotes r w /\ w <> [].
Proof. apply findall_loop_sound. Qed.

(** [[...]{n,}] *)
Lemma star_class_text (neg : bool) (items : list citem) (m : pystr) :
  denotes (Star (Cls neg items)) m ->
  Forall (fun x => xorb neg (in_class items x) = true) m.
Proof.
  intros [ms [-> F]]. induction F as [|p ps [x [-> Hx]] F IH]; simpl.
  - constructor.
  - now constructor.
Qed.

Lemma at_least_class_text (n : nat) (neg : bool) (items : list citem)
  (m : pystr) :
  denotes (AtLeast n (Cls neg items)) m ->
  n <= length m /\ Forall (fun x => xorb neg (in_class items x) = true) m.
Proof.
  revert m; induction n as [|n IH]; intros m D.
  - split; [lia | now apply star_class_text].
  - destruct D as [m1 [m2 [-> [[x [-> Hx]] D2]]]].
    destruct (IH _ D2) as [L F]. split; [simpl; lia | now constructor].
Qed.

(** A literal, and a choice of literals. *)
Lemma lit_text (w m : pystr) : denotes (Lit w) m -> m = w.
Proof.
  revert m; induction w as [|c w IH]; intros m D; [exact D|].
  destruct w as [|c' w'].
  - destruct D as [x [-> Hx]]. simpl in Hx. rewrite orb_false_r in Hx.
    apply Z.eqb_eq in Hx. now subst.
  - destruct D as [m1 [m2 [-> [[x [-> Hx]] D2]]]].
    simpl in Hx. rewrite orb_false_r in Hx. apply Z.eqb_eq in Hx. subst.
    simpl. f_equal. now apply IH.
Qed.

Lemma fold_alt_text (ws : list pystr) (r : re) (m : pystr) :
  denotes (fold_left (fun r w' => Alt r (Lit w')) ws r) m ->
  denotes r m \/ In m ws.
Proof.
  revert r; induction ws as [|w ws IH]; intros r D; [now left|].
  cbn [fold_left] in D. destruct (IH _ D) as [[H|H]|H].
  - now left.
  - right. left. symmetry. now apply lit_text.
  - right. now right.
Qed.

Lemma alternatives_text (ws : list pystr) (m : pystr) :
  ws <> [] -> denotes (Rag.alternatives ws) m -> In m ws.
Proof.
  destruct ws as [|w ws]; [congruence|]. intros _ D.
  unfold Rag.alternatives in D. destruct (fold_alt_text _ _ _ D) as [H|H].
  - left. symmetry. now apply lit_text.
  - now right.
Qed.

Lemma within_Forall (P : cp -> Prop) (w s : pystr) :
  within w s -> Forall P s -> Forall P w.
Proof.
  intros [l [r ->]] F. apply Forall_app in F. destruct F as [_ F].
  apply Forall_app in F. tauto.
Qed.

Lemma within_contains (w s : pystr) : within w s <-> contains w s = true.
Proof. symmetry. apply contains_spec. Qed.

End MatchFacts.

(* ------------------------------------------------------------------ *)
(** ** Topics and keywords *)
(* ------------------------------------------------------------------ *)

Module TermFacts.
Import Re Lang ReFacts MatchFacts CleanFacts Rag.

Local Abbreviation ascending := (StronglySorted (fun x y => PyStr.leb x y = true)).

Lemma sorted_ascending (l : list pystr) : ascending (Py.sorted l).
Proof. apply sort_sorted; [apply leb_total | apply leb_trans]. Qed.

Lemma sorted_in (l : list pystr) (x : pystr) : In x (Py.sorted l) <-> In x l.
Proof.
  split; apply Permutation_in; [|apply Permutation_sym]; apply sort_perm.
Qed.

Lemma sorted_nodup (l : list pystr) : NoDup l -> NoDup (Py.sorted l).
Proof. apply Permutation_NoDup, Permutation_sym, sort_perm. Qed.

Lemma order_in (o : PySet.order) (l : list pystr) (x : pystr) :
  PySet.valid_order o -> In x (o l) <-> In x l.
Proof.
  intros V. split; apply Permutation_in; [|apply Permutation_sym]; apply V.
Qed.

Lemma order_nodup (o : PySet.order) (l : list pystr) :
  PySet.valid_order o -> NoDup l -> NoDup (o l).
Proof. intros V. apply Permutation_NoDup, Permutation_sym, V. Qed.

Lemma of_list_in (l : list pystr) (x : pystr) : In x (PySet.of_list l) <-> In x l.
Proof. unfold PySet.of_list. rewrite update_in. simpl. tauto. Qed.

Lemma of_list_nodup (l : list pystr) : NoDup (PySet.of_list l).
Proof. apply update_nodup. constructor. Qed.

Lemma firstn_in {A : Type} (n : nat) (l : list A) (x : A) :
  In x (firstn n l) -> In x l.
Proof. intros H. rewrite <- (firstn_skipn n l). apply in_or_app. now left. Qed.

Lemma firstn_nodup {A : Type} (n : nat) (l : list A) :
  NoDup l -> NoDup (firstn n l).
Proof.
  intros H. rewrite <- (firstn_skipn n l) in H.
  now apply NoDup_app_remove_r in H.
Qed.

(** *** The topics of an article *)

Lemma fold_update_in (text : pystr) (pats : list re) (init : list pystr)
  (y : pystr) :
  In y (fold_left (fun topics p => PySet.update topics (findall p text))
                  pats init)
  <-> In y init \/ exists p, In p pats /\ In y (findall p text).
Proof.
  revert init; induction pats as [|p pats IH]; intros init; cbn [fold_left].
  - split; [auto | intros [H|[p [[] _]]]; exact H].
  - rewrite IH, update_in. split.
    + intros [[H|H]|[q [Hq H]]]; eauto.
      * right. exists p. split; [now left | exact H].
      * right. exists q. split; [now right | exact H].
    + intros [H|[q [[<-|Hq] H]]]; eauto.
Qed.

Lemma patterns_of_words : education_patterns = map alternatives topic_words.
Proof. reflexivity. Qed.

Lemma topic_words_kinds (ws : list pystr) :
  In ws topic_words -> ws = exam_names \/ incl ws chinese_topic_words.
Proof.
  intros H. unfold topic_words in H.
  repeat (destruct H as [<-|H];
          [first [ left; reflexivity
                 | right; intros x Hx;
                   repeat (destruct Hx as [<-|Hx];
                           [vm_compute; repeat (first [left; reflexivity | right])
                           |]);
                   contradiction ]
          |]).
  contradiction.
Qed.

Lemma exam_names_capital (w : pystr) :
  In w exam_names -> Exists (fun c => capital c = true) w.
Proof.
  intros H. repeat (destruct H as [<-|H]; [now constructor|]). contradiction.
Qed.

Lemma chinese_words_stripped :
  Forall (fun w => strip w = w /\ w <> []) chinese_topic_words.
Proof. repeat constructor; discriminate. Qed.

Section Topics.

Variable py_lower : pystr -> pystr.
Variable set_order : PySet.order.
Hypothesis set_order_valid : PySet.valid_order set_order.

Local Abbreviation _extract_comprehensive_topics :=
  (Rag._extract_comprehensive_topics py_lower set_order).

(** Where a topic comes from. *)
Lemma topic_origin (a : article) (t : pystr) :
  In t (_extract_comprehensive_topics a) ->
  2 <= length t /\ ~ In t stopwords
  /\ exists raw,
       t = strip raw
       /\ (In raw (Re.split category_sep (a_categories a))
           \/ exists ws,
                In ws topic_words /\ In raw ws
                /\ within raw (py_lower (py_str (a_title a) ++ lit " "
                                         ++ py_str (a_content a)))).
Proof.
  unfold Rag._extract_comprehensive_topics. intros H.
  apply (proj1 (sorted_in _ _)) in H.
  apply (proj1 (order_in _ _ _ set_order_valid)) in H.
  apply (proj1 (of_list_in _ _)) in H. apply in_flat_map in H.
  destruct H as [topic [Htopic H]].
  destruct (Py.truthy (strip topic) && (1 <? length (strip topic))
            && negb (PySet.mem (strip topic) stopwords)) eqn:E;
    [|contradiction].
  destruct H as [<-|[]].
  apply andb_true_iff in E. destruct E as [E Es].
  apply andb_true_iff in E. destruct E as [_ El].
  apply Nat.ltb_lt in El. split; [lia|]. split.
  - intros Hin. apply mem_spec in Hin. rewrite Hin in Es. discriminate.
  - apply (proj1 (order_in _ _ _ set_order_valid)) in Htopic.
    apply (proj1 (fold_update_in _ _ _ _)) in Htopic. destruct Htopic as [Hc|[p [Hp Hf]]].
    + destruct (Py.truthy (a_categories a)); [|contradiction].
      apply (proj1 (update_in _ _ _)) in Hc. destruct Hc as [[]|Hc].
      apply filter_In in Hc. destruct Hc as [Hc _].
      apply in_map_iff in Hc. destruct Hc as [raw [<- Hraw]].
      exists raw. split; [apply strip_idem | now left].
    + rewrite patterns_of_words in Hp. apply in_map_iff in Hp.
      destruct Hp as [ws [<- Hws]].
      apply findall_sound in Hf. destruct Hf as [W [D _]].
      exists topic. split; [reflexivity|]. right. exists ws.
      split; [exact Hws|]. split; [|exact W].
      apply alternatives_text; [|exact D].
      intros ->. unfold topic_words in Hws.
      repeat (destruct Hws as [Hws|Hws]; [discriminate|]). contradiction.
Qed.

(** X7.  The topics of an article are in ascending order and without
    repetition; each has at least two characters, no whitespace at its
    ends, and is no stopword. *)
Theorem topics_sorted_and_filtered (a : article) :
  ascending (_extract_comprehensive_topics a)
  /\ NoDup (_extract_comprehensive_topics a)
  /\ Forall (fun t => 2 <= length t /\ strip t = t /\ ~ In t stopwords)
            (_extract_comprehensive_topics a).
Proof.
  split; [apply sorted_ascending|]. split.
  - apply sorted_nodup, order_nodup; [exact set_order_valid|].
    apply of_list_nodup.
  - apply Forall_forall. intros t Ht.
    destruct (topic_origin a t Ht) as [L [S [raw [E _]]]].
    split; [exact L|]. split; [|exact S].
    rewrite E. apply strip_idem.
Qed.

(** X8.  The text of the title and the body is lower-cased before the topic
    patterns are tried, and the pattern of the examination names is written
    in capitals: it finds nothing.  So a topic is a piece of the category
    string or one of the Chinese words of the other nine patterns. *)
Theorem exam_names_never_found (a : article) :
  (forall s, Forall (fun c => capital c = false) (py_lower s)) ->
  (forall s, findall (alternatives exam_names) (py_lower s) = [])
  /\ Forall (fun t =>
               (exists raw, In raw (Re.split category_sep (a_categories a))
                            /\ t = strip raw)
               \/ In t chinese_topic_words)
            (_extract_comprehensive_topics a).
Proof.
  intros Hlow.
  assert (No : forall s w, In w exam_names -> ~ within w (py_lower s)).
  { intros s w Hw W. apply exam_names_capital in Hw.
    apply (within_Forall _ _ _ W) in Hlow.
    apply Exists_exists in Hw. destruct Hw as [c [Hc Hcap]].
    rewrite Forall_forall in Hlow. rewrite (Hlow c Hc) in Hcap.
    discriminate. }
  split.
  - intros s. destruct (findall (alternatives exam_names) (py_lower s))
      as [|w l] eqn:E; [reflexivity|].
    assert (Hw : In w (findall (alternatives exam_names) (py_lower s)))
      by (rewrite E; now left).
    apply findall_sound in Hw. destruct Hw as [W [D _]].
    apply alternatives_text in D; [|discriminate].
    exfalso. exact (No s w D W).
  - apply Forall_forall. intros t Ht.
    destruct (topic_origin a t Ht) as [_ [_ [raw [E [Hc|[ws [Hws [Hraw W]]]]]]]].
    + left. eauto.
    + right. destruct (topic_words_kinds ws Hws) as [->|Hi].
      * exfalso. exact (No _ raw Hraw W).
      * apply Hi in Hraw. pose proof chinese_words_stripped as F.
        rewrite Forall_forall in F. destruct (F raw Hraw) as [Fs _].
        now rewrite E, Fs.
Qed.

End Topics.

(** *** The keywords of an article *)

Section Keywords.

Variable isdigit : cp -> bool.
Variable set_order : PySet.order.
Hypothesis set_order_valid : PySet.valid_order set_order.

(** X9.  The keywords of a text are in ascending order and without repetition;
    they are the matches of the six patterns, stripped, together with the
    frequent terms. *)
Theorem keywords_sorted_union (text : pystr) :
  let ks := Rag._extract_keywords isdigit set_order text in
  ascending ks /\ NoDup ks
  /\ forall k, In k ks
               <-> In k (pattern_matches isdigit text)
                   \/ In k (frequent_terms text).
Proof.
  unfold Rag._extract_keywords. cbv zeta.
  split; [apply sorted_ascending|]. split.
  - apply sorted_nodup, order_nodup; [exact set_order_valid|].
    repeat apply update_nodup. constructor.
  - intros k. rewrite sorted_in, (order_in _ _ _ set_order_valid).
    rewrite !update_in. simpl. tauto.
Qed.

End Keywords.

(** *** The frequency table *)

Lemma freq_count_word (w x : pystr) (wf : list (pystr * nat)) :
  freq w (count_word x wf) = freq w wf + (if PyStr.eqb w x then 1 else 0).
Proof.
  induction wf as [|[k n] wf IH]; cbn [count_word freq].
  - destruct (PyStr.eqb w x); reflexivity.
  - destruct (PyStrFacts.eqb_spec x k) as [->|Nxk]; cbn [freq].
    + destruct (PyStr.eqb w k); lia.
    + destruct (PyStrFacts.eqb_spec w k) as [->|Nwk].
      * destruct (PyStrFacts.eqb_spec k x); [congruence | lia].
      * exact IH.
Qed.

Lemma keys_count_word (x : pystr) (wf : list (pystr * nat)) :
  map fst (count_word x wf)
  = if PySet.mem x (map fst wf) then map fst wf else map fst wf ++ [x].
Proof.
  induction wf as [|[k n] wf IH]; cbn [count_word map fst]; [reflexivity|].
  unfold PySet.mem. cbn [existsb].
  destruct (PyStr.eqb x k); cbn [map fst orb]; [reflexivity|].
  rewrite IH. unfold PySet.mem. destruct (existsb _ _); reflexivity.
Qed.

Lemma keys_nodup_count_word (x : pystr) (wf : list (pystr * nat)) :
  NoDup (map fst wf) -> NoDup (map fst (count_word x wf)).
Proof.
  intros H. rewrite keys_count_word.
  change (NoDup (PySet.add x (map fst wf))). now apply add_nodup.
Qed.

Lemma freq_of_entry (w : pystr) (n : nat) (wf : list (pystr * nat)) :
  NoDup (map fst wf) -> In (w, n) wf -> freq w wf = n.
Proof.
  induction wf as [|[k m] wf IH]; intros N H; [contradiction|].
  cbn [map fst] in N. inversion N as [|? ? Nk Nr]; subst.
  cbn [freq]. destruct H as [E|H].
  - injection E as -> ->. now rewrite eqb_refl.
  - destruct (PyStrFacts.eqb_spec w k) as [->|_]; [|now apply IH].
    exfalso. apply Nk. apply in_map_iff. exists (k, n). auto.
Qed.

Lemma tally_snoc {A B : Type} (f : B -> A -> B) (l : list A) (x : A) (b : B) :
  fold_left f (l ++ [x]) b = f (fold_left f l b) x.
Proof. now rewrite fold_left_app. Qed.

Lemma fold_countable (words : list pystr) (wf : list (pystr * nat)) :
  fold_left (fun word_freq word =>
               if negb (PySet.mem word stopwords) && (1 <? length word)
               then count_word word word_freq else word_freq)
            words wf
  = fold_left (fun word_freq word => count_word word word_freq)
              (filter countable words) wf.
Proof.
  revert wf; induction words as [|x l IH]; intros wf; [reflexivity|].
  cbn [fold_left filter]. unfold countable at 1.
  destruct (negb (PySet.mem x stopwords) && (1 <? length x));
    cbn [fold_left]; apply IH.
Qed.

Lemma tally_counts (l : list pystr) :
  let wf := fold_left (fun word_freq word => count_word word word_freq) l [] in
  NoDup (map fst wf) /\ forall w, freq w wf = occurrences w l.
Proof.
  induction l as [|x l IH] using rev_ind.
  - split; [constructor | reflexivity].
  - cbv zeta in *. destruct IH as [N F]. rewrite tally_snoc. split.
    + now apply keys_nodup_count_word.
    + intros w. rewrite freq_count_word, F. unfold occurrences.
      rewrite filter_app, length_app. cbn [filter].
      destruct (PyStr.eqb w x); reflexivity.
Qed.

Lemma occurrences_countable (w : pystr) (l : list pystr) :
  countable w = true ->
  occurrences w (filter countable l) = occurrences w l.
Proof.
  intros Hw. unfold occurrences. induction l as [|x l IH]; [reflexivity|].
  cbn [filter]. destruct (PyStrFacts.eqb_spec w x) as [<-|N].
  - rewrite Hw. cbn [filter]. rewrite eqb_refl. cbn [length]. now f_equal.
  - destruct (countable x); cbn [filter]; [|exact IH].
    destruct (PyStrFacts.eqb_spec w x); [congruence | exact IH].
Qed.

Lemma freq_positive (w : pystr) (wf : list (pystr * nat)) :
  0 < freq w wf -> In (w, freq w wf) wf.
Proof.
  induction wf as [|[k n] wf IH]; cbn [freq]; [lia|].
  destruct (PyStrFacts.eqb_spec w k) as [->|N]; [now left|].
  intros H. right. now apply IH.
Qed.

Lemma filter_keys_nodup {A : Type} (q : pystr * A -> bool)
  (l : list (pystr * A)) :
  NoDup (map fst l) -> NoDup (map fst (filter q l)).
Proof.
  induction l as [|x l IH]; intros H; [constructor|].
  cbn [map] in H. inversion H as [|? ? Nx Nl]; subst. cbn [filter].
  destruct (q x); [|now apply IH]. cbn [map]. constructor; [|now apply IH].
  intros Hin. apply Nx. apply in_map_iff in Hin.
  destruct Hin as [y [Ey Hy]]. apply filter_In in Hy.
  apply in_map_iff. exists y. tauto.
Qed.

Lemma term_text (w : pystr) :
  denotes term w ->
  (2 <= length w /\ Forall (fun c => in_range 0x4e00%Z 0x9fff%Z c = true) w)
  \/ (3 <= length w
      /\ Forall (fun c => in_range 0x41%Z 0x5a%Z c || in_range 0x61%Z 0x7a%Z c = true) w).
Proof.
  intros [D|D]; apply at_least_class_text in D; destruct D as [L F];
    [left | right]; (split; [exact L|]);
    (eapply Forall_impl; [|exact F]); intros c Hc; simpl in Hc;
    now rewrite ?orb_false_r in Hc.
Qed.

(** The table that [frequent_terms] sorts. *)
Lemma frequent_terms_table (text : pystr) :
  exists wf,
    NoDup (map fst wf)
    /\ (forall w, freq w wf
                  = occurrences w (filter countable (findall term text)))
    /\ frequent_terms text
       = map fst (filter (fun wf0 : pystr * nat => 2 <? snd wf0)
                    (firstn 20
                       (Py.sort_stable
                          (fun x y : pystr * nat => snd y <=? snd x) wf))).
Proof.
  unfold frequent_terms. cbv zeta. rewrite fold_countable.
  destruct (tally_counts (filter countable (findall term text))) as [N F].
  eexists. split; [exact N|]. split; [exact F | reflexivity].
Qed.

(** X10.  A frequent term is found three times or more in the text, among the
    terms that the pattern finds one after the other; it is no stopword;
    it is made of two or more Chinese characters or of three or more Latin
    letters; and no term is listed twice. *)
Theorem frequent_terms_counted (text : pystr) :
  NoDup (frequent_terms text)
  /\ Forall (fun w =>
               3 <= occurrences w (findall term text)
               /\ ~ In w stopwords
               /\ within w text
               /\ ((2 <= length w
                    /\ Forall (fun c => in_range 0x4e00%Z 0x9fff%Z c = true) w)
                   \/ (3 <= length w
                       /\ Forall (fun c => in_range 0x41%Z 0x5a%Z c
                                           || in_range 0x61%Z 0x7a%Z c = true) w)))
            (frequent_terms text).
Proof.
  destruct (frequent_terms_table text) as [wf [N [F E]]]. rewrite E.
  set (sorted_table := Py.sort_stable _ wf).
  assert (P : Permutation sorted_table wf) by apply sort_perm.
  assert (Ns : NoDup (map fst sorted_table)).
  { eapply Permutation_NoDup; [|exact N].
    apply Permutation_map, Permutation_sym, P. }
  split.
  - apply filter_keys_nodup. rewrite <- firstn_map. now apply firstn_nodup.
  - apply Forall_forall. intros w Hw. apply in_map_iff in Hw.
    destruct Hw as [[w' n] [Ew Hin]]. cbn [fst] in Ew. subst w'.
    apply filter_In in Hin. destruct Hin as [Hin Hn]. cbn [snd] in Hn.
    apply Nat.ltb_lt in Hn. apply firstn_in in Hin.
    apply (Permutation_in _ P) in Hin.
    pose proof (freq_of_entry _ _ _ N Hin) as Hf. rewrite F in Hf.
    assert (Hc : In w (filter countable (findall term text))).
    { unfold occurrences in Hf.
      destruct (filter (PyStr.eqb w) (filter countable (findall term text)))
        as [|y l] eqn:Ey; [simpl in Hf; lia|].
      assert (Hy : In y (filter (PyStr.eqb w)
                           (filter countable (findall term text))))
        by (rewrite Ey; now left).
      apply filter_In in Hy. destruct Hy as [Hy Heq].
      destruct (PyStrFacts.eqb_spec w y); [now subst | discriminate]. }
    apply filter_In in Hc. destruct Hc as [Hfound Hcount].
    rewrite (occurrences_countable _ _ Hcount) in Hf.
    apply findall_sound in Hfound. destruct Hfound as [W [D _]].
    split; [lia|]. split; [|split; [exact W | now apply term_text]].
    intros Hs. apply mem_spec in Hs. unfold countable in Hcount.
    rewrite Hs in Hcount. discriminate.
Qed.

(** *** The keywords of a school *)

Lemma word4_text (isword : cp -> bool) (w : pystr) :
  denotes (School.word4 isword) w ->
  4 <= length w /\ Forall (fun c => isword c = true) w.
Proof.
  intros [m1 [m2 [-> [-> [m3 [m4 [-> [D ->]]]]]]]].
  apply at_least_class_text in D. destruct D as [L F].
  rewrite app_nil_r. cbn [app]. split; [exact L|].
  eapply Forall_impl; [|exact F]. intros c Hc. simpl in Hc.
  now rewrite orb_false_r in Hc.
Qed.

Section SchoolKeywords.

Variable py_lower : pystr -> pystr.
Variable isword : cp -> bool.
Variable set_order : PySet.order.
Hypothesis set_order_valid : PySet.valid_order set_order.

Lemma school_keywords_of (source : pystr) (k : pystr) :
  In k (firstn 20
          (set_order
             (PySet.of_list
                (filter (fun word => negb (PySet.mem word School.stopwords))
                        (findall (School.word4 isword) source))))) ->
  4 <= length k /\ Forall (fun c => isword c = true) k
  /\ ~ In k School.stopwords /\ within k source.
Proof.
  intros H. apply firstn_in in H.
  apply (proj1 (order_in _ _ _ set_order_valid)) in H.
  apply (proj1 (of_list_in _ _)) in H.
  apply filter_In in H. destruct H as [Hf Hs].
  apply findall_sound in Hf. destruct Hf as [W [D _]].
  destruct (word4_text _ _ D) as [L F].
  split; [exact L|]. split; [exact F|]. split; [|exact W].
  intros Hin. apply mem_spec in Hin. rewrite Hin in Hs. discriminate.
Qed.

(** X19.  A keyword of a school is a run of at least four word characters of the
    lower-cased text -- cleaned first in optimize_existing_schools.py, as
    it is in linkedu_school_scraper.py -- and none of the seven stopwords;
    no keyword is listed twice. *)
Theorem school_keywords_are_words (text : pystr) :
  NoDup (School._extract_keywords py_lower isword set_order text)
  /\ Forall (fun k =>
               4 <= length k /\ Forall (fun c => isword c = true) k
               /\ ~ In k School.stopwords
               /\ within k (py_lower (School._clean_text text)))
            (School._extract_keywords py_lower isword set_order text)
  /\ NoDup (School._extract_keywords_scraper py_lower isword set_order text)
  /\ Forall (fun k =>
               4 <= length k /\ Forall (fun c => isword c = true) k
               /\ ~ In k School.stopwords
               /\ within k (py_lower text))
            (School._extract_keywords_scraper py_lower isword set_order text).
Proof.
  unfold School._extract_keywords, School._extract_keywords_scraper.
  destruct text as [|x t]; [repeat split; constructor|]. cbv zeta.
  repeat split;
    try (apply firstn_nodup, order_nodup;
         [exact set_order_valid | apply of_list_nodup]);
    apply Forall_forall; intros k Hk; now apply school_keywords_of.
Qed.

End SchoolKeywords.

(** *** Instances *)

Lemma topics_sorted_and_filtered_witness :
  NoDup (Rag._extract_comprehensive_topics AsciiText.lower PySet.reversed
           sample_article).
Proof.
  exact (proj1 (proj2 (topics_sorted_and_filtered AsciiText.lower
                         PySet.reversed valid_reversed sample_article))).
Defined.

Lemma ascii_lower_no_capital (s : pystr) :
  Forall (fun c => capital c = false) (AsciiText.lower s).
Proof.
  unfold AsciiText.lower. apply Forall_forall. intros c Hc.
  apply in_map_iff in Hc. destruct Hc as [x [<- _]].
  unfold ascii_lower, capital, in_range.
  destruct (Z.leb_spec 65 x), (Z.leb_spec x 90); cbn [andb];
    destruct (Z.leb_spec 65 (x + 32)), (Z.leb_spec (x + 32) 90);
    destruct (Z.leb_spec 65 x), (Z.leb_spec x 90); cbn [andb];
    try reflexivity; lia.
Qed.

Lemma exam_names_never_found_witness :
  findall (alternatives exam_names)
          (AsciiText.lower (lit "IELTS and TOEFL scores")) = [].
Proof.
  exact (proj1 (exam_names_never_found AsciiText.lower PySet.as_listed
                  valid_as_listed sample_article ascii_lower_no_capital)
               (lit "IELTS and TOEFL scores")).
Defined.

Lemma keywords_sorted_union_witness :
  NoDup (Rag._extract_keywords AsciiText.isdigit PySet.reversed acronyms).
Proof.
  exact (proj1 (proj2 (keywords_sorted_union AsciiText.isdigit PySet.reversed
                         valid_reversed acronyms))).
Defined.

Lemma school_keywords_permuted_witness :
  Permutation
    (School._extract_keywords AsciiText.lower AsciiText.isword
       PySet.as_listed (lit "alpha beta"))
    (School._extract_keywords AsciiText.lower AsciiText.isword
       PySet.reversed (lit "alpha beta")).
Proof.
  apply (RagFacts.school_keywords_permuted AsciiText.lower PySet.as_listed
           PySet.reversed AsciiText.isword (lit "alpha beta")
           valid_as_listed valid_reversed).
  vm_compute. repeat constructor.
Defined.

Lemma school_keywords_are_words_witness :
  NoDup (School._extract_keywords AsciiText.lower AsciiText.isword
           PySet.reversed School.many_words).
Proof.
  exact (proj1 (school_keywords_are_words AsciiText.lower AsciiText.isword
                  PySet.reversed valid_reversed School.many_words)).
Defined.

End TermFacts.

(* ------------------------------------------------------------------ *)
(** ** Sentences, packed and joined again *)
(* ------------------------------------------------------------------ *)

Module SentenceFacts.
Import Re Scan Loops Sentences ReFacts CleanFacts LoopFacts CleanerFacts.
Import Subjects.

(** *** Texts without whitespace at their ends *)

Lemma ends_one (x : cp) : ends_unspaced [x] <-> isspace x = false.
Proof. reflexivity. Qed.

Lemma ends_cons (x : cp) (s : pystr) :
  s <> [] -> (ends_unspaced (x :: s) <-> ends_unspaced s).
Proof.
  intros H. unfold ends_unspaced. cbn [rev].
  destruct (rev s) as [|y t] eqn:E; [|reflexivity].
  exfalso. apply H. rewrite <- (rev_involutive s), E. reflexivity.
Qed.

Lemma ends_app (a b : pystr) :
  b <> [] -> ends_unspaced b -> ends_unspaced (a ++ b).
Proof.
  intros Hb H. unfold ends_unspaced in *. rewrite rev_app_distr.
  destruct (rev b) as [|y t] eqn:E; [|exact H].
  exfalso. apply Hb. rewrite <- (rev_involutive b), E. reflexivity.
Qed.

Lemma strip_fixed_iff (s : pystr) :
  strip s = s <-> starts_unspaced s /\ ends_unspaced s.
Proof.
  split.
  - intros H. split.
    + rewrite <- H. apply rstrip_starts, dropWhile_starts.
    + unfold ends_unspaced. rewrite <- H. unfold strip, rstrip.
      rewrite rev_involutive. apply dropWhile_starts.
  - intros [Hs He]. unfold strip, lstrip, rstrip.
    rewrite (dropWhile_unspaced _ Hs), (dropWhile_unspaced _ He).
    apply rev_involutive.
Qed.

Lemma solid_iff (s : pystr) :
  solid s <-> s <> [] /\ starts_unspaced s /\ ends_unspaced s.
Proof. unfold solid. rewrite strip_fixed_iff. tauto. Qed.

Lemma solid_joined (a b : pystr) : solid a -> solid b -> solid (a ++ SP :: b).
Proof.
  rewrite !solid_iff. intros [Na [Sa Ea]] [Nb [Sb Eb]]. split; [|split].
  - destruct a; discriminate.
  - destruct a; [congruence | exact Sa].
  - apply ends_app; [discriminate|]. now apply ends_cons.
Qed.

(** *** The separator of sentences *)

Lemma first_match_sentence_end (prev : option cp) (s : pystr) :
  option_map snd (first_match sentence_end prev s)
  = if after_end_mark prev then ws_run s else None.
Proof.
  unfold first_match, sentence_end. rewrite rmatch_seq.
  destruct prev as [x|]; [|reflexivity].
  change (rmatch (Behind [One 46%Z; One 33%Z; One 63%Z]) (Some x) s)
    with (if end_mark x then [(Some x, s)] else []).
  cbn [after_end_mark]. destruct (end_mark x); [|reflexivity].
  cbn [flat_map fst snd]. rewrite app_nil_r.
  exact (first_match_ws_run (Some x) s).
Qed.

Lemma end_mark_not_space (x : cp) : end_mark x = true -> isspace x = false.
Proof.
  unfold end_mark. cbn [in_class existsb citem_mem].
  rewrite !orb_true_iff, !Z.eqb_eq.
  intros [->|[->|[->|H]]]; try reflexivity. discriminate.
Qed.

Lemma chain_single_unspaced (p p' : option cp) (s : pystr) :
  starts_unspaced s -> chain single p s = chain single p' s.
Proof.
  destruct s as [|b s]; [reflexivity|]. cbn [starts_unspaced chain].
  intros H. unfold single. now rewrite H.
Qed.

Lemma join_cons_head (sep : pystr) (x : cp) (p : pystr) (r : list pystr) :
  join sep ((x :: p) :: r) = x :: join sep (p :: r).
Proof. destruct r; reflexivity. Qed.

Lemma join_nil_cons (sep p : pystr) (r : list pystr) :
  join sep ([] :: p :: r) = sep ++ join sep (p :: r).
Proof. reflexivity. Qed.

(** The pieces between the separators of a text whose whitespace is single
    plain spaces: joined by spaces they give the text back, and every
    piece after the first is solid. *)
Lemma split_sentences (n : nat) (prev : option cp) (s : pystr) :
  length s < n -> plain s -> chain single prev s = true -> ends_unspaced s ->
  exists p rest,
    split_loop sentence_end n prev s = p :: rest
    /\ join [SP] (p :: rest) = s
    /\ Forall solid rest
    /\ ends_unspaced p
    /\ (p = [] -> s = [] \/ after_end_mark prev = true)
    /\ (starts_unspaced s -> starts_unspaced p /\ (s <> [] -> p <> [])).
Proof.
  revert prev s; induction n as [|n IH]; intros prev s Hn P C E; [lia|].
  destruct s as [|x s'].
  - exists [], []. cbn [split_loop]. rewrite first_match_nil.
    repeat split; auto; congruence.
  - simpl in Hn. inversion P as [|? ? Px Ps]; subst.
    cbn [chain] in C. apply andb_true_iff in C. destruct C as [Cx Cs].
    pose proof (first_match_sentence_end prev (x :: s')) as M.
    cbn [split_loop].
    destruct (first_match sentence_end prev (x :: s')) as [st|].
    + (* a separator: one plain space *)
      cbn [option_map] in M.
      destruct (after_end_mark prev) eqn:A; [|discriminate].
      cbn [ws_run] in M. destruct (isspace x) eqn:Ex; [|discriminate].
      assert (Us : starts_unspaced s').
      { destruct s' as [|b t]; [exact I|]. cbn [chain] in Cs.
        apply andb_true_iff in Cs. destruct Cs as [Cb _].
        unfold single in Cb. simpl in Cb. rewrite Ex, andb_true_r in Cb.
        cbn [starts_unspaced]. now destruct (isspace b). }
      rewrite (dropWhile_unspaced _ Us) in M. injection M as M.
      assert (Ns : s' <> []).
      { intros ->. apply ends_one in E. congruence. }
      destruct (IH (fst st) s' ltac:(lia) Ps
                  ltac:(rewrite (chain_single_unspaced _ (Some x) _ Us); exact Cs)
                  ltac:(now apply (ends_cons x)))
        as [p [rest [Hsp [Hj [Hr [He [_ Hs]]]]]]].
      destruct (Hs Us) as [Hs1 Hs2].
      exists [], (p :: rest). rewrite M, Hsp. split; [reflexivity|].
      split; [|split; [|split; [|split]]].
      * rewrite join_nil_cons, Hj. cbn [app]. f_equal. symmetry. now apply Px.
      * constructor; [|exact Hr]. apply solid_iff. auto.
      * exact I.
      * auto.
      * cbn [starts_unspaced]. intros H. congruence.
    + (* no separator here *)
      assert (Es : ends_unspaced s').
      { destruct s' as [|b t]; [exact I|].
        apply (ends_cons x); [discriminate | exact E]. }
      destruct (IH (Some x) s' ltac:(lia) Ps Cs Es)
        as [p [rest [Hsp [Hj [Hr [He [Hp _]]]]]]].
      exists (x :: p), rest. rewrite Hsp. split; [reflexivity|].
      split; [|split; [|split; [|split]]].
      * now rewrite join_cons_head, Hj.
      * exact Hr.
      * destruct p as [|y p'].
        -- apply ends_one. destruct (Hp eq_refl) as [->|A].
           ++ now apply ends_one in E.
           ++ now apply end_mark_not_space.
        -- apply ends_cons; [discriminate | exact He].
      * discriminate.
      * intros H. split; [exact H | discriminate].
Qed.

Lemma clean_text_shape (text : pystr) :
  plain (clean_text text) /\ chain single None (clean_text text) = true
  /\ strip (clean_text text) = clean_text text.
Proof.
  rewrite !subjects_clean_eq. split; [|split].
  - apply strip_Forall, C_plain.
  - apply strip_chain_single, C_single.
  - apply strip_idem.
Qed.

(** The sentences of a cleaned text. *)
Lemma sentences_of_clean_text (text : pystr) :
  clean_text text <> [] ->
  join [SP] (Re.split sentence_end (clean_text text)) = clean_text text
  /\ Forall solid (Re.split sentence_end (clean_text text)).
Proof.
  intros Ne. destruct (clean_text_shape text) as [P [C S]].
  apply strip_fixed_iff in S. destruct S as [Us Ue].
  destruct (split_sentences (S (length (clean_text text))) None
              (clean_text text) ltac:(lia) P C Ue)
    as [p [rest [Hsp [Hj [Hr [He [_ Hs]]]]]]].
  destruct (Hs Us) as [Hs1 Hs2]. unfold Re.split. rewrite Hsp.
  split; [exact Hj|]. constructor; [|exact Hr].
  apply solid_iff. auto.
Qed.

(** *** The packing loop *)

Section Subject.

Variables english_name english_name_lower : pystr.

Local Abbreviation pack := (Subjects.pack english_name english_name_lower).
Local Abbreviation flush := (Subjects.flush english_name english_name_lower).
Local Abbreviation pack_sentences :=
  (Subjects.pack_sentences english_name english_name_lower).
Local Abbreviation content_chunk :=
  (Subjects.content_chunk english_name english_name_lower).
Local Abbreviation optimize_for_rag_content :=
  (Subjects.optimize_for_rag_content english_name english_name_lower).

Lemma join_snoc (sep : pystr) (l : list pystr) (x : pystr) :
  join sep (l ++ [x])
  = match l with [] => x | _ => join sep l ++ sep ++ x end.
Proof.
  induction l as [|a l IH]; [reflexivity|].
  destruct l as [|b l]; [reflexivity|].
  change (join sep ((a :: b :: l) ++ [x]))
    with (a ++ sep ++ join sep ((b :: l) ++ [x])).
  rewrite IH. change (join sep (a :: b :: l)) with (a ++ sep ++ join sep (b :: l)).
  now rewrite <- !app_assoc.
Qed.

(** What the loop keeps: the texts it holds, joined by spaces, are the
    sentences it has read, joined by spaces; its buffer is empty before the
    first sentence only, and solid after. *)
Lemma pack_keeps (todo : list pystr) (st : packing) (done : list pystr) :
  Forall solid todo ->
  join [SP] (texts st) = join [SP] done ->
  Forall solid (map content (chunks st)) ->
  (current_chunk st = [] -> chunks st = [] /\ done = []) ->
  (current_chunk st <> [] -> solid (current_chunk st) /\ done <> []) ->
  let st' := fold_left pack todo st in
  join [SP] (texts st') = join [SP] (done ++ todo)
  /\ Forall solid (map content (chunks st'))
  /\ (current_chunk st' = [] -> chunks st' = [])
  /\ (current_chunk st' <> [] -> solid (current_chunk st')).
Proof.
  revert st done; induction todo as [|s todo IH];
    intros st done Ft Hj Hc He Hn; cbn [fold_left].
  - rewrite app_nil_r. split; [exact Hj|]. split; [exact Hc|].
    split; [intros H; now apply He | intros H; now apply Hn].
  - inversion Ft as [|? ? Fs Ft']; subst.
    replace (done ++ s :: todo) with ((done ++ [s]) ++ todo)
      by (now rewrite <- app_assoc).
    assert (Ns : s <> []) by (destruct Fs; assumption).
    destruct (current_chunk st) as [|c cur] eqn:Ecur.
    + (* the first sentence *)
      destruct (He eq_refl) as [Hch ->].
      apply IH; auto.
      * unfold Subjects.pack, texts. rewrite Ecur, Hch.
        cbn [Py.truthy andb length Nat.add chunks current_chunk map app].
        rewrite andb_false_r. cbn [chunks current_chunk map app].
        destruct s; [congruence | reflexivity].
      * unfold Subjects.pack. rewrite Ecur. cbn [Py.truthy].
        rewrite andb_false_r. exact Hc.
      * unfold Subjects.pack. rewrite Ecur. cbn [Py.truthy].
        rewrite andb_false_r. cbn [current_chunk]. congruence.
      * unfold Subjects.pack. rewrite Ecur. cbn [Py.truthy].
        rewrite andb_false_r. cbn [current_chunk]. intros _.
        split; [exact Fs | discriminate].
    + destruct (Hn ltac:(discriminate)) as [Sc Nd].
      assert (Hj' : join [SP] (map content (chunks st) ++ [c :: cur])
                    = join [SP] done).
      { unfold texts in Hj. now rewrite Ecur in Hj. }
      assert (Hd : join [SP] (done ++ [s]) = join [SP] done ++ SP :: s).
      { rewrite join_snoc. destruct done; [congruence | reflexivity]. }
      apply IH; auto.
      * unfold Subjects.pack, texts. rewrite Ecur. cbn [Py.truthy].
        rewrite andb_true_r.
        destruct (1000 <? length (c :: cur) + length s);
          cbn [chunks current_chunk].
        -- (* the buffer is emitted *)
           rewrite map_app. cbn [map content Subjects.content_chunk].
           destruct Sc as [_ Sc]. rewrite Sc.
           destruct s as [|y s0]; [congruence|]. cbn [Py.truthy].
           rewrite join_snoc.
           match goal with
           | |- match ?t with _ => _ end = _ => destruct t eqn:El
           end; [destruct (map content (chunks st)); discriminate|].
           rewrite <- El. etransitivity; [|symmetry; exact Hd].
           apply (f_equal (fun t => t ++ SP :: y :: s0)). exact Hj'.
        -- (* the sentence joins the buffer *)
           cbn [app Py.truthy]. rewrite Hd, <- Hj', !join_snoc.
           destruct (map content (chunks st)); cbn [app];
             now rewrite <- ?app_assoc.
      * unfold Subjects.pack. rewrite Ecur. cbn [Py.truthy].
        rewrite andb_true_r.
        destruct (1000 <? length (c :: cur) + length s);
          cbn [chunks]; [|exact Hc].
        rewrite map_app. apply Forall_app. split; [exact Hc|].
        cbn [map content Subjects.content_chunk]. destruct Sc as [N Sc].
        rewrite Sc. constructor; [|constructor]. split; assumption.
      * unfold Subjects.pack. rewrite Ecur. cbn [Py.truthy].
        rewrite andb_true_r.
        destruct (1000 <? length (c :: cur) + length s);
          cbn [current_chunk]; [congruence | discriminate].
      * unfold Subjects.pack. rewrite Ecur. cbn [Py.truthy].
        rewrite andb_true_r. intros _.
        destruct (1000 <? length (c :: cur) + length s);
          cbn [current_chunk].
        -- split; [exact Fs|]. destruct done; discriminate.
        -- split; [|destruct done; discriminate].
           change (c :: cur ++ lit " " ++ s) with ((c :: cur) ++ SP :: s).
           now apply solid_joined.
Qed.

Lemma flush_texts (st : packing) :
  (current_chunk st <> [] -> solid (current_chunk st)) ->
  map content (flush st) = texts st.
Proof.
  intros H. unfold Subjects.flush, texts.
  destruct (current_chunk st) as [|c cur] eqn:E; cbn [Py.truthy].
  - now rewrite app_nil_r.
  - rewrite map_app. cbn [map content Subjects.content_chunk].
    destruct (H ltac:(discriminate)) as [_ S]. now rewrite S.
Qed.

(** Packing loses nothing: the texts of the chunks of solid sentences,
    joined by spaces, are the sentences joined by spaces, and no chunk has
    an empty text or whitespace at an end of it. *)
Lemma packed_sentences_joined (sentences : list pystr) :
  Forall solid sentences ->
  join [SP] (map content (pack_sentences sentences)) = join [SP] sentences
  /\ Forall solid (map content (pack_sentences sentences)).
Proof.
  intros F. unfold Subjects.pack_sentences.
  destruct (pack_keeps sentences
              {| chunks := []; current_chunk := []; chunk_count := 0 |}
              [] F eq_refl ltac:(constructor)
              ltac:(intros _; split; reflexivity)
              ltac:(intros H; exfalso; now apply H))
    as [Hj [Hc [He Hn]]].
  cbv zeta in *. cbn [app] in Hj.
  set (st := fold_left pack sentences _) in *.
  rewrite (flush_texts st Hn). split; [exact Hj|].
  unfold texts. apply Forall_app. split; [exact Hc|].
  destruct (current_chunk st) as [|c cur] eqn:E; cbn [Py.truthy];
    constructor; [|constructor].
  apply Hn. discriminate.
Qed.

Lemma content_chunks_joined (subject_content : pystr) :
  join (lit " ") (map content (optimize_for_rag_content subject_content))
  = clean_text subject_content
  /\ Forall (fun c => solid (content c))
            (optimize_for_rag_content subject_content).
Proof.
  unfold Subjects.optimize_for_rag_content.
  destruct subject_content as [|x t]; [split; [reflexivity | constructor]|].
  cbn [Py.truthy]. cbv zeta.
  destruct (clean_text (x :: t)) as [|y c] eqn:E.
  - split; [reflexivity | constructor].
  - rewrite <- E.
    assert (Ne : clean_text (x :: t) <> []) by (rewrite E; discriminate).
    destruct (sentences_of_clean_text (x :: t) Ne) as [Hj Hs].
    destruct (packed_sentences_joined _ Hs) as [Pj Ps].
    split.
    + change (lit " ") with [SP]. now rewrite Pj.
    + apply Forall_forall. intros ch Hin.
      rewrite Forall_forall in Ps. apply Ps. now apply in_map.
Qed.

(** X23.  The content chunks of a subject, joined by single spaces, are the
    cleaned content: the packing into chunks loses nothing and adds
    nothing.  No chunk is empty, and none has whitespace at an end. *)
Theorem content_chunks_round_trip (subject_content : pystr) :
  join (lit " ") (map content (optimize_for_rag_content subject_content))
  = clean_text subject_content
  /\ Forall (fun c => solid (content c))
            (optimize_for_rag_content subject_content).
Proof. exact (content_chunks_joined subject_content). Qed.

(** *** The numbers of the chunks *)

Local Abbreviation chunk_name :=
  (fun k : nat =>
     Subjects.slug english_name_lower ++ lit "_content_" ++ Py.str_of_nat k).
Local Abbreviation chunk_title :=
  (fun k : nat => english_name ++ lit " - Content Part " ++ Py.str_of_nat k).

Lemma pack_numbers (todo : list pystr) (st : packing) :
  length (chunks st) = chunk_count st ->
  map chunk_id (chunks st) = map chunk_name (seq 1 (chunk_count st)) ->
  map title (chunks st) = map chunk_title (seq 1 (chunk_count st)) ->
  Forall (fun c => type c = lit "content") (chunks st) ->
  let st' := fold_left pack todo st in
  length (chunks st') = chunk_count st'
  /\ map chunk_id (chunks st') = map chunk_name (seq 1 (chunk_count st'))
  /\ map title (chunks st') = map chunk_title (seq 1 (chunk_count st'))
  /\ Forall (fun c => type c = lit "content") (chunks st').
Proof.
  revert st; induction todo as [|s todo IH]; intros st Hl Hi Ht Hy;
    cbn [fold_left]; [auto|].
  apply IH; unfold Subjects.pack;
    destruct ((1000 <? length (current_chunk st) + length s)
              && Py.truthy (current_chunk st));
    cbn [chunks chunk_count]; auto.
  - rewrite length_app. simpl. lia.
  - rewrite map_app, seq_S, map_app, Hi. reflexivity.
  - rewrite map_app, seq_S, map_app, Ht. reflexivity.
  - apply Forall_app. split; [exact Hy|]. repeat constructor.
Qed.

Lemma packed_numbered (sentences : list pystr) :
  let cs := pack_sentences sentences in
  map chunk_id cs = map chunk_name (seq 1 (length cs))
  /\ map title cs = map chunk_title (seq 1 (length cs))
  /\ Forall (fun c => type c = lit "content") cs.
Proof.
  unfold Subjects.pack_sentences.
  destruct (pack_numbers sentences
              {| chunks := []; current_chunk := []; chunk_count := 0 |}
              eq_refl eq_refl eq_refl ltac:(constructor))
    as [Hl [Hi [Ht Hy]]].
  cbv zeta in *. set (st := fold_left pack sentences _) in *.
  unfold Subjects.flush. destruct (Py.truthy (current_chunk st)).
  - rewrite length_app, Hl. cbn [length]. rewrite Nat.add_1_r.
    rewrite !map_app, seq_S, !map_app, Hi, Ht. cbn [map Nat.add].
    repeat split. apply Forall_app. split; [exact Hy|]. repeat constructor.
  - rewrite Hl. auto.
Qed.

(** X24.  The content chunks of a subject are numbered from 1, one by one, in
    their identifiers and in their titles, and all have the type
    "content". *)
Theorem content_chunks_numbered (sentences : list pystr) :
  let cs := pack_sentences sentences in
  map chunk_id cs = map chunk_name (seq 1 (length cs))
  /\ map title cs = map chunk_title (seq 1 (length cs))
  /\ Forall (fun c => type c = lit "content") cs.
Proof. exact (packed_numbered sentences). Qed.

End Subject.

End SentenceFacts.

(* ------------------------------------------------------------------ *)
(** ** The topics of a card *)
(* ------------------------------------------------------------------ *)

Module ScraperFacts.
Import Re Scan Loops Scraper Sentences.
Import ReFacts CleanFacts LoopFacts SentenceFacts.

Section Class.

Variable q : cp -> bool.

Lemma Forall_cons_head (P : cp -> Prop) (x : cp) (ps : list pystr) :
  P x -> Forall (Forall P) ps -> Forall (Forall P) (cons_head x ps).
Proof.
  intros Hx F. destruct ps as [|p ps]; cbn [cons_head].
  - repeat constructor. exact Hx.
  - inversion F; subst. constructor; [now constructor | assumption].
Qed.

(** The pieces between the runs of a class hold no character of it. *)
Lemma gsplit_pieces (n : nat) (s : pystr) :
  length s < n ->
  Forall (Forall (fun c => q c = false)) (gsplit (class_run q) n s).
Proof.
  revert s; induction n as [|n IH]; intros s Hn; [lia|].
  cbn [gsplit]. destruct (class_run q s) as [rest|] eqn:E.
  - constructor; [constructor|]. apply IH.
    apply class_run_shortens in E. lia.
  - destruct s as [|x s']; [repeat constructor|]. simpl in Hn.
    apply Forall_cons_head; [|apply IH; lia].
    cbn [class_run] in E. destruct (q x); [discriminate | reflexivity].
Qed.

Lemma prepend_cons (a p : pystr) (r : list pystr) :
  prepend a (p :: r) = (a ++ p) :: r.
Proof.
  unfold prepend. induction a as [|x a IH]; [reflexivity|].
  cbn [fold_right app]. now rewrite IH.
Qed.

(** Characters that are not of the class go to the first piece. *)
Lemma gsplit_skip (a t : pystr) (n : nat) :
  Forall (fun c => q c = false) a ->
  gsplit (class_run q) (length a + n) (a ++ t)
  = prepend a (gsplit (class_run q) n t).
Proof.
  induction a as [|x a IH]; intros F; [reflexivity|].
  inversion F as [|? ? Hx Fa]; subst.
  cbn [length Nat.add app gsplit class_run]. rewrite Hx.
  rewrite (IH Fa). reflexivity.
Qed.

Lemma dropWhile_none (s : pystr) :
  Forall (fun c => q c = false) s -> dropWhile q s = s.
Proof.
  destruct s as [|x s]; [reflexivity|]. intros F. inversion F as [|? ? Hx _].
  cbn [dropWhile]. now rewrite Hx.
Qed.

Lemma gsplit_whole (n : nat) (s : pystr) :
  Forall (fun c => q c = false) s -> gsplit (class_run q) n s = [s].
Proof.
  revert s; induction n as [|n IH]; intros s F; [reflexivity|].
  destruct s as [|x s']; [reflexivity|].
  inversion F as [|? ? Hx Fs]; subst.
  cbn [gsplit class_run]. rewrite Hx, (IH _ Fs). reflexivity.
Qed.

Lemma gsplit_match (n : nat) (s rest : pystr) :
  class_run q s = Some rest ->
  gsplit (class_run q) (S n) s = [] :: gsplit (class_run q) n rest.
Proof. intros E. cbn [gsplit]. now rewrite E. Qed.

(** One character of the class between two texts without any. *)
Lemma gsplit_two (a b : pystr) (c : cp) :
  Forall (fun c => q c = false) a -> Forall (fun c => q c = false) b ->
  q c = true ->
  psplit (class_run q) (a ++ c :: b) = [a; b].
Proof.
  intros Fa Fb Hc. unfold psplit.
  replace (S (length (a ++ c :: b))) with (length a + S (S (length b)))
    by (rewrite length_app; simpl; lia).
  rewrite (gsplit_skip a (c :: b) _ Fa).
  rewrite (gsplit_match _ (c :: b) b)
    by (cbn [class_run]; now rewrite Hc, (dropWhile_none _ Fb)).
  rewrite (gsplit_whole _ _ Fb), prepend_cons, app_nil_r. reflexivity.
Qed.

End Class.

Lemma split_class (neg : bool) (items : list citem) (s : pystr) :
  Re.split (Plus (Cls neg items)) s
  = psplit (class_run (fun x => xorb neg (in_class items x))) s.
Proof.
  unfold Re.split, psplit. apply split_loop_gsplit.
  intros prev t. apply first_match_class_run.
Qed.

Lemma unspaced_strip (p : pystr) :
  Forall (fun c => isspace c = false) p -> strip p = p.
Proof.
  intros F. apply strip_fixed_iff. split.
  - destruct p as [|x p]; [exact I|]. now inversion F.
  - unfold ends_unspaced. apply Forall_rev in F.
    destruct (rev p) as [|x t]; [exact I|]. now inversion F.
Qed.

Lemma separates_space (c : cp) : separates c = false -> isspace c = false.
Proof.
  unfold separates, topic_sep_items. cbn [in_class existsb citem_mem].
  rewrite !orb_false_iff. tauto.
Qed.

Lemma topics_filtered (pieces : list pystr) :
  Forall (Forall (fun c => separates c = false)) pieces ->
  map strip (filter (fun topic => Py.truthy (strip topic)) pieces)
  = filter Py.truthy pieces.
Proof.
  induction pieces as [|p ps IH]; intros F; [reflexivity|].
  inversion F as [|? ? Fp Fps]; subst. cbn [filter].
  rewrite (unspaced_strip p)
    by (eapply Forall_impl; [|exact Fp]; apply separates_space).
  destruct (Py.truthy p); cbn [map]; rewrite (IH Fps); [|reflexivity].
  now rewrite (unspaced_strip p)
    by (eapply Forall_impl; [|exact Fp]; apply separates_space).
Qed.

Lemma extract_topics_pieces (categories : pystr) :
  _extract_topics categories
  = filter Py.truthy (psplit (class_run separates) categories)
  /\ Forall (Forall (fun c => separates c = false))
            (psplit (class_run separates) categories).
Proof.
  assert (F : Forall (Forall (fun c => separates c = false))
                (psplit (class_run separates) categories))
    by (apply gsplit_pieces; lia).
  split; [|exact F].
  unfold _extract_topics. destruct categories as [|x t]; [reflexivity|].
  cbv zeta. unfold topic_sep. rewrite split_class.
  now apply topics_filtered.
Qed.

Lemma topics_whole (categories : pystr) :
  Forall (fun c => separates c = false) categories ->
  _extract_topics categories
  = match categories with [] => [] | _ => [categories] end.
Proof.
  intros Fc. destruct (extract_topics_pieces categories) as [E _].
  rewrite E. unfold psplit. rewrite (gsplit_whole _ _ _ Fc).
  destruct categories; reflexivity.
Qed.

(** X28.  The topics of a category string are the pieces between the runs of
    separators that are not empty, as they are: no topic is empty, and none
    holds whitespace or a character of the separator class.  The class is
    made of the comma, the whitespace and the characters U+00EF, U+00BC,
    U+017D, U+00C2, U+00B7 and U+0152: the full-width comma and the
    full-width full stop are not in it, and a string that holds none of the
    class is one topic. *)
Theorem topics_of_card (categories : pystr) :
  _extract_topics categories
  = filter Py.truthy
      (psplit (class_run separates) categories)
  /\ Forall (fun t => t <> [] /\ Forall (fun c => separates c = false) t
                      /\ Forall (fun c => isspace c = false) t)
            (_extract_topics categories)
  /\ separates 0xff0c%Z = false /\ separates 0xff0e%Z = false
  /\ (Forall (fun c => separates c = false) categories ->
      _extract_topics categories
      = match categories with [] => [] | _ => [categories] end).
Proof.
  destruct (extract_topics_pieces categories) as [E F].
  split; [exact E|]. split; [|split; [reflexivity|split; [reflexivity|]]].
  - rewrite E. apply Forall_forall. intros t Ht.
    apply filter_In in Ht. destruct Ht as [Hin Hne].
    rewrite Forall_forall in F. specialize (F t Hin).
    split; [destruct t; [discriminate | discriminate]|].
    split; [exact F|].
    eapply Forall_impl; [|exact F]. apply separates_space.
  - apply topics_whole.
Qed.

(** X29.  A full-width comma between two categories: the collector keeps the
    string as one topic, where the optimizer splits it in two. *)
Theorem full_width_comma_not_split (a b : pystr) :
  a <> [] ->
  Forall (fun c => separates c = false) a ->
  Forall (fun c => separates c = false) b ->
  Forall (fun c => separates_category c = false) a ->
  Forall (fun c => separates_category c = false) b ->
  _extract_topics (a ++ 0xff0c%Z :: b) = [a ++ 0xff0c%Z :: b]
  /\ Re.split Rag.category_sep (a ++ 0xff0c%Z :: b) = [a; b].
Proof.
  intros Na Fa Fb Ca Cb. split.
  - rewrite topics_whole; [destruct a; [congruence | reflexivity]|].
    apply Forall_app. split; [exact Fa|]. constructor; [reflexivity | exact Fb].
  - unfold Rag.category_sep. rewrite split_class.
    apply (gsplit_two (fun x => xorb false
                                  (in_class [One 0xff0e%Z; One 0xb7%Z; One 0x2c%Z;
                                             One 0xff0c%Z; Esc isspace] x)));
      [exact Ca | exact Cb | reflexivity].
Qed.

Lemma full_width_comma_not_split_witness :
  _extract_topics (lit "UK" ++ 0xff0c%Z :: lit "US")
  = [lit "UK" ++ 0xff0c%Z :: lit "US"]
  /\ Re.split Rag.category_sep (lit "UK" ++ 0xff0c%Z :: lit "US")
     = [lit "UK"; lit "US"].
Proof.
  apply (full_width_comma_not_split (lit "UK") (lit "US"));
    [discriminate | | | |]; repeat constructor.
Defined.

End ScraperFacts.

(* ------------------------------------------------------------------ *)
(** ** The headings and the searchable text of an article *)
(* ------------------------------------------------------------------ *)

Module SearchFacts.
Import Re Scan Loops Normal Expansion Rag.
Import ReFacts CleanFacts LoopFacts PipelineFacts.

Section Normalizer.

Variable isalnum : cp -> bool.

Local Abbreviation _clean_text := (Rag._clean_text isalnum).
Local Abbreviation _extract_clean_headings :=
  (Rag._extract_clean_headings isalnum).
Local Abbreviation _create_searchable_content :=
  (Rag._create_searchable_content isalnum).

(** X5.  The headings of the structure are the normalized texts of the given
    headings that have a text of three characters or more when normalized,
    in the order given: none is shorter than three characters, each is in
    the normal form, and normalizing it again changes nothing. *)
Theorem clean_headings_normal (headings : list (option pystr)) :
  length (_extract_clean_headings headings) <= length headings
  /\ Forall (fun h => 3 <= length h /\ normalized isalnum h
                      /\ _clean_text h = h
                      /\ exists raw, In (Some raw) headings
                                     /\ h = _clean_text raw)
            (_extract_clean_headings headings).
Proof.
  unfold Rag._extract_clean_headings.
  induction headings as [|[raw|] hs [IHl IHf]]; cbn [flat_map length].
  - split; [lia | constructor].
  - assert (Ft : Forall (fun h => 3 <= length h /\ normalized isalnum h
                                  /\ _clean_text h = h
                                  /\ exists raw0, In (Some raw0) hs
                                                  /\ h = _clean_text raw0)
                   (flat_map
                      (fun h : option pystr =>
                         match h with
                         | Some raw0 =>
                             if Py.truthy (_clean_text raw0)
                                && (2 <? length (_clean_text raw0))
                             then [_clean_text raw0] else []
                         | None => []
                         end) hs)) by exact IHf.
    split.
    + rewrite length_app.
      destruct (Py.truthy (_clean_text raw) && (2 <? length (_clean_text raw)));
        simpl; lia.
    + apply Forall_app. split.
      * destruct (Py.truthy (_clean_text raw) && (2 <? length (_clean_text raw)))
          eqn:E; constructor; [|constructor].
        apply andb_true_iff in E. destruct E as [_ E]. apply Nat.ltb_lt in E.
        split; [lia|]. split; [apply clean_form_normalized, clean_text_form|].
        split; [apply clean_form_fixed_point, clean_text_form|].
        exists raw. split; [now left | reflexivity].
      * eapply Forall_impl; [|exact Ft]. cbv beta.
        intros h [H1 [H2 [H3 [raw0 [H4 H5]]]]].
        split; [exact H1|]. split; [exact H2|]. split; [exact H3|].
        exists raw0. split; [now right | exact H5].
  - split; [simpl; lia|].
    eapply Forall_impl; [|exact IHf]. cbv beta.
    intros h [H1 [H2 [H3 [raw0 [H4 H5]]]]].
    split; [exact H1|]. split; [exact H2|]. split; [exact H3|].
        exists raw0. split; [now right | exact H5].
Qed.

End Normalizer.

(** *** The expansions *)

Lemma contains_sep (t a b : pystr) :
  ~ In SP t ->
  contains t (a ++ SP :: b) = contains t a || contains t b.
Proof.
  intros Ht. apply eq_true_iff_eq.
  rewrite orb_true_iff, !contains_spec. split.
  - intros [l [r E]]. apply app_eq_app in E.
    destruct E as [l' [[E1 E2]|[E1 E2]]].
    + (* the term starts in [a] *)
      symmetry in E2. apply app_eq_app in E2.
      destruct E2 as [l'' [[E3 E4]|[E3 E4]]].
      * left. exists l, l''. now rewrite E1, E3.
      * destruct l'' as [|y l''].
        -- left. exists l, []. rewrite app_nil_r in *. now rewrite E1, E3.
        -- exfalso. apply Ht. rewrite E3. cbn [app] in E4.
           injection E4 as <- _. apply in_or_app. right. now left.
    + destruct l' as [|y l'].
      * cbn [app] in E2. destruct t as [|y t].
        -- left. exists a, []. now rewrite app_nil_r.
        -- exfalso. apply Ht. cbn [app] in E2. injection E2 as <- _.
           now left.
      * right. cbn [app] in E2. injection E2 as _ E2. exists l', r. exact E2.
  - intros [[l [r E]]|[l [r E]]].
    + exists l, (r ++ SP :: b). rewrite E. now rewrite <- !app_assoc.
    + exists (a ++ SP :: l), r. rewrite E. now rewrite <- app_assoc.
Qed.

Lemma expand_fold (vs : list (pystr * pystr)) :
  independent vs = true -> unspaced_terms vs = true ->
  forall base cur,
    (forall te, In te vs -> contains (fst te) cur = contains (fst te) base) ->
    fold_left (fun enhanced (te : pystr * pystr) =>
                 if contains (fst te) enhanced
                 then enhanced ++ lit " " ++ snd te else enhanced)
              vs cur
    = cur ++ concat (map (fun e => SP :: e)
                         (flat_map (fun te : pystr * pystr =>
                                      if contains (fst te) base
                                      then [snd te] else [])
                                   vs)).
Proof.
  induction vs as [|[t e] vs IH]; intros Hi Hu base cur Hc;
    cbn [fold_left flat_map map concat].
  - now rewrite app_nil_r.
  - cbn [independent] in Hi. apply andb_true_iff in Hi. destruct Hi as [Hi1 Hi2].
    unfold unspaced_terms in Hu. cbn [forallb] in Hu.
    apply andb_true_iff in Hu. destruct Hu as [Hu1 Hu2].
    pose proof (proj1 (forallb_forall _ _) Hi1) as Hi1'.
    pose proof (proj1 (forallb_forall _ _) Hu2) as Hu2'.
    pose proof (Hc (t, e) (or_introl eq_refl)) as Ht. cbn [fst] in Ht.
    cbn [fst snd]. rewrite Ht.
    destruct (contains t base) eqn:E.
    + rewrite (IH Hi2 Hu2 base).
      * cbn [app map concat]. now rewrite <- app_assoc.
      * intros te Hte. change (lit " " ++ e) with (SP :: e).
        rewrite contains_sep.
        -- rewrite (Hc te (or_intror Hte)).
           specialize (Hi1' te Hte). cbn [snd] in Hi1'.
           apply negb_true_iff in Hi1'. rewrite Hi1'. apply orb_false_r.
        -- specialize (Hu2' te Hte). apply negb_true_iff in Hu2'.
           intros Hin. assert (T : existsb (Z.eqb SP) (fst te) = true).
           { apply existsb_exists. exists SP. split; [exact Hin | reflexivity]. }
           congruence.
    + cbn [app]. apply (IH Hi2 Hu2 base).
      intros te Hte. apply Hc. now right.
Qed.

Lemma join_concat (base : pystr) (es : list pystr) :
  join (lit " ") (base :: es) = base ++ concat (map (fun e => SP :: e) es).
Proof.
  revert base; induction es as [|e es IH]; intros base.
  - cbn [map concat join]. now rewrite app_nil_r.
  - change (join (lit " ") (base :: e :: es))
      with (base ++ lit " " ++ join (lit " ") (e :: es)).
    rewrite IH. reflexivity.
Qed.

(** X6.  The searchable text of an article is the normalized text of the
    title, the excerpt and the body joined by spaces, followed by the
    expansions of those of the eight terms that are in that joined text:
    an expansion that has been added never brings in another, and each is
    added once. *)
Theorem searchable_content_expansions (isalnum : cp -> bool)
  (title content excerpt : pystr) :
  let base := join (lit " ") [title; excerpt; content] in
  Rag._create_searchable_content isalnum title content excerpt
  = Rag._clean_text isalnum (join (lit " ") (base :: expansions base))
  /\ length (expansions base) <= 8.
Proof.
  intros base. split.
  - unfold Rag._create_searchable_content. cbv zeta. fold base.
    rewrite (expand_fold variations eq_refl eq_refl base base (fun _ _ => eq_refl)).
    now rewrite join_concat.
  - unfold expansions, variations. cbn [flat_map fst snd].
    repeat match goal with
           | |- context [if ?c then _ else _] => destruct c
           end; simpl; lia.
Qed.

End SearchFacts.

(* ------------------------------------------------------------------ *)
(** ** The chunks of the subjects *)
(* ------------------------------------------------------------------ *)

Module SubjectRagFacts.
Import Sentences SubjectRag.
Import CleanFacts CleanerFacts SentenceFacts.
Import Subjects.

Section Lower.

Variable py_lower : pystr -> pystr.

Local Abbreviation plain_chunks := (SubjectRag.plain_chunks py_lower).
Local Abbreviation subject_chunks := (SubjectRag.subject_chunks py_lower).
Local Abbreviation optimize_for_rag := (SubjectRag.optimize_for_rag py_lower).
Local Abbreviation slug_of := (SubjectRag.slug_of py_lower).

Lemma clean_text_stripped (text : pystr) :
  strip (clean_text text) = clean_text text.
Proof. rewrite !subjects_clean_eq. apply strip_idem. Qed.

Lemma content_chunks_types (en enl text : pystr) :
  Forall (fun c => type c = lit "content"
                   /\ strip (content c) = content c
                   /\ exists k, chunk_id c
                                = slug enl ++ lit "_content_" ++ Py.str_of_nat k)
         (optimize_for_rag_content en enl text).
Proof.
  destruct (content_chunks_joined en enl text) as [_ Hs].
  unfold Subjects.optimize_for_rag_content in *.
  destruct (Py.truthy text); [|constructor]. cbv zeta in *.
  destruct (packed_numbered en enl
              (Re.split sentence_end (clean_text text))) as [Hi [_ Ht]].
  cbv zeta in Hi.
  set (cs := pack_sentences en enl _) in *.
  apply Forall_forall. intros c Hc. rewrite Forall_forall in Hs, Ht.
  split; [now apply Ht|]. split; [now apply Hs|].
  apply (in_map chunk_id) in Hc. rewrite Hi in Hc.
  apply in_map_iff in Hc. destruct Hc as [k [Hk _]]. eauto.
Qed.

(** What every plain chunk of a subject has. *)
Lemma plain_chunks_kept (s : subject) :
  exists rest,
    plain_chunks s = basic_info py_lower s :: rest
    /\ Forall (fun c => type c <> lit "basic_info") rest
    /\ Forall (fun c => strip (content c) = content c
                        /\ exists tail,
                             chunk_id c
                             = slug_of (s_english_name s) ++ 95%Z :: tail)
              (plain_chunks s).
Proof.
  unfold SubjectRag.plain_chunks. eexists. split; [reflexivity|].
  pose proof (content_chunks_types (s_english_name s)
                (py_lower (s_english_name s)) (s_content s)) as Hc.
  split.
  - apply Forall_app. split;
      [destruct (Py.truthy (s_skills_info s)); repeat constructor; discriminate|].
    apply Forall_app. split.
    + apply Forall_forall. intros c Hin. apply in_map_iff in Hin.
      destruct Hin as [r [<- _]]. discriminate.
    + apply Forall_app. split.
      * eapply Forall_impl; [|exact Hc]. intros c [-> _]. discriminate.
      * destruct (Py.truthy (s_recommended_schools s)); repeat constructor.
        discriminate.
  - constructor.
    + split; [apply clean_text_stripped|]. eexists. reflexivity.
    + apply Forall_app. split.
      * destruct (Py.truthy (s_skills_info s)); constructor; [|constructor].
        split; [apply clean_text_stripped|]. eexists. reflexivity.
      * apply Forall_app. split.
        -- apply Forall_forall. intros c Hin. apply in_map_iff in Hin.
           destruct Hin as [r [<- _]].
           split; [apply clean_text_stripped|]. eexists. reflexivity.
        -- apply Forall_app. split.
           ++ eapply Forall_impl; [|exact Hc].
              intros c [_ [Hst [k Hk]]]. split; [exact Hst|].
              rewrite Hk. eexists. reflexivity.
           ++ destruct (Py.truthy (s_recommended_schools s));
                constructor; [|constructor].
              split; [apply strip_idem|]. eexists. reflexivity.
Qed.

Lemma of_type_app (kind : pystr) (a b : list rag_chunk) :
  of_type kind (a ++ b) = of_type kind a ++ of_type kind b.
Proof. apply filter_app. Qed.

Lemma of_type_none (kind : pystr) (cs : list rag_chunk) :
  Forall (fun c => type (body c) <> kind) cs -> of_type kind cs = [].
Proof.
  induction cs as [|c cs IH]; intros F; [reflexivity|].
  inversion F as [|? ? Hc Fcs]; subst. unfold of_type. cbn [filter].
  destruct (PyStrFacts.eqb_spec (type (body c)) kind); [contradiction|].
  now apply IH.
Qed.

Lemma subject_basic (s : subject) :
  exists b rest,
    subject_chunks s = b :: rest
    /\ body b = basic_info py_lower s
    /\ Forall (fun c => type (body c) <> lit "basic_info") rest.
Proof.
  destruct (plain_chunks_kept s) as [rest [E [Ft _]]].
  unfold SubjectRag.subject_chunks. rewrite E. cbn [map app].
  eexists. eexists. split; [reflexivity|]. split; [reflexivity|].
  apply Forall_app. split.
  - apply Forall_forall. intros c Hin. apply in_map_iff in Hin.
    destruct Hin as [c0 [<- Hc0]]. cbn [body].
    rewrite Forall_forall in Ft. now apply Ft.
  - destruct (Py.truthy (s_rankings s)); repeat constructor. discriminate.
Qed.

Lemma subject_chunks_kept (s : subject) :
  Forall (fun c =>
            meta c = metadata_of s
            /\ strip (content (body c)) = content (body c)
            /\ exists tail,
                 chunk_id (body c)
                 = slug_of (s_english_name s) ++ 95%Z :: tail)
         (subject_chunks s).
Proof.
  destruct (plain_chunks_kept s) as [_ [_ [_ F]]].
  unfold SubjectRag.subject_chunks. apply Forall_app. split.
  - apply Forall_forall. intros c Hin. apply in_map_iff in Hin.
    destruct Hin as [c0 [<- Hc0]]. cbn [body meta].
    rewrite Forall_forall in F. split; [reflexivity | now apply F].
  - destruct (Py.truthy (s_rankings s)); constructor; [|constructor].
    cbn [body meta]. split; [reflexivity|].
    split; [apply strip_idem|]. eexists. reflexivity.
Qed.

(** X26.  Every subject gives its basic chunk first and no other chunk of that
    type; every chunk of a subject carries the metadata of the subject, an
    identifier that starts with the lower-cased English name, spaces
    replaced, and an underscore, and a text without whitespace at its
    ends. *)
Theorem subject_chunks_shape (s : subject) :
  (exists b rest,
      subject_chunks s = b :: rest
      /\ body b = basic_info py_lower s
      /\ Forall (fun c => type (body c) <> lit "basic_info") rest)
  /\ Forall (fun c =>
               meta c = metadata_of s
               /\ strip (content (body c)) = content (body c)
               /\ exists tail,
                    chunk_id (body c)
                    = slug_of (s_english_name s) ++ 95%Z :: tail)
            (subject_chunks s).
Proof.
  split; [apply subject_basic | apply subject_chunks_kept].
Qed.

(** X27.  The result has one basic chunk for every subject, in the order of the
    subjects, so it has at least as many chunks as there are subjects, and
    every chunk of it comes from a subject of the list, whose metadata it
    carries. *)
Theorem one_basic_chunk_per_subject (subjects_data : list subject) :
  map body (of_type (lit "basic_info") (optimize_for_rag subjects_data))
  = map (basic_info py_lower) subjects_data
  /\ length subjects_data <= length (optimize_for_rag subjects_data)
  /\ Forall (fun c => exists s, In s subjects_data /\ In c (subject_chunks s)
                                /\ meta c = metadata_of s)
            (optimize_for_rag subjects_data).
Proof.
  unfold SubjectRag.optimize_for_rag. split; [|split].
  - induction subjects_data as [|s l IH]; [reflexivity|].
    cbn [flat_map map]. rewrite of_type_app, map_app, IH.
    destruct (subject_basic s) as [b [rest [E [Hb Hr]]]]. rewrite E.
    change (of_type (lit "basic_info") (b :: rest))
      with (if PyStr.eqb (type (body b)) (lit "basic_info")
            then b :: of_type (lit "basic_info") rest
            else of_type (lit "basic_info") rest).
    rewrite (of_type_none _ _ Hr), Hb.
    change (PyStr.eqb (type (basic_info py_lower s)) (lit "basic_info"))
      with true.
    cbn [map app]. now rewrite Hb.
  - induction subjects_data as [|s l IH]; [simpl; lia|].
    cbn [flat_map length]. rewrite length_app.
    destruct (subject_basic s) as [b [rest [E _]]]. rewrite E. simpl. lia.
  - apply Forall_forall. intros c Hin. apply in_flat_map in Hin.
    destruct Hin as [s [Hs Hc]]. exists s. split; [exact Hs|].
    split; [exact Hc|].
    pose proof (subject_chunks_kept s) as F. rewrite Forall_forall in F.
    now apply F.
Qed.

End Lower.

End SubjectRagFacts.

(* ------------------------------------------------------------------ *)
(** ** Identifiers *)
(* ------------------------------------------------------------------ *)

Module NumberFacts.
Import Numbers Rag Outcome.

Lemma unlit_lit (s : string) : unlit (lit s) = s.
Proof.
  unfold unlit, lit. rewrite map_map.
  rewrite <- (string_of_list_ascii_of_string s) at 2. f_equal.
  rewrite <- (map_id (list_ascii_of_string s)) at 2.
  apply map_ext. intros a. rewrite N2Z.id. apply ascii_N_embedding.
Qed.

Lemma value_str_of_nat (n : nat) : value (Py.str_of_nat n) = Some n.
Proof.
  unfold value, Py.str_of_nat. rewrite unlit_lit, NilEmpty.usu.
  cbn [option_map]. f_equal. apply DecimalNat.Unsigned.of_to.
Qed.

Lemma value_zero (s : pystr) : value (48%Z :: s) = value s.
Proof.
  unfold value, unlit. cbn [map string_of_list_ascii].
  change (ascii_of_N (Z.to_N 48)) with "0"%char.
  cbn [NilEmpty.uint_of_string].
  destruct (NilEmpty.uint_of_string _) as [d|]; reflexivity.
Qed.

Lemma value_pad4 (n : nat) : value (pad4 n) = Some n.
Proof.
  unfold pad4. cbv zeta.
  induction (4 - length (Py.str_of_nat n)) as [|k IH]; cbn [repeat app].
  - apply value_str_of_nat.
  - now rewrite value_zero.
Qed.

Lemma str_of_nat_inj (n m : nat) : Py.str_of_nat n = Py.str_of_nat m -> n = m.
Proof.
  intros H. apply (f_equal value) in H. rewrite !value_str_of_nat in H.
  now injection H.
Qed.

Lemma id_at_inj (i j : nat) : id_at i = id_at j -> i = j.
Proof.
  unfold id_at. intros H. apply app_inv_head in H.
  apply (f_equal value) in H. rewrite !value_pad4 in H.
  injection H as H. lia.
Qed.

Section Batch.

Variable isalnum : cp -> bool.
Variable isdigit : cp -> bool.
Variable py_lower : pystr -> pystr.
Variable set_order : PySet.order.
Variable clock : nat -> pystr.

Local Abbreviation run :=
  (fun ia : nat * article =>
     Rag._optimize_single_article isalnum isdigit py_lower set_order
       (clock (fst ia + 1)) (snd ia) (fst ia + 1)).
Local Abbreviation optimize_articles_for_rag :=
  (Rag.optimize_articles_for_rag isalnum isdigit py_lower set_order clock).

Lemma document_id_at (ia : nat * article) (d : document) :
  In d (document_of (run ia)) -> doc_id d = id_at (fst ia).
Proof.
  destruct ia as [i a]. cbn [fst snd].
  destruct (Rag._optimize_single_article isalnum isdigit py_lower set_order
              (clock (i + 1)) a (i + 1)) as [[d'|]|e] eqn:E;
    cbn [document_of]; try contradiction.
  intros [<-|[]].
  unfold Rag._optimize_single_article in E.
  destruct (Rag.clean_value isalnum (a_title a)) as [t|]; [|discriminate].
  destruct (Rag.clean_value isalnum (a_content a)) as [c|]; [|discriminate].
  destruct (Rag.clean_value isalnum (a_excerpt a)) as [x|]; [|discriminate].
  cbn [bind] in E.
  destruct (negb (Py.truthy t) || negb (Py.truthy c)); [discriminate|].
  now injection E as <-.
Qed.

Lemma document_of_one (ia : nat * article) :
  document_of (run ia) = []
  \/ exists d, document_of (run ia) = [d].
Proof.
  destruct (Rag._optimize_single_article isalnum isdigit py_lower set_order
              (clock (fst ia + 1)) (snd ia) (fst ia + 1)) as [[d|]|e];
    cbn [document_of]; eauto.
Qed.

Lemma ids_from (k : nat) (l : list article) :
  NoDup (map doc_id
           (flat_map (fun ia => document_of (run ia)) (Py.enumerate_from k l)))
  /\ forall d,
       In d (flat_map (fun ia => document_of (run ia)) (Py.enumerate_from k l)) ->
       exists i, k <= i /\ doc_id d = id_at i.
Proof.
  revert k; induction l as [|a l IH]; intros k.
  - split; [constructor | intros d []].
  - rewrite RagFacts.enumerate_from_cons. cbn [flat_map].
    destruct (IH (S k)) as [N F].
    assert (Fk : forall d,
               In d (flat_map (fun ia => document_of (run ia))
                       (Py.enumerate_from (S k) l)) ->
               exists i, k <= i /\ doc_id d = id_at i).
    { intros d Hd. destruct (F d Hd) as [i [Hi E]]. exists i. split; [lia|exact E]. }
    destruct (document_of_one (k, a)) as [E|[d E]].
    + rewrite E. cbn [app]. split; [exact N | exact Fk].
    + assert (Hid : doc_id d = id_at k).
      { apply (document_id_at (k, a) d). cbv beta. rewrite E. now left. }
      rewrite E.
      cbn [app map]. split.
      * constructor; [|exact N]. intros Hin. apply in_map_iff in Hin.
        destruct Hin as [d' [Eid Hd']]. destruct (F d' Hd') as [i [Hi Ei]].
        rewrite Hid, Ei in Eid. apply id_at_inj in Eid. lia.
      * intros d0 [<-|Hd0]; [exists k; split; [lia | exact Hid] | now apply Fk].
Qed.

(** X17.  No two documents of a batch have the same identifier: the identifier
    writes the position of the record, and the positions differ. *)
Theorem document_ids_distinct (articles : list article) :
  NoDup (map doc_id (documents (optimize_articles_for_rag articles))).
Proof.
  destruct (BatchFacts.loop_by_record isalnum isdigit py_lower set_order clock
              (Py.enumerate articles)
              {| optimized_articles := []; log := [] |}) as [Hd _].
  cbn [optimized_articles app] in Hd.
  unfold Rag.optimize_articles_for_rag. cbn [documents].
  unfold Rag.optimize_loop in *. rewrite Hd. apply ids_from.
Qed.

End Batch.

(** X25.  No two content chunks of a subject have the same identifier. *)
Theorem content_chunk_ids_distinct (english_name english_name_lower : pystr)
  (sentences : list pystr) :
  NoDup (map Subjects.chunk_id
           (Subjects.pack_sentences english_name english_name_lower sentences)).
Proof.
  destruct (SentenceFacts.packed_numbered english_name
              english_name_lower sentences) as [Hi _].
  cbv zeta in Hi. rewrite Hi. apply Injective_map_NoDup.
  - intros i j H. apply app_inv_head in H. apply app_inv_head in H.
    now apply str_of_nat_inj.
  - apply seq_NoDup.
Qed.

End NumberFacts.

(* ------------------------------------------------------------------ *)
(** ** The sections of the structure *)
(* ------------------------------------------------------------------ *)

Module SectionFacts.
Import Rag PipelineFacts.


End SectionFacts.

(* ------------------------------------------------------------------ *)
(** ** Heading-delimited chunks, by the first line of each part *)
(* ------------------------------------------------------------------ *)

Module HeadingFacts.
Import Lang Heading Rag.
Import CleanFacts SentenceFacts.

(** *** Lines *)









(** *** Pieces *)

Lemma within_refl (s : pystr) : within s s.
Proof. exists [], []. now rewrite app_nil_r. Qed.






(** *** The chunks *)




End HeadingFacts.

(* ------------------------------------------------------------------ *)
(** ** A record that is left out *)
(* ------------------------------------------------------------------ *)

Module ExclusionFacts.
Import Rag Outcome Heading.

Section Batch.

Variable isalnum : cp -> bool.
Variable isdigit : cp -> bool.
Variable py_lower : pystr -> pystr.
Variable set_order : PySet.order.
Variable clock : nat -> pystr.

Local Abbreviation clean_value := (Rag.clean_value isalnum).
Local Abbreviation _optimize_single_article :=
  (Rag._optimize_single_article isalnum isdigit py_lower set_order).
Local Abbreviation run :=
  (fun ia : nat * article =>
     Rag._optimize_single_article isalnum isdigit py_lower set_order
       (clock (fst ia + 1)) (snd ia) (fst ia + 1)).
Local Abbreviation optimize_articles_for_rag :=
  (Rag.optimize_articles_for_rag isalnum isdigit py_lower set_order clock).






End Batch.


End ExclusionFacts.
